(** * dm-data-tokenization-replacer: a shallow embedding of [main.py]

    The development follows the layout of the program:

    - Python's insertion-ordered [dict] as an association list whose
      assignment [d[k] = v] overwrites in place or appends at the end (the
      order is observable: the reverse lookup of a value returns the first
      entry that holds it, and the mapping file is written in that order);
    - the two token generators ([generate_uuid_token],
      [generate_sequential_token]);
    - the per-cell, per-row and per-file loops of [tokenize_data] and
      [detokenize_data];
    - the file system, the log and the source of random identifiers as an
      explicit world threaded through a small exception monad.

    The parsing of CSV text is the [csv] module's business: a CSV file is
    modelled by the list of rows that [csv.reader] yields for it, and
    [csv.DictReader] / [csv.DictWriter] are modelled on top of such rows.

    The file system of the world is flat and permissive: a path is absent or
    names a file that can be read, and every path can be opened for writing.
    The other ways in which [open] and the [csv] module fail (a directory
    that does not exist, a permission, a directory in place of a file, text
    that cannot be decoded) are not part of the world, so that what is said
    below of a run that completes, or of the error that it raises, is said
    of runs on such a file system. *)

From Stdlib Require Import String Ascii List Arith Lia Bool FinFun.
From Stdlib Require Import Decimal DecimalNat DecimalString.
Import ListNotations.
Open Scope string_scope.
Open Scope list_scope.

(* ================================================================== *)
(** * Python values and dictionaries *)

(** A cell of a [DictReader] row is a [str], or [None] when the line was
    shorter than the header ([restval]). *)
Inductive pyval : Type :=
| PyStr (s : string)
| PyNone.

Definition pyval_eqb (a b : pyval) : bool :=
  match a, b with
  | PyStr s, PyStr t => String.eqb s t
  | PyNone, PyNone => true
  | _, _ => false
  end.

(** What [csv.writer] prints for a value: [None] becomes the empty field. *)
Definition csv_field (v : pyval) : string :=
  match v with
  | PyStr s => s
  | PyNone => ""
  end.

Section Dict.
Context {V : Type}.

(** [items()] in insertion order. *)
Definition dict : Type := list (string * V).

Definition keys (d : dict) : list string := map fst d.
Definition values (d : dict) : list V := map snd d.

(** [d[k]] / [d.get(k)] *)
Fixpoint dict_get (d : dict) (k : string) : option V :=
  match d with
  | [] => None
  | (k', v) :: d' => if String.eqb k k' then Some v else dict_get d' k
  end.

(** [k in d] *)
Fixpoint dict_mem (k : string) (d : dict) : bool :=
  match d with
  | [] => false
  | (k', _) :: d' => if String.eqb k k' then true else dict_mem k d'
  end.

(** [d[k] = v]: an existing key keeps its position, a new key goes last. *)
Fixpoint dict_set (k : string) (v : V) (d : dict) : dict :=
  match d with
  | [] => [(k, v)]
  | (k', v') :: d' =>
      if String.eqb k k' then (k, v) :: d' else (k', v') :: dict_set k v d'
  end.

(** [dict(pairs)] and [d.update(pairs)]: assignments in order. *)
Definition dict_update (d : dict) (kvs : list (string * V)) : dict :=
  fold_left (fun acc kv => dict_set (fst kv) (snd kv) acc) kvs d.
End Dict.

Arguments dict : clear implicits.

(** [str(n)] for a non-negative integer. *)
Definition py_str (n : nat) : string :=
  NilEmpty.string_of_uint (Nat.to_uint n).

(* ================================================================== *)
(** * Token generators *)

Definition token_map_t : Type := dict pyval.

(** The reverse lookup that both generators and the tokenizer perform:
    [for token, original_value in token_map.items():
       if original_value == value: return token]. *)
Fixpoint find_token (token_map : token_map_t) (value : pyval) : option string :=
  match token_map with
  | [] => None
  | (token, original_value) :: rest =>
      if pyval_eqb original_value value then Some token
      else find_token rest value
  end.

(** [while token in token_map: token = str(uuid.uuid4())].  The identifiers
    that [uuid.uuid4()] is going to return are the list [draws]; [None]
    means that the loop used all of them without leaving. *)
Fixpoint uuid_redraw (token_map : token_map_t) (token : string)
         (draws : list string) {struct draws} : option (string * list string) :=
  if dict_mem token token_map then
    match draws with
    | [] => None
    | token' :: draws' => uuid_redraw token_map token' draws'
    end
  else Some (token, draws).

Definition generate_uuid_token (value : pyval) (token_map : token_map_t)
           (draws : list string) : option (string * list string) :=
  match find_token token_map value with
  | Some token => Some (token, draws)
  | None =>
      match draws with
      | [] => None
      | token :: draws' => uuid_redraw token_map token draws'
      end
  end.

(** [while str(next_id) in token_map: next_id += 1], run for at most [fuel]
    tests. *)
Fixpoint next_id_loop (fuel next_id : nat) (token_map : token_map_t)
  : option nat :=
  match fuel with
  | O => None
  | S fuel' =>
      if dict_mem (py_str next_id) token_map
      then next_id_loop fuel' (S next_id) token_map
      else Some next_id
  end.

(** The loop is given one test more than the mapping has entries, which is
    always enough ([next_id_loop_total] below). *)
Definition generate_sequential_token (value : pyval) (token_map : token_map_t)
           (draws : list string) : option (string * list string) :=
  match find_token token_map value with
  | Some token => Some (token, draws)
  | None =>
      match next_id_loop (S (length token_map)) 1 token_map with
      | Some next_id => Some (py_str next_id, draws)
      | None => None
      end
  end.

(** [Callable[[str, Dict[str, str]], str]], with the random source made
    explicit. *)
Definition token_generator_t : Type :=
  pyval -> token_map_t -> list string -> option (string * list string).

(* ================================================================== *)
(** * The tokenizer's loops *)

Inductive warning : Type :=
| MalformedRow (row : list string)
| ColumnNotFound (column : string).

(** Lines 128-131: reuse the token of [original_value] or mint one and
    record it. *)
Definition tokenize_value (token_generator : token_generator_t)
           (original_value : pyval) (token_map : token_map_t)
           (draws : list string)
  : option (string * token_map_t * list string) :=
  match find_token token_map original_value with
  | Some token => Some (token, token_map, draws)
  | None =>
      match token_generator original_value token_map draws with
      | Some (token, draws') =>
          Some (token, dict_set token original_value token_map, draws')
      | None => None
      end
  end.

(** The state that the loops of [tokenize_data] carry. *)
Record tok_state : Type := mk_tok_state {
  token_map : token_map_t;
  entropy : list string;
  warnings : list warning
}.

(** Lines 125-134: the body of [for column in tokenize_columns]. *)
Definition tokenize_column (token_generator : token_generator_t)
           (column : string) (row : dict pyval) (st : tok_state)
  : option (dict pyval * tok_state) :=
  match dict_get row column with
  | Some original_value =>
      match tokenize_value token_generator original_value
                           (token_map st) (entropy st) with
      | Some (token, token_map', draws') =>
          Some (dict_set column (PyStr token) row,
                mk_tok_state token_map' draws' (warnings st))
      | None => None
      end
  | None =>
      Some (row, mk_tok_state (token_map st) (entropy st)
                              (warnings st ++ [ColumnNotFound column]))
  end.

(** Lines 124-134. *)
Fixpoint tokenize_row (token_generator : token_generator_t)
         (tokenize_columns : list string) (row : dict pyval) (st : tok_state)
  : option (dict pyval * tok_state) :=
  match tokenize_columns with
  | [] => Some (row, st)
  | column :: columns =>
      match tokenize_column token_generator column row st with
      | Some (row', st') => tokenize_row token_generator columns row' st'
      | None => None
      end
  end.

(** Lines 123-136 on records already in memory. *)
Fixpoint tokenize_rows (token_generator : token_generator_t)
         (tokenize_columns : list string) (rows : list (dict pyval))
         (st : tok_state) : option (list (dict pyval) * tok_state) :=
  match rows with
  | [] => Some ([], st)
  | row :: rows' =>
      match tokenize_row token_generator tokenize_columns row st with
      | Some (row', st') =>
          match tokenize_rows token_generator tokenize_columns rows' st' with
          | Some (out, st'') => Some (row' :: out, st'')
          | None => None
          end
      | None => None
      end
  end.

(* ================================================================== *)
(** * The detokenizer's loops *)

Inductive exn : Type :=
| FileNotFoundError (path : string)
| ValueError (msg : string)
| TypeError (msg : string)
| KeyError (key : string).

(** A computation returns, raises, or does not leave a loop. *)
Inductive outcome (A : Type) : Type :=
| Ok (a : A)
| Raise (e : exn)
| Diverge.

Arguments Ok {A} a.
Arguments Raise {A} e.
Arguments Diverge {A}.

(** Lines 185-186: [if row[column] in token_map:
                      row[column] = token_map[row[column]]]. *)
Definition detokenize_column (token_map : token_map_t) (column : string)
           (row : dict pyval) : outcome (dict pyval) :=
  match dict_get row column with
  | None => Raise (KeyError column)
  | Some PyNone => Ok row
  | Some (PyStr cell) =>
      match dict_get token_map cell with
      | Some original_value => Ok (dict_set column original_value row)
      | None => Ok row
      end
  end.

(** Lines 184-186: [for column in reader.fieldnames]. *)
Fixpoint detokenize_row (token_map : token_map_t) (fieldnames : list string)
         (row : dict pyval) : outcome (dict pyval) :=
  match fieldnames with
  | [] => Ok row
  | column :: columns =>
      match detokenize_column token_map column row with
      | Ok row' => detokenize_row token_map columns row'
      | Raise e => Raise e
      | Diverge => Diverge
      end
  end.

(* ================================================================== *)
(** * The mapping file *)

Definition csv_file : Type := list (list string).

(** Lines 97-101 and 163-167: the loop over the rows of the mapping file. *)
Fixpoint load_token_map (rows : csv_file) (token_map : token_map_t)
  : token_map_t * list warning :=
  match rows with
  | [] => (token_map, [])
  | row :: rows' =>
      match row with
      | [token; original_value] =>
          load_token_map rows' (dict_set token (PyStr original_value) token_map)
      | _ =>
          let (token_map', ws) := load_token_map rows' token_map in
          (token_map', MalformedRow row :: ws)
      end
  end.

(** Lines 148-149: one row [token, value] per item. *)
Definition save_token_map (token_map : token_map_t) : csv_file :=
  map (fun item => [fst item; csv_field (snd item)]) token_map.

(* ================================================================== *)
(** * [csv.DictReader] and [csv.DictWriter] *)

(** A row as [DictReader] yields it: the fields under the header's names,
    and the surplus fields of a long line under the key [None]
    ([restkey]). *)
Record dict_row : Type := mk_dict_row {
  cells : dict pyval;
  restkey : option (list string)
}.

Definition DictReader_row (fieldnames row : list string) : dict_row :=
  let d := dict_update [] (combine fieldnames (map PyStr row)) in
  let lf := length fieldnames in
  let lr := length row in
  if Nat.ltb lf lr then mk_dict_row d (Some (skipn lf row))
  else if Nat.ltb lr lf then
    mk_dict_row (dict_update d (map (fun key => (key, PyNone))
                                    (skipn lr fieldnames))) None
  else mk_dict_row d None.

Definition is_blank (row : list string) : bool :=
  match row with [] => true | _ => false end.

(** The rows after the header; [DictReader] passes over blank ones. *)
Definition DictReader_rows (fieldnames : list string) (lines : csv_file)
  : list dict_row :=
  map (DictReader_row fieldnames)
      (filter (fun row => negb (is_blank row)) lines).

(** [DictWriter._dict_to_list] with [extrasaction='raise'], [restval='']. *)
Definition DictWriter_row (fieldnames : list string) (r : dict_row)
  : outcome (list string) :=
  match restkey r with
  | Some _ => Raise (ValueError "dict contains fields not in fieldnames")
  | None =>
      if forallb (fun k => existsb (String.eqb k) fieldnames) (keys (cells r))
      then Ok (map (fun key => match dict_get (cells r) key with
                               | Some v => csv_field v
                               | None => ""
                               end) fieldnames)
      else Raise (ValueError "dict contains fields not in fieldnames")
  end.

(* ================================================================== *)
(** * The world: files, log, random identifiers *)

Inductive event : Type :=
| EvExists (path : string) (found : bool)
| EvOpenRead (path : string)
| EvOpenWrite (path : string)
| EvWarning (w : warning)
| EvError (msg : string).

Record world : Type := mk_world {
  files : dict csv_file;
  uuid_draws : list string;
  trace : list event
}.

Definition M (A : Type) : Type := world -> outcome A * world.

Definition ret {A} (a : A) : M A := fun w => (Ok a, w).

Definition bind {A B} (m : M A) (f : A -> M B) : M B :=
  fun w =>
    match m w with
    | (Ok a, w') => f a w'
    | (Raise e, w') => (Raise e, w')
    | (Diverge, w') => (Diverge, w')
    end.

Notation "x <- m ;; k" := (bind m (fun x => k))
  (at level 61, m at next level, right associativity).
Notation "m ;;; k" := (bind m (fun _ => k))
  (at level 61, right associativity).

Definition raise {A} (e : exn) : M A := fun w => (Raise e, w).
Definition diverge {A} : M A := fun w => (Diverge, w).

Definition emit (ev : event) : M unit :=
  fun w => (Ok tt, mk_world (files w) (uuid_draws w) (trace w ++ [ev])).

(** [except FileNotFoundError: logging.error(not_found); raise
     except Exception as e: logging.error(other); raise] *)
Definition error_message (not_found other : string) (e : exn) : string :=
  match e with
  | FileNotFoundError _ => not_found
  | _ => other
  end.

Definition log_and_reraise {A} (not_found other : string) (m : M A) : M A :=
  fun w =>
    match m w with
    | (Raise e, w') =>
        (Raise e, mk_world (files w') (uuid_draws w')
                           (trace w' ++ [EvError (error_message not_found other e)]))
    | r => r
    end.

(** [os.path.exists(path)] *)
Definition path_exists (path : string) : M bool :=
  fun w =>
    let found := dict_mem path (files w) in
    (Ok found,
     mk_world (files w) (uuid_draws w) (trace w ++ [EvExists path found])).

(** [open(path, "r")] *)
Definition open_read (path : string) : M unit :=
  fun w =>
    if dict_mem path (files w)
    then (Ok tt, mk_world (files w) (uuid_draws w) (trace w ++ [EvOpenRead path]))
    else (Raise (FileNotFoundError path), w).

(** [open(path, "w")]: the file is created or emptied. *)
Definition open_write (path : string) : M unit :=
  fun w =>
    (Ok tt, mk_world (dict_set path [] (files w)) (uuid_draws w)
                     (trace w ++ [EvOpenWrite path])).

(** The rows that a reader on an open file yields. *)
Definition read_rows (path : string) : M csv_file :=
  fun w =>
    match dict_get (files w) path with
    | Some rows => (Ok rows, w)
    | None => (Raise (FileNotFoundError path), w)
    end.

(** [writer.writerow(row)] on an open file. *)
Definition write_row (path : string) (row : list string) : M unit :=
  fun w =>
    let old := match dict_get (files w) path with
               | Some rows => rows
               | None => []
               end in
    (Ok tt, mk_world (dict_set path (old ++ [row]) (files w)) (uuid_draws w)
                     (trace w)).

Fixpoint write_rows (path : string) (rows : csv_file) : M unit :=
  match rows with
  | [] => ret tt
  | row :: rows' => write_row path row ;;; write_rows path rows'
  end.

Fixpoint emit_warnings (ws : list warning) : M unit :=
  match ws with
  | [] => ret tt
  | w :: ws' => emit (EvWarning w) ;;; emit_warnings ws'
  end.

(** The column loop of one row against the world's random source. *)
Definition run_tokenize_row (token_generator : token_generator_t)
           (tokenize_columns : list string) (row : dict pyval)
           (tm : token_map_t) : M (dict pyval * token_map_t) :=
  fun w =>
    match tokenize_row token_generator tokenize_columns row
                       (mk_tok_state tm (uuid_draws w) []) with
    | Some (row', st) =>
        (emit_warnings (warnings st) ;;; ret (row', token_map st))
          (mk_world (files w) (entropy st) (trace w))
    | None => (Diverge, w)
    end.

(** [with open(token_map_file, "r") as csvfile: for row in csv.reader(...)] *)
Definition read_token_map (token_map_file : string) : M token_map_t :=
  open_read token_map_file ;;;
  rows <- read_rows token_map_file ;;
  let (tm, ws) := load_token_map rows [] in
  emit_warnings ws ;;;
  ret tm.

(** Lines 107-112. *)
Definition select_generator (token_method : string) : M token_generator_t :=
  if String.eqb token_method "uuid" then ret generate_uuid_token
  else if String.eqb token_method "sequential" then ret generate_sequential_token
  else raise (ValueError "Invalid token_method").

(** [writer.writeheader()]; [fieldnames] is [None] for an empty input. *)
Definition writeheader (output_file : string) (fieldnames : option (list string))
  : M (list string) :=
  match fieldnames with
  | None => raise (TypeError "'NoneType' object is not iterable")
  | Some names => write_row output_file names ;;; ret names
  end.

(** [reader.fieldnames] and the lines that follow the header. *)
Definition split_header (lines : csv_file) : option (list string) * csv_file :=
  match lines with
  | [] => (None, [])
  | header :: rest => (Some header, rest)
  end.

(** Lines 123-136. *)
Fixpoint tokenize_loop (token_generator : token_generator_t)
         (tokenize_columns : list string) (output_file : string)
         (fieldnames : list string) (rows : list dict_row) (tm : token_map_t)
  : M token_map_t :=
  match rows with
  | [] => ret tm
  | r :: rows' =>
      res <- run_tokenize_row token_generator tokenize_columns (cells r) tm ;;
      let (row', tm') := res : dict pyval * token_map_t in
      match DictWriter_row fieldnames (mk_dict_row row' (restkey r)) with
      | Ok fields =>
          write_row output_file fields ;;;
          tokenize_loop token_generator tokenize_columns output_file
                        fieldnames rows' tm'
      | Raise e => raise e
      | Diverge => diverge
      end
  end.

(** Lines 115-142. *)
Definition tokenize_body (token_generator : token_generator_t)
           (input_file output_file : string) (tokenize_columns : list string)
           (tm : token_map_t) : M token_map_t :=
  log_and_reraise "Input file not found" "An error occurred during tokenization"
    (open_read input_file ;;;
     open_write output_file ;;;
     lines <- read_rows input_file ;;
     let (header, rest) := split_header lines in
     fieldnames <- writeheader output_file header ;;
     tokenize_loop token_generator tokenize_columns output_file fieldnames
                   (DictReader_rows fieldnames rest) tm).

(** Lines 144-152. *)
Definition write_token_map (token_map_file : string) (tm : token_map_t)
  : M unit :=
  log_and_reraise "Error writing token map to file" "Error writing token map to file"
    (open_write token_map_file ;;;
     write_rows token_map_file (save_token_map tm)).

(** Lines 107-152: what [tokenize_data] does once the mapping is in memory. *)
Definition tokenize_with (tm : token_map_t) (input_file output_file : string)
           (tokenize_columns : list string) (token_method : string)
           (token_map_file : string) : M unit :=
  token_generator <- select_generator token_method ;;
  tm' <- tokenize_body token_generator input_file output_file
                       tokenize_columns tm ;;
  write_token_map token_map_file tm'.

Definition tokenize_data (input_file output_file : string)
           (tokenize_columns : list string) (token_method : string)
           (token_map_file : string) : M unit :=
  found <- path_exists token_map_file ;;
  tm <- (if found : bool
         then log_and_reraise "Error reading existing token map" "Error reading existing token map"
                              (read_token_map token_map_file)
         else ret []) ;;
  tokenize_with tm input_file output_file tokenize_columns token_method
                token_map_file.

(** Lines 183-187. *)
Fixpoint detokenize_loop (tm : token_map_t) (output_file : string)
         (fieldnames : list string) (rows : list dict_row) : M unit :=
  match rows with
  | [] => ret tt
  | r :: rows' =>
      match detokenize_row tm fieldnames (cells r) with
      | Ok row' =>
          match DictWriter_row fieldnames (mk_dict_row row' (restkey r)) with
          | Ok fields =>
              write_row output_file fields ;;;
              detokenize_loop tm output_file fieldnames rows'
          | Raise e => raise e
          | Diverge => diverge
          end
      | Raise e => raise e
      | Diverge => diverge
      end
  end.

(** Lines 175-193: what [detokenize_data] does once the mapping is in
    memory. *)
Definition detokenize_with (tm : token_map_t) (input_file output_file : string)
  : M unit :=
  log_and_reraise "Input file not found" "An error occurred during detokenization"
    (open_read input_file ;;;
     open_write output_file ;;;
     lines <- read_rows input_file ;;
     let (header, rest) := split_header lines in
     fieldnames <- writeheader output_file header ;;
     detokenize_loop tm output_file fieldnames
                     (DictReader_rows fieldnames rest)).

Definition detokenize_data (input_file output_file token_map_file : string)
  : M unit :=
  tm <- log_and_reraise "Token map file not found" "Error reading token map file"
          (read_token_map token_map_file) ;;
  detokenize_with tm input_file output_file.

(* ================================================================== *)
(** * The command line entry point *)

(** The namespace that [parser.parse_args()] returns. *)
Record Namespace : Type := mk_Namespace {
  ns_input_file : string;
  ns_output_file : string;
  ns_tokenize_columns : list string;
  ns_token_method : string;
  ns_token_map_file : string;
  ns_detokenize : bool
}.

(** What [main] leaves behind: the exit status of the process and the
    lines it logged at level INFO. *)
Record main_result : Type := mk_main_result {
  exit_status : nat;
  info_logged : list string
}.

(** The line that [main] logs at level INFO after the operation. *)
Definition success_message (args : Namespace) : string :=
  if ns_detokenize args
  then String.append "Data detokenized successfully. Output saved to '"
         (String.append (ns_output_file args) "'.")
  else String.append "Data tokenized successfully. Output saved to '"
         (String.append (ns_output_file args)
            (String.append "'. Token map saved to '"
               (String.append (ns_token_map_file args) "'."))).

(** Lines 203-220, from the parsed arguments on: the operation, then the
    INFO line and a normal return (exit status 0), or the handler's ERROR
    line and [exit(1)]. *)
Definition main (args : Namespace) (w : world) : outcome main_result * world :=
  let operation :=
      if ns_detokenize args
      then detokenize_data (ns_input_file args) (ns_output_file args)
                           (ns_token_map_file args)
      else tokenize_data (ns_input_file args) (ns_output_file args)
                         (ns_tokenize_columns args) (ns_token_method args)
                         (ns_token_map_file args) in
  match operation w with
  | (Ok _, w') =>
      (Ok (mk_main_result 0 [success_message args]), w')
  | (Raise _, w') =>
      (Ok (mk_main_result 1 []),
       mk_world (files w') (uuid_draws w')
                (trace w' ++ [EvError "An error occurred"]))
  | (Diverge, w') => (Diverge, w')
  end.

(* ================================================================== *)
(** * Vocabulary of the statements *)

Ltac string_cases k k' :=
  let E := fresh "E" in
  destruct (String.eqb k k') eqn:E;
  [apply String.eqb_eq in E; try subst | apply String.eqb_neq in E].

(** A generator is sound for the tokenizer when a token it mints for a value
    without a token is not yet a key. *)
Definition mints_fresh (gen : token_generator_t) : Prop :=
  forall value m draws token draws',
    find_token m value = None ->
    gen value m draws = Some (token, draws') ->
    dict_mem token m = false.

(** The mapping after a step is the mapping before it with entries appended. *)
Definition grows (m m' : token_map_t) : Prop := exists ext, m' = m ++ ext.

(** What one pass leaves in a row, in terms of the final mapping [M]. *)
Definition tokenized_as (columns : list string) (M : token_map_t)
           (row row' : dict pyval) : Prop :=
  keys row' = keys row /\
  (forall c, ~ In c columns -> dict_get row' c = dict_get row c) /\
  (forall c, In c columns ->
     match dict_get row c with
     | Some v => exists t, dict_get row' c = Some (PyStr t) /\
                           find_token M v = Some t
     | None => dict_get row' c = None
     end).

Definition is_str (v : pyval) : Prop :=
  match v with PyStr _ => True | PyNone => False end.

(** A mapping whose values are all strings, as a loaded one is. *)
Definition str_valued (d : dict pyval) : Prop := Forall is_str (values d).

Definition two_fields (row : list string) : bool :=
  match row with [_; _] => true | _ => false end.

(** One lookup of a cell among the mapping's keys. *)
Definition lookup_once (M : token_map_t) (x : pyval) : pyval :=
  match x with
  | PyStr s => match dict_get M s with Some v => v | None => x end
  | PyNone => PyNone
  end.

Definition known_generator (gen : token_generator_t) : Prop :=
  gen = generate_uuid_token \/ gen = generate_sequential_token.

Definition fresh_draws (m : token_map_t) (d : list string) : Prop :=
  NoDup d /\ forall x, In x d -> dict_mem x m = false.

(** The original values that the column loop meets in a row, and that a
    pass meets in the rows, in the order of the loops. *)
Definition visited_row (columns : list string) (row : dict pyval)
  : list pyval :=
  flat_map (fun c => match dict_get row c with
                     | Some v => [v]
                     | None => []
                     end) columns.

Definition visited (columns : list string) (rows : list (dict pyval))
  : list pyval :=
  flat_map (visited_row columns) rows.

(** The distinct values of a sequence in the order of their first
    occurrence, after the values [seen] so far. *)
Definition note_value (seen : list pyval) (v : pyval) : list pyval :=
  if existsb (fun u => pyval_eqb u v) seen then seen else seen ++ [v].

Definition distinct_from (seen vs : list pyval) : list pyval :=
  fold_left note_value vs seen.

(** The keys of a mapping that the counter alone has filled. *)
Definition counted (m : token_map_t) : Prop :=
  keys m = map py_str (seq 1 (length m)).

(** Some occurrence of the value [v] in a configured column of [rows] has
    been replaced by the token [t] in [rows']. *)
Definition cell_token (columns : list string) (rows rows' : list (dict pyval))
           (v : pyval) (t : string) : Prop :=
  exists i r r' c,
    nth_error rows i = Some r /\ nth_error rows' i = Some r' /\
    In c columns /\ dict_get r c = Some v /\ dict_get r' c = Some (PyStr t).

(** The world after some events have been logged. *)
Definition logged (w : world) (evs : list event) : world :=
  mk_world (files w) (uuid_draws w) (trace w ++ evs).

(** The rows of an open output file. *)
Definition content (w : world) (path : string) : csv_file :=
  match dict_get (files w) path with
  | Some rows => rows
  | None => []
  end.

Definition mapping_world : world :=
  mk_world [("map.csv", [["1"; "alice"]; ["2"; "bob"; "extra"]; ["3"; "carol"]])]
           [] [].

Definition chain_world : world :=
  mk_world [("tokens.csv", [["a"; "a"]; ["x"; "1"]]);
            ("map.csv", [["1"; "2"]; ["2"; "secret"]])]
           [] [].

(** The fields that [DictWriter] prints for a record. *)
Definition render (fieldnames : list string) (row : dict pyval)
  : list string :=
  map (fun key => match dict_get row key with
                  | Some v => csv_field v
                  | None => ""
                  end) fieldnames.

(** A row that [DictWriter] accepts: no fields beyond the header's. *)
Definition plain (fieldnames : list string) (r : dict_row) : Prop :=
  restkey r = None /\ forall k, In k (keys (cells r)) -> In k fieldnames.

(** No line of the file is longer than the header. *)
Definition no_long_line (fieldnames : list string) (lines : csv_file) : Prop :=
  Forall (fun line => length line <= length fieldnames) lines.

(** Every line of the file is blank or has one field per name of the
    header. *)
Definition rectangular (fieldnames : list string) (lines : csv_file) : Prop :=
  Forall (fun line => line = [] \/ length line = length fieldnames) lines.

(** Warnings already noted do not influence a loop. *)
Definition add_warnings (ws : list warning) (s : tok_state) : tok_state :=
  mk_tok_state (token_map s) (entropy s) (ws ++ warnings s).

Definition with_warnings {A} (ws : list warning)
           (r : option (A * tok_state)) : option (A * tok_state) :=
  match r with
  | Some (a, s) => Some (a, add_warnings ws s)
  | None => None
  end.

(** The strategy that a method name selects. *)
Definition generator_named (token_method : string) (gen : token_generator_t)
  : Prop :=
  (token_method = "uuid" /\ gen = generate_uuid_token) \/
  (token_method = "sequential" /\ gen = generate_sequential_token).

(** The world that a complete run of [tokenize_data] leaves. *)
Definition tokenized_world (w : world)
           (input_file output_file token_map_file : string)
           (header : list string) (rows' : list (dict pyval))
           (st' : tok_state) : world :=
  mk_world
    (dict_set token_map_file (save_token_map (token_map st'))
       (dict_set output_file (header :: map (render header) rows') (files w)))
    (entropy st')
    (trace w ++ [EvOpenRead input_file; EvOpenWrite output_file]
             ++ map EvWarning (warnings st')
             ++ [EvOpenWrite token_map_file]).

(** The events of the first step of [tokenize_data]. *)
Definition load_events (w : world) (token_map_file : string) : list event :=
  match dict_get (files w) token_map_file with
  | Some rows =>
      EvExists token_map_file true :: EvOpenRead token_map_file
      :: map EvWarning (snd (load_token_map rows []))
  | None => [EvExists token_map_file false]
  end.

Definition people_world : world :=
  mk_world
    [("in.csv", [["id"; "name"; "ssn"];
                 ["1"; "Alice"; "111-22-3333"];
                 ["2"; "Bob"; "444-55-6666"];
                 ["3"; "Alice"; "777-88-9999"]])]
    [] [].

Definition remap_world : world :=
  mk_world
    [("in.csv", [["id"; "ssn"]; ["1"; "111"]; ["2"; "222"]]);
     ("map.csv", [["1"; "111"]; ["7"; "999"]])]
    [] [].

(** The record that the column loop of the detokenizer leaves. *)
Definition detokenized (M : token_map_t) (fieldnames : list string)
           (row : dict pyval) : dict pyval :=
  match detokenize_row M fieldnames row with
  | Ok row' => row'
  | _ => row
  end.

(** No key of the mapping is equal to a field of the input unless it stands
    for that very field. *)
Definition collision_free (M : token_map_t) (lines : csv_file) : Prop :=
  forall line value u,
    In line lines -> In value line ->
    dict_get M value = Some u -> u = PyStr value.

(** Two lists of records that agree on the configured columns. *)
Definition agree_on (columns : list string) (rows rows' : list dict_row)
  : Prop :=
  Forall2 (fun r r' => forall c, In c columns ->
                                 dict_get (cells r') c = dict_get (cells r) c)
          rows rows'.

Definition uuid_world : world :=
  mk_world
    [("in.csv", [["id"; "name"; "ssn"];
                 ["1"; "Alice"; "111-22-3333"];
                 ["2"; "Bob"; "444-55-6666"];
                 ["3"; "Alice"; "111-22-3333"]])]
    ["tok-a"; "tok-b"; "tok-c"; "tok-d"; "tok-e"] [].

(** What a mapping becomes when it is saved and loaded again: [None] comes
    back as the empty string. *)
Definition as_saved (m : token_map_t) : token_map_t :=
  map (fun item => (fst item, PyStr (csv_field (snd item)))) m.

(** The mapping file that holds the entries [m], one row each. *)
Definition token_of_row (row : list string) : string :=
  match row with token :: _ => token | [] => "" end.

(** [w'] has the files of [w] except perhaps those at [paths], and, if
    [keep_draws] is set, the same identifiers to come. *)
Definition frame (paths : list string) (keep_draws : bool) (w w' : world)
  : Prop :=
  (forall p, ~ In p paths -> dict_get (files w') p = dict_get (files w) p) /\
  (keep_draws = true -> uuid_draws w' = uuid_draws w).

(** A computation whose final world is always related to its initial one. *)
Definition respects {A} (R : world -> world -> Prop) (m : M A) : Prop :=
  forall w, R w (snd (m w)).

Definition long_line_world : world :=
  mk_world
    [("in.csv", [["id"; "ssn"]; ["1"; "111"]; ["2"; "222"; "surplus"]]);
     ("map.csv", [["9"; "999"]])]
    [] [].

Definition ragged_world : world :=
  mk_world
    [("in.csv", [["id"; "name"; "ssn"]; ["1"; "Alice"]; [];
                 ["2"; "Bob"; "222"]])]
    [] [].


(** A computation that raises no exception outside [P]. *)
Definition raises_only {A} (P : exn -> Prop) (m : M A) : Prop :=
  forall w e w', m w = (Raise e, w') -> P e.


(* ================================================================== *)
(** * Facts about dictionaries *)

Lemma pyval_eqb_eq (a b : pyval) : pyval_eqb a b = true <-> a = b.
Proof.
  destruct a as [s|], b as [t|]; simpl; split; intro H;
    try discriminate; try reflexivity.
  - apply String.eqb_eq in H. now subst.
  - injection H as ->. apply String.eqb_refl.
Qed.

Lemma pyval_eqb_refl (a : pyval) : pyval_eqb a a = true.
Proof. now apply pyval_eqb_eq. Qed.

Lemma pyval_eqb_neq (a b : pyval) : pyval_eqb a b = false <-> a <> b.
Proof.
  split.
  - intros H E. apply pyval_eqb_eq in E. congruence.
  - intro H. destruct (pyval_eqb a b) eqn:E; [|reflexivity].
    apply pyval_eqb_eq in E. contradiction.
Qed.

Section DictFacts.
Context {V : Type}.
Implicit Types (d : dict V) (k : string) (v : V).

Lemma dict_mem_In k d : dict_mem k d = true <-> In k (keys d).
Proof.
  induction d as [|[k' v'] d IH]; simpl.
  - split; [discriminate | tauto].
  - string_cases k k'.
    + split; auto.
    + rewrite IH. split; [auto | intros [H|H]; congruence].
Qed.

Lemma dict_mem_false k d : dict_mem k d = false <-> ~ In k (keys d).
Proof.
  rewrite <- dict_mem_In. destruct (dict_mem k d); split; congruence.
Qed.

Lemma dict_get_mem k d :
  dict_mem k d = match dict_get d k with Some _ => true | None => false end.
Proof.
  induction d as [|[k' v'] d IH]; simpl; [reflexivity|].
  now string_cases k k'.
Qed.

Lemma dict_get_None k d : dict_get d k = None <-> dict_mem k d = false.
Proof. rewrite dict_get_mem. destruct (dict_get d k); split; congruence. Qed.

Lemma dict_get_In k v d : dict_get d k = Some v -> In (k, v) d.
Proof.
  induction d as [|[k' v'] d IH]; simpl; [discriminate|].
  string_cases k k'.
  - intros [= ->]. now left.
  - intro H. right. auto.
Qed.

Lemma In_dict_get k v d :
  NoDup (keys d) -> In (k, v) d -> dict_get d k = Some v.
Proof.
  induction d as [|[k' v'] d IH]; simpl; [tauto|].
  intros ND [H|H].
  - injection H as -> ->. now rewrite String.eqb_refl.
  - inversion ND as [|? ? Hn ND']; subst.
    string_cases k k'.
    + exfalso. apply Hn. change k' with (fst (k', v)). now apply in_map.
    + auto.
Qed.

Lemma dict_set_fresh k v d :
  dict_mem k d = false -> dict_set k v d = d ++ [(k, v)].
Proof.
  induction d as [|[k' v'] d IH]; simpl; [reflexivity|].
  string_cases k k'; [discriminate|].
  intro H. now rewrite IH.
Qed.

Lemma keys_dict_set_mem k v d :
  dict_mem k d = true -> keys (dict_set k v d) = keys d.
Proof.
  induction d as [|[k' v'] d IH]; simpl; [discriminate|].
  string_cases k k'; simpl; [reflexivity|].
  intro H. now rewrite IH.
Qed.

Lemma keys_dict_set k v d :
  keys (dict_set k v d) = if dict_mem k d then keys d else keys d ++ [k].
Proof.
  destruct (dict_mem k d) eqn:E.
  - now apply keys_dict_set_mem.
  - rewrite dict_set_fresh by assumption. unfold keys. now rewrite map_app.
Qed.

Lemma dict_get_set k k' v d :
  dict_get (dict_set k v d) k' =
  if String.eqb k' k then Some v else dict_get d k'.
Proof.
  induction d as [|[k0 v0] d IH]; simpl.
  - reflexivity.
  - string_cases k k0; simpl.
    + now string_cases k' k0.
    + string_cases k' k0.
      * apply String.eqb_neq in E. rewrite String.eqb_sym in E. now rewrite E.
      * apply IH.
Qed.

Lemma dict_get_set_same k v d : dict_get (dict_set k v d) k = Some v.
Proof. now rewrite dict_get_set, String.eqb_refl. Qed.

Lemma dict_get_set_other k k' v d :
  k' <> k -> dict_get (dict_set k v d) k' = dict_get d k'.
Proof.
  intro H. rewrite dict_get_set. apply String.eqb_neq in H. now rewrite H.
Qed.

Lemma dict_mem_set k k' v d :
  dict_mem k' (dict_set k v d) = (String.eqb k' k || dict_mem k' d)%bool.
Proof.
  rewrite !dict_get_mem, dict_get_set. now destruct (String.eqb k' k).
Qed.

Lemma NoDup_keys_set k v d :
  NoDup (keys d) -> NoDup (keys (dict_set k v d)).
Proof.
  intro ND. rewrite keys_dict_set. destruct (dict_mem k d) eqn:E; [assumption|].
  apply dict_mem_false in E.
  apply NoDup_app; [assumption | repeat constructor; simpl; tauto |].
  intros x Hx [<-|[]]. contradiction.
Qed.

Lemma NoDup_keys_update d kvs :
  NoDup (keys d) -> NoDup (keys (dict_update d kvs)).
Proof.
  revert d. unfold dict_update.
  induction kvs as [|[k v] kvs IH]; simpl; intros d ND; [assumption|].
  apply IH. now apply NoDup_keys_set.
Qed.

Lemma dict_set_same_value k v d :
  dict_get d k = Some v -> dict_set k v d = d.
Proof.
  induction d as [|[k' v'] d IH]; simpl; [discriminate|].
  string_cases k k'.
  - now intros [= ->].
  - intro H. now rewrite IH.
Qed.
End DictFacts.

(* ================================================================== *)
(** * Facts about the generators *)

Lemma py_str_inj (a b : nat) : py_str a = py_str b -> a = b.
Proof.
  unfold py_str. intro H.
  assert (E : Some (Nat.to_uint a) = Some (Nat.to_uint b)).
  { rewrite <- !NilEmpty.usu. now rewrite H. }
  injection E as E.
  rewrite <- (DecimalNat.Unsigned.of_to a), <- (DecimalNat.Unsigned.of_to b).
  now rewrite E.
Qed.

Lemma find_token_In (m : token_map_t) (v : pyval) (t : string) :
  find_token m v = Some t -> In (t, v) m.
Proof.
  induction m as [|[k u] m IH]; simpl; [discriminate|].
  destruct (pyval_eqb u v) eqn:E.
  - apply pyval_eqb_eq in E. subst. intros [= ->]. now left.
  - intro H. right. auto.
Qed.

Lemma find_token_None (m : token_map_t) (v : pyval) :
  find_token m v = None <-> ~ In v (values m).
Proof.
  induction m as [|[k u] m IH]; simpl; [tauto|].
  destruct (pyval_eqb u v) eqn:E.
  - apply pyval_eqb_eq in E. subst. split; [discriminate | tauto].
  - apply pyval_eqb_neq in E. rewrite IH. tauto.
Qed.

Lemma find_token_get (m : token_map_t) (v : pyval) (t : string) :
  NoDup (keys m) -> find_token m v = Some t -> dict_get m t = Some v.
Proof.
  intros ND H. apply In_dict_get; [assumption|]. now apply find_token_In.
Qed.

Lemma find_token_app_l (m ext : token_map_t) (v : pyval) (t : string) :
  find_token m v = Some t -> find_token (m ++ ext) v = Some t.
Proof.
  induction m as [|[k u] m IH]; simpl; [discriminate|].
  destruct (pyval_eqb u v); auto.
Qed.

Lemma find_token_app_new (m : token_map_t) (v : pyval) (t : string) :
  find_token m v = None -> find_token (m ++ [(t, v)]) v = Some t.
Proof.
  induction m as [|[k u] m IH]; simpl.
  - now rewrite pyval_eqb_refl.
  - destruct (pyval_eqb u v); [discriminate | auto].
Qed.

Lemma uuid_redraw_fresh (m : token_map_t) (draws : list string) :
  forall token token' draws',
    uuid_redraw m token draws = Some (token', draws') ->
    dict_mem token' m = false.
Proof.
  induction draws as [|x draws IH]; intros token token' draws'; simpl;
    destruct (dict_mem token m) eqn:E; try discriminate.
  - now intros [= <- <-].
  - apply IH.
  - now intros [= <- <-].
Qed.

(** What the counter loop returns, when it returns. *)
Lemma next_id_loop_spec (m : token_map_t) (fuel : nat) :
  forall next_id n,
    next_id_loop fuel next_id m = Some n ->
    next_id <= n /\ dict_mem (py_str n) m = false /\
    forall j, next_id <= j < n -> dict_mem (py_str j) m = true.
Proof.
  induction fuel as [|fuel IH]; intros next_id n; simpl; [discriminate|].
  destruct (dict_mem (py_str next_id) m) eqn:E.
  - intro H. apply IH in H as (Hle & Hn & Hlt).
    repeat split; [lia | assumption |].
    intros j Hj. destruct (Nat.eq_dec j next_id) as [->|Hne]; [assumption|].
    apply Hlt. lia.
  - intros [= <-]. repeat split; [lia | assumption |]. intros j Hj. lia.
Qed.

(** When the loop runs out of tests, every candidate it tried is a key. *)
Lemma next_id_loop_None (m : token_map_t) (fuel : nat) :
  forall next_id,
    next_id_loop fuel next_id m = None ->
    forall j, In j (seq next_id fuel) -> dict_mem (py_str j) m = true.
Proof.
  induction fuel as [|fuel IH]; intros next_id; simpl; [tauto|].
  destruct (dict_mem (py_str next_id) m) eqn:E; [|discriminate].
  intros H j [<-|Hj]; [assumption|]. now apply (IH (S next_id)).
Qed.

(** One test more than the mapping has keys is enough: the candidates are
    pairwise distinct strings, so they cannot all be keys. *)
Lemma next_id_loop_total (m : token_map_t) (next_id fuel : nat) :
  length m < fuel -> exists n, next_id_loop fuel next_id m = Some n.
Proof.
  intro Hlen.
  destruct (next_id_loop fuel next_id m) as [n|] eqn:E; [now exists n|].
  exfalso.
  pose proof (next_id_loop_None _ _ _ E) as Hall.
  assert (ND : NoDup (map py_str (seq next_id fuel))).
  { apply Injective_map_NoDup; [|apply seq_NoDup].
    intros a b. apply py_str_inj. }
  assert (Hincl : incl (map py_str (seq next_id fuel)) (keys m)).
  { intros s Hs. apply in_map_iff in Hs as (j & <- & Hj).
    apply dict_mem_In. now apply Hall. }
  pose proof (NoDup_incl_length ND Hincl) as Hl.
  unfold keys in Hl. rewrite !length_map, length_seq in Hl. lia.
Qed.

(** More tests than needed do not change the answer. *)
Lemma next_id_loop_more_fuel (m : token_map_t) (fuel : nat) :
  forall next_id n extra,
    next_id_loop fuel next_id m = Some n ->
    next_id_loop (fuel + extra) next_id m = Some n.
Proof.
  induction fuel as [|fuel IH]; intros next_id n extra; simpl; [discriminate|].
  destruct (dict_mem (py_str next_id) m); [apply IH | trivial].
Qed.

Lemma generate_uuid_token_fresh : mints_fresh generate_uuid_token.
Proof.
  intros value m draws token draws' Hnone. unfold generate_uuid_token.
  rewrite Hnone. destruct draws as [|x draws]; [discriminate|].
  apply uuid_redraw_fresh.
Qed.

Lemma generate_sequential_token_fresh : mints_fresh generate_sequential_token.
Proof.
  intros value m draws token draws' Hnone. unfold generate_sequential_token.
  rewrite Hnone.
  destruct (next_id_loop (S (length m)) 1 m) as [n|] eqn:E; [|discriminate].
  intros [= <- <-]. now apply next_id_loop_spec in E.
Qed.

Lemma generate_sequential_token_total (value : pyval) (m : token_map_t)
      (draws : list string) :
  exists token, generate_sequential_token value m draws = Some (token, draws).
Proof.
  unfold generate_sequential_token.
  destruct (find_token m value) as [t|]; [now exists t|].
  destruct (next_id_loop_total m 1 (S (length m))) as [n ->]; [lia|].
  now exists (py_str n).
Qed.

(* ================================================================== *)
(** * The tokenizer's loops, step by step *)

Lemma grows_refl (m : token_map_t) : grows m m.
Proof. exists []. now rewrite app_nil_r. Qed.

Lemma grows_trans (a b c : token_map_t) : grows a b -> grows b c -> grows a c.
Proof. intros [x ->] [y ->]. exists (x ++ y). now rewrite app_assoc. Qed.

Lemma grows_find_token (m m' : token_map_t) (v : pyval) (t : string) :
  grows m m' -> find_token m v = Some t -> find_token m' v = Some t.
Proof. intros [ext ->]. apply find_token_app_l. Qed.

Lemma grows_In (m m' : token_map_t) (e : string * pyval) :
  grows m m' -> In e m -> In e m'.
Proof. intros [ext ->] H. apply in_or_app. now left. Qed.

Lemma grows_get (m m' : token_map_t) (k : string) (v : pyval) :
  grows m m' -> dict_get m k = Some v -> dict_get m' k = Some v.
Proof.
  intros [ext ->]. induction m as [|[k' v'] m IH]; simpl; [discriminate|].
  destruct (String.eqb k k'); auto.
Qed.

Lemma tokenized_as_grows (columns : list string) (M M' : token_map_t)
      (row row' : dict pyval) :
  grows M M' -> tokenized_as columns M row row' ->
  tokenized_as columns M' row row'.
Proof.
  intros G (Hk & Hframe & Htok). repeat split; try assumption.
  intros c Hc. specialize (Htok c Hc).
  destruct (dict_get row c); [|assumption].
  destruct Htok as (t & H1 & H2). exists t. split; [assumption|].
  now apply (grows_find_token M).
Qed.

Section Tokenizer.
Variable gen : token_generator_t.
Hypothesis gen_fresh : mints_fresh gen.

Lemma tokenize_value_inv v m d t m' d' :
  tokenize_value gen v m d = Some (t, m', d') ->
  (find_token m v = Some t /\ m' = m /\ d' = d) \/
  (find_token m v = None /\ dict_mem t m = false /\ m' = m ++ [(t, v)] /\
   gen v m d = Some (t, d')).
Proof.
  unfold tokenize_value.
  destruct (find_token m v) as [t0|] eqn:F.
  - intros [= <- <- <-]. now left.
  - destruct (gen v m d) as [[t1 d1]|] eqn:G; [|discriminate].
    intros [= <- <- <-]. right.
    pose proof (gen_fresh _ _ _ _ _ F G) as Hfresh.
    repeat split; try assumption. now apply dict_set_fresh.
Qed.

Lemma tokenize_value_grows v m d t m' d' :
  tokenize_value gen v m d = Some (t, m', d') -> grows m m'.
Proof.
  intro H. apply tokenize_value_inv in H as [(_ & -> & _)|(_ & _ & -> & _)].
  - apply grows_refl.
  - now exists [(t, v)].
Qed.

Lemma tokenize_value_find v m d t m' d' :
  tokenize_value gen v m d = Some (t, m', d') -> find_token m' v = Some t.
Proof.
  intro H. apply tokenize_value_inv in H as [(F & -> & _)|(F & _ & -> & _)].
  - assumption.
  - now apply find_token_app_new.
Qed.

Lemma tokenize_value_NoDup_keys v m d t m' d' :
  tokenize_value gen v m d = Some (t, m', d') ->
  NoDup (keys m) -> NoDup (keys m').
Proof.
  intros H ND.
  apply tokenize_value_inv in H as [(_ & -> & _)|(_ & Hf & -> & _)];
    [assumption|].
  rewrite <- (dict_set_fresh t v m Hf). now apply NoDup_keys_set.
Qed.

Lemma tokenize_value_NoDup_values v m d t m' d' :
  tokenize_value gen v m d = Some (t, m', d') ->
  NoDup (values m) -> NoDup (values m').
Proof.
  intros H ND.
  apply tokenize_value_inv in H as [(_ & -> & _)|(F & _ & -> & _)];
    [assumption|].
  apply find_token_None in F. unfold values in *. rewrite map_app. simpl.
  apply NoDup_app; [assumption | repeat constructor; simpl; tauto |].
  intros x Hx [<-|[]]. contradiction.
Qed.

Lemma tokenize_column_inv c row st row' st' :
  tokenize_column gen c row st = Some (row', st') ->
  (dict_get row c = None /\ row' = row /\ token_map st' = token_map st /\
   entropy st' = entropy st /\
   warnings st' = warnings st ++ [ColumnNotFound c]) \/
  (exists v t,
      dict_get row c = Some v /\
      tokenize_value gen v (token_map st) (entropy st)
        = Some (t, token_map st', entropy st') /\
      row' = dict_set c (PyStr t) row /\ warnings st' = warnings st).
Proof.
  unfold tokenize_column. destruct (dict_get row c) as [v|] eqn:G.
  - destruct (tokenize_value gen v (token_map st) (entropy st))
      as [[[t m1] d1]|] eqn:T; [|discriminate].
    intros [= <- <-]. right. exists v, t. simpl. auto.
  - intros [= <- <-]. left. simpl. auto.
Qed.

Lemma tokenize_column_grows c row st row' st' :
  tokenize_column gen c row st = Some (row', st') ->
  grows (token_map st) (token_map st').
Proof.
  intro H. apply tokenize_column_inv in H
    as [(_ & _ & -> & _)|(v & t & _ & T & _)].
  - apply grows_refl.
  - eapply tokenize_value_grows; eassumption.
Qed.

Lemma tokenize_column_keys c row st row' st' :
  tokenize_column gen c row st = Some (row', st') -> keys row' = keys row.
Proof.
  intro H. apply tokenize_column_inv in H
    as [(_ & -> & _)|(v & t & G & _ & -> & _)]; [reflexivity|].
  apply keys_dict_set_mem. rewrite dict_get_mem. now rewrite G.
Qed.

Lemma tokenize_column_frame c row st row' st' c' :
  tokenize_column gen c row st = Some (row', st') ->
  c' <> c -> dict_get row' c' = dict_get row c'.
Proof.
  intros H Hne. apply tokenize_column_inv in H
    as [(_ & -> & _)|(v & t & _ & _ & -> & _)]; [reflexivity|].
  now apply dict_get_set_other.
Qed.

Lemma tokenize_row_grows cols : forall row st row' st',
  tokenize_row gen cols row st = Some (row', st') ->
  grows (token_map st) (token_map st').
Proof.
  induction cols as [|c cols IH]; simpl; intros row st row' st'.
  - intros [= <- <-]. apply grows_refl.
  - destruct (tokenize_column gen c row st) as [[r1 s1]|] eqn:C;
      [|discriminate].
    intro H. eapply grows_trans.
    + eapply tokenize_column_grows; eassumption.
    + eapply IH; eassumption.
Qed.

Lemma tokenize_row_keys cols : forall row st row' st',
  tokenize_row gen cols row st = Some (row', st') -> keys row' = keys row.
Proof.
  induction cols as [|c cols IH]; simpl; intros row st row' st'.
  - now intros [= <- <-].
  - destruct (tokenize_column gen c row st) as [[r1 s1]|] eqn:C;
      [|discriminate].
    intro H. rewrite (IH _ _ _ _ H).
    eapply tokenize_column_keys; eassumption.
Qed.

Lemma tokenize_row_frame cols : forall row st row' st' c',
  tokenize_row gen cols row st = Some (row', st') ->
  ~ In c' cols -> dict_get row' c' = dict_get row c'.
Proof.
  induction cols as [|c cols IH]; simpl; intros row st row' st' c'.
  - now intros [= <- <-].
  - destruct (tokenize_column gen c row st) as [[r1 s1]|] eqn:C;
      [|discriminate].
    intros H Hn. rewrite (IH _ _ _ _ _ H) by tauto.
    eapply tokenize_column_frame; [eassumption|]. intros ->. tauto.
Qed.

Lemma tokenize_row_NoDup_keys cols : forall row st row' st',
  tokenize_row gen cols row st = Some (row', st') ->
  NoDup (keys (token_map st)) -> NoDup (keys (token_map st')).
Proof.
  induction cols as [|c cols IH]; simpl; intros row st row' st'.
  - now intros [= <- <-].
  - destruct (tokenize_column gen c row st) as [[r1 s1]|] eqn:C;
      [|discriminate].
    intros H ND. apply (IH _ _ _ _ H).
    apply tokenize_column_inv in C
      as [(_ & _ & -> & _)|(v & t & _ & T & _)]; [assumption|].
    eapply tokenize_value_NoDup_keys; eassumption.
Qed.

Lemma tokenize_row_NoDup_values cols : forall row st row' st',
  tokenize_row gen cols row st = Some (row', st') ->
  NoDup (values (token_map st)) -> NoDup (values (token_map st')).
Proof.
  induction cols as [|c cols IH]; simpl; intros row st row' st'.
  - now intros [= <- <-].
  - destruct (tokenize_column gen c row st) as [[r1 s1]|] eqn:C;
      [|discriminate].
    intros H ND. apply (IH _ _ _ _ H).
    apply tokenize_column_inv in C
      as [(_ & _ & -> & _)|(v & t & _ & T & _)]; [assumption|].
    eapply tokenize_value_NoDup_values; eassumption.
Qed.

(** The cells of the configured columns, for columns listed once. *)
Lemma tokenize_row_cells cols : forall row st row' st',
  NoDup cols ->
  tokenize_row gen cols row st = Some (row', st') ->
  forall c, In c cols ->
    match dict_get row c with
    | Some v => exists t, dict_get row' c = Some (PyStr t) /\
                          find_token (token_map st') v = Some t
    | None => dict_get row' c = None
    end.
Proof.
  induction cols as [|c0 cols IH]; simpl; intros row st row' st' ND H c Hc;
    [contradiction|].
  destruct (tokenize_column gen c0 row st) as [[r1 s1]|] eqn:C;
    [|discriminate].
  inversion ND as [|? ? Hnin ND']; subst.
  destruct Hc as [->|Hc].
  - (* the column handled by this step; later steps do not touch it *)
    rewrite (tokenize_row_frame _ _ _ _ _ _ H Hnin).
    pose proof (tokenize_row_grows _ _ _ _ _ H) as G.
    apply tokenize_column_inv in C
      as [(Hg & -> & _)|(v & t & Hg & T & -> & _)].
    + now rewrite Hg.
    + rewrite Hg. exists t. split; [apply dict_get_set_same|].
      apply (grows_find_token (token_map s1)); [assumption|].
      eapply tokenize_value_find; eassumption.
  - assert (Hne : c <> c0) by (intros ->; contradiction).
    rewrite <- (tokenize_column_frame _ _ _ _ _ _ C Hne).
    now apply (IH r1 s1 row' st').
Qed.

Lemma tokenize_row_tokenized_as cols row st row' st' :
  NoDup cols ->
  tokenize_row gen cols row st = Some (row', st') ->
  tokenized_as cols (token_map st') row row'.
Proof.
  intros ND H. repeat split.
  - eapply tokenize_row_keys; eassumption.
  - intros c Hc. eapply tokenize_row_frame; eassumption.
  - now apply (tokenize_row_cells cols row st).
Qed.

Lemma tokenize_rows_grows cols rows : forall st rows' st',
  tokenize_rows gen cols rows st = Some (rows', st') ->
  grows (token_map st) (token_map st').
Proof.
  induction rows as [|r rows IH]; simpl; intros st rows' st'.
  - intros [= <- <-]. apply grows_refl.
  - destruct (tokenize_row gen cols r st) as [[r1 s1]|] eqn:R;
      [|discriminate].
    destruct (tokenize_rows gen cols rows s1) as [[out s2]|] eqn:Rs;
      [|discriminate].
    intros [= <- <-]. eapply grows_trans.
    + eapply tokenize_row_grows; eassumption.
    + eapply IH; eassumption.
Qed.

Lemma tokenize_rows_NoDup_keys cols rows : forall st rows' st',
  tokenize_rows gen cols rows st = Some (rows', st') ->
  NoDup (keys (token_map st)) -> NoDup (keys (token_map st')).
Proof.
  induction rows as [|r rows IH]; simpl; intros st rows' st'.
  - now intros [= <- <-].
  - destruct (tokenize_row gen cols r st) as [[r1 s1]|] eqn:R;
      [|discriminate].
    destruct (tokenize_rows gen cols rows s1) as [[out s2]|] eqn:Rs;
      [|discriminate].
    intros [= <- <-] ND. apply (IH _ _ _ Rs).
    eapply tokenize_row_NoDup_keys; eassumption.
Qed.

Lemma tokenize_rows_NoDup_values cols rows : forall st rows' st',
  tokenize_rows gen cols rows st = Some (rows', st') ->
  NoDup (values (token_map st)) -> NoDup (values (token_map st')).
Proof.
  induction rows as [|r rows IH]; simpl; intros st rows' st'.
  - now intros [= <- <-].
  - destruct (tokenize_row gen cols r st) as [[r1 s1]|] eqn:R;
      [|discriminate].
    destruct (tokenize_rows gen cols rows s1) as [[out s2]|] eqn:Rs;
      [|discriminate].
    intros [= <- <-] ND. apply (IH _ _ _ Rs).
    eapply tokenize_row_NoDup_values; eassumption.
Qed.

Lemma tokenize_rows_tokenized_as cols rows : forall st rows' st',
  NoDup cols ->
  tokenize_rows gen cols rows st = Some (rows', st') ->
  Forall2 (tokenized_as cols (token_map st')) rows rows'.
Proof.
  induction rows as [|r rows IH]; simpl; intros st rows' st' ND.
  - intros [= <- <-]. constructor.
  - destruct (tokenize_row gen cols r st) as [[r1 s1]|] eqn:R;
      [|discriminate].
    destruct (tokenize_rows gen cols rows s1) as [[out s2]|] eqn:Rs;
      [|discriminate].
    intros [= <- <-]. constructor.
    + apply (tokenized_as_grows cols (token_map s1)).
      * eapply tokenize_rows_grows; eassumption.
      * eapply tokenize_row_tokenized_as; eassumption.
    + eapply IH; eassumption.
Qed.
End Tokenizer.

(* ================================================================== *)
(** * Loading and saving the mapping *)

Lemma load_token_map_app (rows1 rows2 : csv_file) (acc : token_map_t) :
  load_token_map (rows1 ++ rows2) acc =
  let (m1, w1) := load_token_map rows1 acc in
  let (m2, w2) := load_token_map rows2 m1 in
  (m2, w1 ++ w2).
Proof.
  revert acc. induction rows1 as [|r rows1 IH]; intro acc; simpl.
  - now destruct (load_token_map rows2 acc).
  - destruct r as [|a [|b [|c r]]]; try apply IH;
      rewrite IH; destruct (load_token_map rows1 acc) as [m1 w1];
      now destruct (load_token_map rows2 m1).
Qed.

Lemma load_token_map_NoDup (rows : csv_file) : forall acc,
  NoDup (keys acc) -> NoDup (keys (fst (load_token_map rows acc))).
Proof.
  induction rows as [|r rows IH]; intros acc ND; simpl; [assumption|].
  destruct r as [|a [|b [|c r]]];
    try (specialize (IH acc ND); destruct (load_token_map rows acc);
         exact IH).
  apply IH. now apply NoDup_keys_set.
Qed.

Lemma str_valued_set (k : string) (s : string) (d : dict pyval) :
  str_valued d -> str_valued (dict_set k (PyStr s) d).
Proof.
  unfold str_valued, values. induction d as [|[k' v'] d IH]; simpl; intro H.
  - repeat constructor.
  - inversion H; subst. destruct (String.eqb k k'); simpl;
      constructor; simpl; auto.
Qed.

Lemma load_token_map_str_valued (rows : csv_file) : forall acc,
  str_valued acc -> str_valued (fst (load_token_map rows acc)).
Proof.
  induction rows as [|r rows IH]; intros acc Hs; simpl; [assumption|].
  destruct r as [|a [|b [|c r]]];
    try (specialize (IH acc Hs); destruct (load_token_map rows acc);
         exact IH).
  apply IH. now apply str_valued_set.
Qed.

(** Saving a mapping and loading the file gives the mapping back. *)
Lemma load_save_app (m : token_map_t) : forall acc,
  NoDup (keys (acc ++ m)) -> str_valued m ->
  load_token_map (save_token_map m) acc = (acc ++ m, []).
Proof.
  induction m as [|[k v] m IH]; intros acc ND Hs; simpl.
  - now rewrite app_nil_r.
  - inversion Hs as [|? ? Hv Hs']; subst. destruct v as [s|]; [|contradiction].
    simpl. replace (acc ++ (k, PyStr s) :: m) with ((acc ++ [(k, PyStr s)]) ++ m)
      in * by (now rewrite <- app_assoc).
    rewrite dict_set_fresh.
    + apply IH; assumption.
    + apply dict_mem_false. unfold keys in ND. rewrite !map_app in ND.
      apply NoDup_app_remove_r in ND. simpl in ND.
      apply NoDup_remove_2 in ND. now rewrite app_nil_r in ND.
Qed.

Lemma load_save (m : token_map_t) :
  NoDup (keys m) -> str_valued m ->
  load_token_map (save_token_map m) [] = (m, []).
Proof. intros ND Hs. now apply (load_save_app m []). Qed.

Section TokenizerStrings.
Variable gen : token_generator_t.
Hypothesis gen_fresh : mints_fresh gen.

Lemma tokenize_row_str_valued cols : forall row st row' st',
  tokenize_row gen cols row st = Some (row', st') ->
  str_valued row -> str_valued (token_map st) ->
  str_valued row' /\ str_valued (token_map st').
Proof.
  induction cols as [|c cols IH]; simpl; intros row st row' st'.
  - intros [= <- <-]. auto.
  - destruct (tokenize_column gen c row st) as [[r1 s1]|] eqn:C;
      [|discriminate].
    intros H Hr Hm. apply (IH _ _ _ _ H).
    + apply tokenize_column_inv in C
        as [(_ & -> & _)|(v & t & _ & _ & -> & _)]; [assumption|].
      now apply str_valued_set.
    + apply tokenize_column_inv in C
        as [(_ & _ & -> & _)|(v & t & G & T & _ & _)]; [assumption|].
      apply (tokenize_value_inv gen gen_fresh) in T
        as [(_ & -> & _)|(_ & _ & -> & _)]; [assumption|].
      unfold str_valued, values in *. rewrite map_app. apply Forall_app.
      split; [assumption|]. repeat constructor. simpl.
      apply dict_get_In in G. rewrite Forall_forall in Hr.
      apply Hr. change v with (snd (c, v)). now apply in_map.
Qed.

Lemma tokenize_rows_str_valued cols rows : forall st rows' st',
  tokenize_rows gen cols rows st = Some (rows', st') ->
  Forall str_valued rows -> str_valued (token_map st) ->
  Forall str_valued rows' /\ str_valued (token_map st').
Proof.
  induction rows as [|r rows IH]; simpl; intros st rows' st'.
  - intros [= <- <-]. auto.
  - destruct (tokenize_row gen cols r st) as [[r1 s1]|] eqn:R;
      [|discriminate].
    destruct (tokenize_rows gen cols rows s1) as [[out s2]|] eqn:Rs;
      [|discriminate].
    intros [= <- <-] Hr Hm. inversion Hr; subst.
    destruct (tokenize_row_str_valued _ _ _ _ _ R) as [? ?]; try assumption.
    destruct (IH _ _ _ Rs) as [? ?]; try assumption.
    split; [constructor|]; assumption.
Qed.
End TokenizerStrings.

(* ================================================================== *)
(** * The detokenizer's loops, step by step *)

Lemma detokenize_column_spec (M : token_map_t) (c : string) (row : dict pyval)
      (x : pyval) :
  dict_get row c = Some x ->
  detokenize_column M c row = Ok (dict_set c (lookup_once M x) row).
Proof.
  intro G. unfold detokenize_column. rewrite G.
  destruct x as [s|]; simpl.
  - destruct (dict_get M s); [reflexivity|].
    now rewrite dict_set_same_value.
  - now rewrite dict_set_same_value.
Qed.

(** A cell is looked up once for each occurrence of its column's name in
    [fieldnames]. *)
Lemma detokenize_row_spec (M : token_map_t) (fieldnames : list string) :
  forall row,
    (forall c, In c fieldnames -> dict_mem c row = true) ->
    exists row',
      detokenize_row M fieldnames row = Ok row' /\
      keys row' = keys row /\
      forall c, dict_get row' c =
                option_map (Nat.iter (count_occ string_dec fieldnames c)
                                     (lookup_once M))
                           (dict_get row c).
Proof.
  induction fieldnames as [|c0 fns IH]; intros row Hall; simpl.
  - exists row. repeat split. intro c. now destruct (dict_get row c).
  - assert (Hm : dict_mem c0 row = true) by (apply Hall; now left).
    destruct (dict_get row c0) as [x|] eqn:G;
      [|apply dict_get_None in G; congruence].
    rewrite (detokenize_column_spec M c0 row x G).
    set (row1 := dict_set c0 (lookup_once M x) row).
    assert (Hk : keys row1 = keys row) by now apply keys_dict_set_mem.
    destruct (IH row1) as (row' & Hrun & Hkeys & Hcells).
    { intros c Hc. apply dict_mem_In. rewrite Hk. apply dict_mem_In.
      apply Hall. now right. }
    exists row'. split; [assumption|]. split; [congruence|].
    intro c. rewrite Hcells. unfold row1. rewrite dict_get_set.
    destruct (string_dec c0 c) as [->|Hne].
    + rewrite String.eqb_refl, G. cbn [option_map]. f_equal.
      symmetry. apply Nat.iter_succ_r.
    + destruct (String.eqb c c0) eqn:E; [|reflexivity].
      apply String.eqb_eq in E. congruence.
Qed.

(* ================================================================== *)
(** * The two strategies *)

Lemma known_generator_fresh (gen : token_generator_t) :
  known_generator gen -> mints_fresh gen.
Proof.
  intros [->| ->];
    [apply generate_uuid_token_fresh | apply generate_sequential_token_fresh].
Qed.

(** A predicate on mappings that every assignment keeps is kept by a pass. *)
Section Invariant.
Variable gen : token_generator_t.
Variable P : token_map_t -> Prop.
Hypothesis P_step : forall v m d t m' d',
  P m -> tokenize_value gen v m d = Some (t, m', d') -> P m'.

Lemma tokenize_row_invariant cols : forall row st row' st',
  tokenize_row gen cols row st = Some (row', st') ->
  P (token_map st) -> P (token_map st').
Proof.
  induction cols as [|c cols IH]; simpl; intros row st row' st'.
  - now intros [= <- <-].
  - destruct (tokenize_column gen c row st) as [[r1 s1]|] eqn:C;
      [|discriminate].
    intros H HP. apply (IH _ _ _ _ H).
    apply tokenize_column_inv in C
      as [(_ & _ & -> & _)|(v & t & _ & T & _)]; [assumption|].
    eapply P_step; eassumption.
Qed.

Lemma tokenize_rows_invariant cols rows : forall st rows' st',
  tokenize_rows gen cols rows st = Some (rows', st') ->
  P (token_map st) -> P (token_map st').
Proof.
  induction rows as [|r rows IH]; simpl; intros st rows' st'.
  - now intros [= <- <-].
  - destruct (tokenize_row gen cols r st) as [[r1 s1]|] eqn:R;
      [|discriminate].
    destruct (tokenize_rows gen cols rows s1) as [[out s2]|] eqn:Rs;
      [|discriminate].
    intros [= <- <-] HP. apply (IH _ _ _ Rs).
    eapply tokenize_row_invariant; eassumption.
Qed.
End Invariant.

(** ** The sequential strategy always answers *)

Lemma tokenize_value_sequential_total (v : pyval) (m : token_map_t)
      (d : list string) :
  exists t m', tokenize_value generate_sequential_token v m d = Some (t, m', d).
Proof.
  unfold tokenize_value. destruct (find_token m v) as [t|] eqn:F.
  - now exists t, m.
  - destruct (generate_sequential_token_total v m d) as [t ->].
    now exists t, (dict_set t v m).
Qed.

Lemma tokenize_row_sequential_total (cols : list string) :
  forall row st, exists row' st',
    tokenize_row generate_sequential_token cols row st = Some (row', st') /\
    entropy st' = entropy st.
Proof.
  induction cols as [|c cols IH]; intros row st; simpl.
  - now exists row, st.
  - unfold tokenize_column. destruct (dict_get row c) as [v|].
    + destruct (tokenize_value_sequential_total v (token_map st) (entropy st))
        as (t & m' & ->).
      destruct (IH (dict_set c (PyStr t) row)
                   (mk_tok_state m' (entropy st) (warnings st)))
        as (row' & st' & -> & He).
      now exists row', st'.
    + destruct (IH row (mk_tok_state (token_map st) (entropy st)
                                     (warnings st ++ [ColumnNotFound c])))
        as (row' & st' & -> & He).
      now exists row', st'.
Qed.

Lemma tokenize_rows_sequential_total (cols : list string)
      (rows : list (dict pyval)) :
  forall st, exists rows' st',
    tokenize_rows generate_sequential_token cols rows st = Some (rows', st') /\
    entropy st' = entropy st.
Proof.
  induction rows as [|r rows IH]; intro st; simpl.
  - now exists [], st.
  - destruct (tokenize_row_sequential_total cols r st) as (r' & s1 & -> & E1).
    destruct (IH s1) as (rows' & s2 & -> & E2).
    exists (r' :: rows'), s2. split; [reflexivity | congruence].
Qed.

(** ** The random strategy answers when the identifiers to come are new *)

Lemma tokenize_value_uuid_total (v : pyval) (m : token_map_t)
      (d : list string) :
  fresh_draws m d -> 1 <= length d ->
  exists t m' d',
    tokenize_value generate_uuid_token v m d = Some (t, m', d') /\
    fresh_draws m' d' /\ length d <= S (length d').
Proof.
  intros [ND Hf] Hlen. unfold tokenize_value.
  destruct (find_token m v) as [t|] eqn:F.
  - exists t, m, d. repeat split; auto.
  - unfold generate_uuid_token. rewrite F.
    destruct d as [|x d]; [simpl in Hlen; lia|].
    assert (Hx : dict_mem x m = false) by (apply Hf; now left).
    destruct d as [|y d]; simpl; rewrite Hx.
    + exists x, (dict_set x v m), []. repeat split; auto.
      * constructor.
      * intros ? [].
    + exists x, (dict_set x v m), (y :: d). inversion ND; subst.
      repeat split; auto.
      intros z Hz. rewrite dict_mem_set.
      rewrite (Hf z) by now right.
      destruct (String.eqb z x) eqn:E; [|reflexivity].
      apply String.eqb_eq in E. subst. contradiction.
Qed.

Lemma tokenize_row_uuid_total (cols : list string) :
  forall row st,
    fresh_draws (token_map st) (entropy st) ->
    length cols <= length (entropy st) ->
    exists row' st',
      tokenize_row generate_uuid_token cols row st = Some (row', st') /\
      fresh_draws (token_map st') (entropy st') /\
      length (entropy st) <= length cols + length (entropy st').
Proof.
  induction cols as [|c cols IH]; intros row st Hf Hlen; simpl in *.
  - exists row, st. auto.
  - unfold tokenize_column. destruct (dict_get row c) as [v|].
    + destruct (tokenize_value_uuid_total v (token_map st) (entropy st))
        as (t & m' & d' & -> & Hf' & Hl'); [assumption | lia |].
      destruct (IH (dict_set c (PyStr t) row)
                   (mk_tok_state m' d' (warnings st)))
        as (row' & st' & -> & Hf'' & Hl''); simpl; [assumption | lia |].
      exists row', st'. simpl in *. repeat split; try apply Hf''. lia.
    + destruct (IH row (mk_tok_state (token_map st) (entropy st)
                                     (warnings st ++ [ColumnNotFound c])))
        as (row' & st' & -> & Hf'' & Hl''); simpl; [assumption | lia |].
      exists row', st'. simpl in *. repeat split; try apply Hf''. lia.
Qed.

Lemma tokenize_rows_uuid_total (cols : list string)
      (rows : list (dict pyval)) :
  forall st,
    fresh_draws (token_map st) (entropy st) ->
    length rows * length cols <= length (entropy st) ->
    exists rows' st',
      tokenize_rows generate_uuid_token cols rows st = Some (rows', st').
Proof.
  induction rows as [|r rows IH]; intros st Hf Hlen; simpl in *.
  - now exists [], st.
  - destruct (tokenize_row_uuid_total cols r st)
      as (r' & s1 & -> & Hf1 & Hl1); [assumption | lia |].
    destruct (IH s1) as (rows' & s2 & ->); [assumption | lia |].
    now exists (r' :: rows'), s2.
Qed.

(* ================================================================== *)
(** * The order in which values receive tokens *)

Lemma existsb_find_token (m : token_map_t) (v : pyval) :
  existsb (fun u => pyval_eqb u v) (values m) =
  match find_token m v with Some _ => true | None => false end.
Proof.
  induction m as [|[k u] m IH]; simpl; [reflexivity|].
  now destruct (pyval_eqb u v).
Qed.

Lemma distinct_from_app (seen vs ws : list pyval) :
  distinct_from seen (vs ++ ws) = distinct_from (distinct_from seen vs) ws.
Proof. unfold distinct_from. apply fold_left_app. Qed.

Lemma visited_row_frame (cols : list string) (row row' : dict pyval) :
  (forall c, In c cols -> dict_get row' c = dict_get row c) ->
  visited_row cols row' = visited_row cols row.
Proof.
  induction cols as [|c cols IH]; intro H; simpl; [reflexivity|].
  rewrite H by now left. f_equal. apply IH. intros c' Hc'. apply H. now right.
Qed.

Section Order.
Variable gen : token_generator_t.
Hypothesis gen_fresh : mints_fresh gen.

Lemma tokenize_value_values v m d t m' d' :
  tokenize_value gen v m d = Some (t, m', d') ->
  values m' = note_value (values m) v.
Proof.
  intro H. unfold note_value. rewrite existsb_find_token.
  apply (tokenize_value_inv gen gen_fresh) in H
    as [(F & -> & _)|(F & _ & -> & _)]; rewrite F; [reflexivity|].
  unfold values. now rewrite map_app.
Qed.

Lemma tokenize_row_values cols : forall row st row' st',
  NoDup cols ->
  tokenize_row gen cols row st = Some (row', st') ->
  values (token_map st') =
  distinct_from (values (token_map st)) (visited_row cols row).
Proof.
  induction cols as [|c cols IH]; simpl; intros row st row' st' ND.
  - now intros [= <- <-].
  - destruct (tokenize_column gen c row st) as [[r1 s1]|] eqn:C;
      [|discriminate].
    inversion ND as [|? ? Hnin ND']; subst. intro H.
    rewrite (IH _ _ _ _ ND' H).
    assert (Hv : visited_row cols r1 = visited_row cols row).
    { apply visited_row_frame. intros c' Hc'.
      eapply tokenize_column_frame; [eassumption|].
      intros ->. contradiction. }
    rewrite Hv.
    apply tokenize_column_inv in C
      as [(G & _ & -> & _)|(v & t & G & T & _ & _)]; rewrite G.
    + reflexivity.
    + rewrite (tokenize_value_values _ _ _ _ _ _ T). reflexivity.
Qed.

Lemma tokenize_rows_values cols rows : forall st rows' st',
  NoDup cols ->
  tokenize_rows gen cols rows st = Some (rows', st') ->
  values (token_map st') =
  distinct_from (values (token_map st)) (visited cols rows).
Proof.
  induction rows as [|r rows IH]; simpl; intros st rows' st' ND.
  - now intros [= <- <-].
  - destruct (tokenize_row gen cols r st) as [[r1 s1]|] eqn:R;
      [|discriminate].
    destruct (tokenize_rows gen cols rows s1) as [[out s2]|] eqn:Rs;
      [|discriminate].
    intros [= <- <-]. unfold visited in *. simpl.
    rewrite distinct_from_app.
    rewrite <- (tokenize_row_values _ _ _ _ _ ND R).
    now apply (IH s1 out).
Qed.
End Order.

Lemma counted_mem (m : token_map_t) (j : nat) :
  counted m -> dict_mem (py_str j) m = true <-> 1 <= j <= length m.
Proof.
  intro Hc. rewrite dict_mem_In, Hc, in_map_iff. split.
  - intros (i & E & Hi). apply py_str_inj in E. subst.
    apply in_seq in Hi. lia.
  - intro Hj. exists j. split; [reflexivity|]. apply in_seq. lia.
Qed.

Lemma counted_next_id (m : token_map_t) :
  counted m -> next_id_loop (S (length m)) 1 m = Some (S (length m)).
Proof.
  intro Hc.
  destruct (next_id_loop_total m 1 (S (length m))) as [n E]; [lia|].
  rewrite E. f_equal.
  apply next_id_loop_spec in E as (Hle & Hn & Hlt).
  assert (Hub : ~ (1 <= n <= length m)).
  { intro H. apply (counted_mem m n Hc) in H. congruence. }
  destruct (Nat.eq_dec n (S (length m))) as [->|Hne]; [reflexivity|].
  assert (Hm : dict_mem (py_str (S (length m))) m = true) by (apply Hlt; lia).
  apply (counted_mem m _ Hc) in Hm. lia.
Qed.

Lemma counted_step (v : pyval) (m : token_map_t) (d : list string)
      (t : string) (m' : token_map_t) (d' : list string) :
  counted m ->
  tokenize_value generate_sequential_token v m d = Some (t, m', d') ->
  counted m'.
Proof.
  intros Hc H.
  apply (tokenize_value_inv _ generate_sequential_token_fresh) in H
    as [(_ & -> & _)|(F & _ & -> & G)]; [assumption|].
  unfold generate_sequential_token in G. rewrite F in G.
  rewrite (counted_next_id m Hc) in G. injection G as <- <-.
  unfold counted, keys in *. rewrite map_app, length_app. simpl.
  rewrite Nat.add_1_r, seq_S, map_app, Hc. reflexivity.
Qed.

Lemma find_token_nth (m : token_map_t) : forall n t v,
  NoDup (values m) -> nth_error m n = Some (t, v) -> find_token m v = Some t.
Proof.
  induction m as [|[k u] m IH]; intros n t v ND H.
  - now destruct n.
  - simpl in ND. inversion ND as [|? ? Hnin ND']; subst.
    destruct n as [|n]; simpl in *.
    + injection H as -> ->. now rewrite pyval_eqb_refl.
    + destruct (pyval_eqb u v) eqn:E.
      * apply pyval_eqb_eq in E. subst. exfalso. apply Hnin.
        apply nth_error_In in H. change v with (snd (t, v)).
        now apply in_map.
      * eapply IH; eassumption.
Qed.

Lemma counted_nth (m : token_map_t) (n : nat) (v : pyval) :
  counted m -> nth_error (values m) n = Some v ->
  nth_error m n = Some (py_str (S n), v).
Proof.
  intros Hc H. unfold values in H.
  rewrite nth_error_map in H.
  destruct (nth_error m n) as [[t u]|] eqn:E; [|discriminate].
  simpl in H. injection H as ->.
  assert (Hk : nth_error (keys m) n = Some t).
  { unfold keys. rewrite nth_error_map, E. reflexivity. }
  rewrite Hc, nth_error_map in Hk.
  assert (Hn : n < length m) by (apply nth_error_Some; congruence).
  rewrite nth_error_seq in Hk.
  destruct (Nat.ltb n (length m)) eqn:L;
    [|apply Nat.ltb_ge in L; lia].
  simpl in Hk. injection Hk as <-. reflexivity.
Qed.

Lemma distinct_from_NoDup (vs : list pyval) : forall seen,
  NoDup seen -> NoDup (distinct_from seen vs).
Proof.
  induction vs as [|v vs IH]; intros seen ND; simpl; [assumption|].
  apply IH. unfold note_value.
  destruct (existsb (fun u => pyval_eqb u v) seen) eqn:E; [assumption|].
  apply NoDup_app; [assumption | repeat constructor; simpl; tauto |].
  intros x Hx [<-|[]].
  assert (existsb (fun u => pyval_eqb u v) seen = true); [|congruence].
  apply existsb_exists. exists v. split; [assumption | apply pyval_eqb_refl].
Qed.

(* ================================================================== *)
(** * Properties of the tokenizer *)

Lemma cell_token_find (columns : list string) (M : token_map_t)
      (rows rows' : list (dict pyval)) (v : pyval) (t : string) :
  Forall2 (tokenized_as columns M) rows rows' ->
  cell_token columns rows rows' v t -> find_token M v = Some t.
Proof.
  intros HF (i & r & r' & c & Hr & Hr' & Hc & Hv & Ht).
  revert i Hr Hr'. induction HF as [|a b rs rs' Hab HF IH]; intros i Hr Hr'.
  - now destruct i.
  - destruct i as [|i]; simpl in *.
    + injection Hr as ->. injection Hr' as ->.
      destruct Hab as (_ & _ & Htok). specialize (Htok c Hc).
      rewrite Hv in Htok. destruct Htok as (t' & H1 & H2). congruence.
    + eapply IH; eassumption.
Qed.

(** C2: with the sequential strategy on an empty mapping, the n-th distinct
    original value met by the pass is recorded under, and replaced by, the
    token [str(n)]; the generator returns the string of the least positive
    integer whose string is not a key; and a token that is already assigned
    is only ever returned for the value it stands for, all earlier entries
    being kept. *)
Theorem sequential_numbering
        (cols : list string) (rows : list (dict pyval)) (draws : list string)
        (value : pyval) (m : token_map_t) :
  NoDup cols -> NoDup (keys m) ->
  (exists rows' st',
      tokenize_rows generate_sequential_token cols rows
                    (mk_tok_state [] draws []) = Some (rows', st') /\
      Forall2 (tokenized_as cols (token_map st')) rows rows' /\
      values (token_map st') = distinct_from [] (visited cols rows) /\
      forall n v,
        nth_error (distinct_from [] (visited cols rows)) n = Some v ->
        nth_error (token_map st') n = Some (py_str (S n), v) /\
        find_token (token_map st') v = Some (py_str (S n))) /\
  (find_token m value = None ->
   exists n,
     generate_sequential_token value m draws = Some (py_str n, draws) /\
     1 <= n /\ dict_mem (py_str n) m = false /\
     forall j, 1 <= j < n -> dict_mem (py_str j) m = true) /\
  (exists t m',
      tokenize_value generate_sequential_token value m draws
        = Some (t, m', draws) /\
      dict_get m' t = Some value /\
      (forall k u, dict_get m k = Some u -> dict_get m' k = Some u) /\
      (forall u, dict_get m t = Some u -> u = value)).
Proof.
  intros NDc NDm. split; [|split].
  - destruct (tokenize_rows_sequential_total cols rows
                                             (mk_tok_state [] draws []))
      as (rows' & st' & Hrun & _).
    exists rows', st'. split; [assumption|].
    pose proof (tokenize_rows_tokenized_as _ generate_sequential_token_fresh
                  _ _ _ _ _ NDc Hrun) as Htok.
    pose proof (tokenize_rows_values _ generate_sequential_token_fresh
                  _ _ _ _ _ NDc Hrun) as Hvals.
    simpl in Hvals.
    assert (Hcnt : counted (token_map st')).
    { apply (tokenize_rows_invariant generate_sequential_token counted
               counted_step cols rows _ _ _ Hrun).
      reflexivity. }
    repeat split; try assumption.
    + apply counted_nth; [assumption | now rewrite Hvals].
    + apply (find_token_nth _ n).
      * rewrite Hvals. apply distinct_from_NoDup. constructor.
      * apply counted_nth; [assumption | now rewrite Hvals].
  - intro F. unfold generate_sequential_token. rewrite F.
    destruct (next_id_loop_total m 1 (S (length m))) as [n E]; [lia|].
    rewrite E. exists n. split; [reflexivity|].
    now apply next_id_loop_spec in E.
  - destruct (tokenize_value_sequential_total value m draws) as (t & m' & H).
    exists t, m'. split; [assumption|].
    pose proof (tokenize_value_grows _ generate_sequential_token_fresh
                  _ _ _ _ _ _ H) as G.
    pose proof (tokenize_value_find _ generate_sequential_token_fresh
                  _ _ _ _ _ _ H) as F.
    pose proof (tokenize_value_NoDup_keys _ generate_sequential_token_fresh
                  _ _ _ _ _ _ H NDm) as ND'.
    assert (Hget : dict_get m' t = Some value) by now apply find_token_get.
    repeat split; [assumption | |].
    + intros k u Hk. now apply (grows_get m).
    + intros u Hu. apply (grows_get m m') in Hu; [congruence | assumption].
Qed.

Lemma sequential_numbering_witness :
  exists rows' st',
    tokenize_rows generate_sequential_token ["ssn"]
      [[("name", PyStr "Alice"); ("ssn", PyStr "111")];
       [("name", PyStr "Bob"); ("ssn", PyStr "222")];
       [("name", PyStr "Carol"); ("ssn", PyStr "111")]]
      (mk_tok_state [] [] []) = Some (rows', st') /\
    find_token (token_map st') (PyStr "222") = Some "2".
Proof.
  destruct (sequential_numbering
              ["ssn"]
              [[("name", PyStr "Alice"); ("ssn", PyStr "111")];
               [("name", PyStr "Bob"); ("ssn", PyStr "222")];
               [("name", PyStr "Carol"); ("ssn", PyStr "111")]]
              [] (PyStr "x") [])
    as ((rows' & st' & Hrun & _ & _ & Hnth) & _).
  - repeat constructor; simpl; tauto.
  - constructor.
  - exists rows', st'. split; [exact Hrun|].
    exact (proj2 (Hnth 1 (PyStr "222") eq_refl)).
Defined.

(** C3: an original value gets one token.  Within a pass that starts from
    any loaded mapping, two occurrences of a value in configured columns are
    replaced by the same token; and, the records of the first pass having
    string cells, a later pass that starts from the mapping file saved by the
    first one replaces the value by that same token again. *)
Theorem same_value_same_token
        (gen : token_generator_t) (mapping_rows : csv_file)
        (cols : list string) (rows : list (dict pyval)) (draws : list string)
        (rows' : list (dict pyval)) (st' : tok_state)
        (cols2 : list string) (rows2 : list (dict pyval))
        (draws2 : list string) (rows2' : list (dict pyval)) (st2 : tok_state)
        (v : pyval) (t1 t2 t3 : string) :
  known_generator gen ->
  NoDup cols -> NoDup cols2 ->
  tokenize_rows gen cols rows
    (mk_tok_state (fst (load_token_map mapping_rows [])) draws [])
    = Some (rows', st') ->
  tokenize_rows gen cols2 rows2
    (mk_tok_state (fst (load_token_map (save_token_map (token_map st')) []))
                  draws2 [])
    = Some (rows2', st2) ->
  cell_token cols rows rows' v t1 ->
  (cell_token cols rows rows' v t2 -> t1 = t2) /\
  (Forall str_valued rows -> cell_token cols2 rows2 rows2' v t3 -> t1 = t3).
Proof.
  intros Hg ND ND2 Hrun Hrun2 Hc1.
  pose proof (known_generator_fresh gen Hg) as Hfresh.
  pose proof (tokenize_rows_tokenized_as _ Hfresh _ _ _ _ _ ND Hrun) as Htok.
  pose proof (cell_token_find _ _ _ _ _ _ Htok Hc1) as F1.
  split.
  - intro Hc2. pose proof (cell_token_find _ _ _ _ _ _ Htok Hc2). congruence.
  - intros Hstr Hc3.
    assert (NDk : NoDup (keys (token_map st'))).
    { apply (tokenize_rows_NoDup_keys _ Hfresh _ _ _ _ _ Hrun). simpl.
      apply load_token_map_NoDup. constructor. }
    assert (Hsv : str_valued (token_map st')).
    { apply (tokenize_rows_str_valued _ Hfresh _ _ _ _ _ Hrun Hstr). simpl.
      apply load_token_map_str_valued. constructor. }
    rewrite (load_save _ NDk Hsv) in Hrun2. simpl in Hrun2.
    pose proof (tokenize_rows_tokenized_as _ Hfresh _ _ _ _ _ ND2 Hrun2)
      as Htok2.
    pose proof (cell_token_find _ _ _ _ _ _ Htok2 Hc3) as F3.
    pose proof (tokenize_rows_grows _ Hfresh _ _ _ _ _ Hrun2) as G.
    simpl in G. apply (grows_find_token _ _ _ _ G) in F1. congruence.
Qed.

Lemma same_value_same_token_witness :
  (cell_token ["ssn"]
     [[("id", PyStr "1"); ("ssn", PyStr "111")];
      [("id", PyStr "2"); ("ssn", PyStr "111")]]
     [[("id", PyStr "1"); ("ssn", PyStr "u1")];
      [("id", PyStr "2"); ("ssn", PyStr "u1")]]
     (PyStr "111") "u1" -> "u1" = "u1") /\
  (Forall str_valued
          [[("id", PyStr "1"); ("ssn", PyStr "111")];
           [("id", PyStr "2"); ("ssn", PyStr "111")]] ->
   cell_token ["ssn"]
     [[("id", PyStr "7"); ("ssn", PyStr "111")]]
     [[("id", PyStr "7"); ("ssn", PyStr "u1")]]
     (PyStr "111") "u1" -> "u1" = "u1").
Proof.
  apply (same_value_same_token
           generate_uuid_token [["k0"; "other"]; ["bad"]]
           ["ssn"]
           [[("id", PyStr "1"); ("ssn", PyStr "111")];
            [("id", PyStr "2"); ("ssn", PyStr "111")]]
           ["k0"; "u1"; "u2"]
           [[("id", PyStr "1"); ("ssn", PyStr "u1")];
            [("id", PyStr "2"); ("ssn", PyStr "u1")]]
           (mk_tok_state [("k0", PyStr "other"); ("u1", PyStr "111")]
                         ["u2"] [])
           ["ssn"]
           [[("id", PyStr "7"); ("ssn", PyStr "111")]]
           ["u9"]
           [[("id", PyStr "7"); ("ssn", PyStr "u1")]]
           (mk_tok_state [("k0", PyStr "other"); ("u1", PyStr "111")]
                         ["u9"] [])
           (PyStr "111")).
  - now left.
  - repeat constructor; simpl; tauto.
  - repeat constructor; simpl; tauto.
  - reflexivity.
  - reflexivity.
  - exists 0, [("id", PyStr "1"); ("ssn", PyStr "111")],
      [("id", PyStr "1"); ("ssn", PyStr "u1")], "ssn".
    simpl. tauto.
Defined.

(** C4: the insertions of a pass, with either strategy, keep the keys of the
    mapping pairwise distinct and keep its values pairwise distinct; a value
    that has a token is answered without the generator and without touching
    the mapping or the random source; a value without one gets a token that
    is not a key yet, appended as a new entry. *)
Theorem mapping_stays_one_to_one
        (gen : token_generator_t) (cols : list string)
        (rows : list (dict pyval)) (st : tok_state)
        (rows' : list (dict pyval)) (st' : tok_state)
        (v : pyval) (m : token_map_t) (d : list string) :
  known_generator gen ->
  tokenize_rows gen cols rows st = Some (rows', st') ->
  (NoDup (keys (token_map st)) -> NoDup (keys (token_map st'))) /\
  (NoDup (values (token_map st)) -> NoDup (values (token_map st'))) /\
  (forall t, find_token m v = Some t ->
             forall gen' : token_generator_t,
               tokenize_value gen' v m d = Some (t, m, d)) /\
  (forall t m' d',
      find_token m v = None ->
      tokenize_value gen v m d = Some (t, m', d') ->
      gen v m d = Some (t, d') /\ dict_mem t m = false /\
      m' = m ++ [(t, v)]).
Proof.
  intros Hg Hrun. pose proof (known_generator_fresh gen Hg) as Hfresh.
  split; [|split; [|split]].
  - apply (tokenize_rows_NoDup_keys _ Hfresh _ _ _ _ _ Hrun).
  - apply (tokenize_rows_NoDup_values _ Hfresh _ _ _ _ _ Hrun).
  - intros t F gen'. unfold tokenize_value. now rewrite F.
  - intros t m' d' F T.
    apply (tokenize_value_inv _ Hfresh) in T
      as [(F' & _)|(_ & Hf & E & G)]; [congruence|].
    auto.
Qed.

Lemma mapping_stays_one_to_one_witness :
  NoDup (keys [("1", PyStr "a"); ("2", PyStr "b")]) /\
  NoDup (values [("1", PyStr "a"); ("2", PyStr "b")]).
Proof.
  destruct (mapping_stays_one_to_one
              generate_sequential_token ["c"]
              [[("c", PyStr "a")]; [("c", PyStr "b")]; [("c", PyStr "a")]]
              (mk_tok_state [] [] [])
              [[("c", PyStr "1")]; [("c", PyStr "2")]; [("c", PyStr "1")]]
              (mk_tok_state [("1", PyStr "a"); ("2", PyStr "b")] [] [])
              (PyStr "a") [] [])
    as (Hk & Hv & _).
  - now right.
  - reflexivity.
  - split; [apply Hk | apply Hv]; constructor.
Defined.




(* ================================================================== *)
(** * Running the file-level operations *)

Lemma bind_Ok {A B} (m : M A) (f : A -> M B) (w w' : world) (a : A) :
  m w = (Ok a, w') -> bind m f w = f a w'.
Proof. intro H. unfold bind. now rewrite H. Qed.

Lemma bind_inv_Ok {A B} (m : M A) (f : A -> M B) (w w' : world) (b : B) :
  bind m f w = (Ok b, w') ->
  exists a w1, m w = (Ok a, w1) /\ f a w1 = (Ok b, w').
Proof.
  unfold bind. destruct (m w) as [[a| e |] w1]; try discriminate.
  intro H. now exists a, w1.
Qed.

Lemma log_and_reraise_Ok {A} (nf other : string) (m : M A) (w w' : world)
      (a : A) :
  m w = (Ok a, w') -> log_and_reraise nf other m w = (Ok a, w').
Proof. intro H. unfold log_and_reraise. now rewrite H. Qed.

Lemma log_and_reraise_inv_Ok {A} (nf other : string) (m : M A) (w w' : world)
      (a : A) :
  log_and_reraise nf other m w = (Ok a, w') -> m w = (Ok a, w').
Proof.
  unfold log_and_reraise. destruct (m w) as [[x| e |] w1]; intro H;
    try discriminate; assumption.
Qed.

Lemma logged_nil (w : world) : logged w [] = w.
Proof. destruct w. unfold logged. simpl. now rewrite app_nil_r. Qed.

Lemma logged_logged (w : world) (a b : list event) :
  logged (logged w a) b = logged w (a ++ b).
Proof. unfold logged. simpl. now rewrite app_assoc. Qed.

Lemma emit_warnings_run (ws : list warning) : forall w,
  emit_warnings ws w = (Ok tt, logged w (map EvWarning ws)).
Proof.
  induction ws as [|x ws IH]; intro w; simpl.
  - unfold ret. now rewrite logged_nil.
  - unfold bind, emit. rewrite IH. unfold logged. simpl.
    now rewrite <- app_assoc.
Qed.

Lemma dict_set_set {V} (k : string) (v v' : V) (d : dict V) :
  dict_set k v' (dict_set k v d) = dict_set k v' d.
Proof.
  induction d as [|[k0 v0] d IH]; simpl.
  - now rewrite String.eqb_refl.
  - destruct (String.eqb k k0) eqn:E; simpl.
    + now rewrite String.eqb_refl.
    + now rewrite E, IH.
Qed.

Lemma write_rows_run (path : string) (rows : csv_file) : forall w old,
  dict_get (files w) path = Some old ->
  write_rows path rows w =
  (Ok tt, mk_world (dict_set path (old ++ rows) (files w))
                   (uuid_draws w) (trace w)).
Proof.
  induction rows as [|r rows IH]; intros w old Hold; simpl.
  - unfold ret. rewrite app_nil_r, dict_set_same_value by assumption.
    now destruct w.
  - unfold bind, write_row. rewrite Hold.
    rewrite (IH _ (old ++ [r])); simpl.
    + now rewrite dict_set_set, <- app_assoc.
    + apply dict_get_set_same.
Qed.

(** Reading a mapping file that is there and can be read returns. *)
Lemma read_token_map_run (path : string) (w : world) (rows : csv_file) :
  dict_get (files w) path = Some rows ->
  read_token_map path w =
  (Ok (fst (load_token_map rows [])),
   logged w (EvOpenRead path :: map EvWarning (snd (load_token_map rows [])))).
Proof.
  intro H. unfold read_token_map, bind, open_read, read_rows.
  rewrite dict_get_mem, H. simpl. rewrite H.
  destruct (load_token_map rows []) as [tm ws]. simpl.
  unfold bind. rewrite emit_warnings_run. unfold ret, logged. simpl.
  now rewrite <- app_assoc.
Qed.

Lemma read_token_map_missing (path : string) (w : world) :
  dict_get (files w) path = None ->
  read_token_map path w = (Raise (FileNotFoundError path), w).
Proof.
  intro H. unfold read_token_map, bind, open_read.
  rewrite dict_get_mem, H. reflexivity.
Qed.

(* ================================================================== *)
(** * Properties of the mapping file *)

Lemma load_token_map_filter (rows : csv_file) : forall acc,
  fst (load_token_map rows acc) =
  fst (load_token_map (filter two_fields rows) acc) /\
  snd (load_token_map rows acc) =
  map MalformedRow (filter (fun r => negb (two_fields r)) rows).
Proof.
  induction rows as [|r rows IH]; intro acc; simpl; [auto|].
  destruct r as [|a [|b [|c r]]]; simpl;
    try (destruct (IH acc) as [H1 H2];
         destruct (load_token_map rows acc) as [m ws]; simpl in *;
         split; [assumption | now f_equal]).
  apply IH.
Qed.

Lemma load_token_map_keeps_key (rows : csv_file) : forall acc k,
  dict_mem k acc = true -> dict_mem k (fst (load_token_map rows acc)) = true.
Proof.
  induction rows as [|r rows IH]; intros acc k H; simpl; [assumption|].
  destruct r as [|a [|b [|c r]]];
    try (specialize (IH acc k H); destruct (load_token_map rows acc);
         exact IH).
  apply IH. rewrite dict_mem_set, H. apply orb_true_r.
Qed.

Lemma load_token_map_keeps_entry (rows : csv_file) : forall acc k v,
  (forall v', ~ In [k; v'] rows) ->
  dict_get acc k = Some v ->
  dict_get (fst (load_token_map rows acc)) k = Some v.
Proof.
  induction rows as [|r rows IH]; intros acc k v Hno H; simpl; [assumption|].
  assert (Hno' : forall v', ~ In [k; v'] rows).
  { intros v' Hin. apply (Hno v'). now right. }
  destruct r as [|a [|b [|c r]]];
    try (specialize (IH acc k v Hno' H); destruct (load_token_map rows acc);
         exact IH).
  apply IH; [assumption|]. rewrite dict_get_set.
  destruct (String.eqb k a) eqn:E; [|assumption].
  apply String.eqb_eq in E. subst. exfalso. apply (Hno b). now left.
Qed.

Lemma load_token_map_origin (rows : csv_file) : forall acc k v,
  dict_get (fst (load_token_map rows acc)) k = Some v ->
  dict_get acc k = Some v \/ exists s, v = PyStr s /\ In [k; s] rows.
Proof.
  induction rows as [|r rows IH]; intros acc k v H; simpl in *; [now left|].
  destruct r as [|a [|b [|c r]]];
    try (assert (H' : dict_get (fst (load_token_map rows acc)) k = Some v)
          by (destruct (load_token_map rows acc); exact H);
         destruct (IH _ _ _ H') as [?|(s & ? & ?)];
         [now left | right; exists s; auto]).
  destruct (IH _ _ _ H) as [H'|(s & ? & ?)]; [|right; exists s; auto].
  rewrite dict_get_set in H'. destruct (String.eqb k a) eqn:E; [|now left].
  apply String.eqb_eq in E. subst. injection H' as <-.
  right. exists b. auto.
Qed.

Lemma load_token_map_malformed (row : list string) (rows : csv_file)
      (acc : token_map_t) :
  two_fields row = false ->
  load_token_map (row :: rows) acc =
  (fst (load_token_map rows acc),
   MalformedRow row :: snd (load_token_map rows acc)).
Proof.
  intro H. simpl.
  destruct row as [|a [|b [|c r]]]; try discriminate;
    now destruct (load_token_map rows acc).
Qed.

Lemma tokenize_data_loads (input_file output_file : string)
      (cols : list string) (token_method token_map_file : string)
      (w : world) (rows : csv_file) :
  dict_get (files w) token_map_file = Some rows ->
  tokenize_data input_file output_file cols token_method token_map_file w =
  tokenize_with (fst (load_token_map rows [])) input_file output_file cols
                token_method token_map_file
                (logged w (EvExists token_map_file true
                           :: EvOpenRead token_map_file
                           :: map EvWarning (snd (load_token_map rows [])))).
Proof.
  intro H. unfold tokenize_data. unfold bind at 1. unfold path_exists.
  rewrite dict_get_mem, H.
  set (w1 := mk_world _ _ _).
  assert (H1 : dict_get (files w1) token_map_file = Some rows) by exact H.
  unfold bind at 1.
  rewrite (log_and_reraise_Ok _ _ _ _ _ _ (read_token_map_run _ _ _ H1)).
  unfold w1, logged. simpl. now rewrite <- app_assoc.
Qed.

Lemma detokenize_data_loads (input_file output_file token_map_file : string)
      (w : world) (rows : csv_file) :
  dict_get (files w) token_map_file = Some rows ->
  detokenize_data input_file output_file token_map_file w =
  detokenize_with (fst (load_token_map rows [])) input_file output_file
                  (logged w (EvOpenRead token_map_file
                             :: map EvWarning (snd (load_token_map rows [])))).
Proof.
  intro H. unfold detokenize_data. unfold bind at 1.
  now rewrite (log_and_reraise_Ok _ _ _ _ _ _ (read_token_map_run _ _ _ H)).
Qed.

(** C7: loading a mapping file, in [tokenize_data] as in [detokenize_data],
    always succeeds; each row of two fields is entered under its token, and
    stays the entry of that token unless a later row of two fields has the
    same token; each other row is passed over with one warning and leaves the
    mapping exactly as it would be without that row; every entry of the
    result comes from a row of two fields. *)
Theorem mapping_rows_loaded
        (token_map_file : string) (w : world) (rows : csv_file)
        (input_file output_file : string) (cols : list string)
        (token_method : string) :
  dict_get (files w) token_map_file = Some rows ->
  let loaded := fst (load_token_map rows []) in
  let warned := map MalformedRow (filter (fun r => negb (two_fields r)) rows) in
  read_token_map token_map_file w =
    (Ok loaded, logged w (EvOpenRead token_map_file :: map EvWarning warned)) /\
  tokenize_data input_file output_file cols token_method token_map_file w =
    tokenize_with loaded input_file output_file cols token_method
      token_map_file
      (logged w (EvExists token_map_file true :: EvOpenRead token_map_file
                 :: map EvWarning warned)) /\
  detokenize_data input_file output_file token_map_file w =
    detokenize_with loaded input_file output_file
      (logged w (EvOpenRead token_map_file :: map EvWarning warned)) /\
  loaded = fst (load_token_map (filter two_fields rows) []) /\
  (forall pre token value post,
      rows = pre ++ [token; value] :: post ->
      dict_get (fst (load_token_map (pre ++ [[token; value]]) [])) token
        = Some (PyStr value) /\
      dict_mem token loaded = true /\
      ((forall v', ~ In [token; v'] post) ->
       dict_get loaded token = Some (PyStr value))) /\
  (forall pre row post,
      rows = pre ++ row :: post -> two_fields row = false ->
      loaded = fst (load_token_map (pre ++ post) []) /\
      In (MalformedRow row) warned) /\
  (forall token v,
      dict_get loaded token = Some v ->
      exists value, v = PyStr value /\ In [token; value] rows).
Proof.
  intros H loaded warned.
  destruct (load_token_map_filter rows []) as [Hfst Hsnd].
  fold loaded in Hfst. fold warned in Hsnd.
  split; [|split; [|split; [|split; [|split; [|split]]]]].
  - rewrite (read_token_map_run _ _ _ H). now rewrite Hsnd.
  - rewrite (tokenize_data_loads _ _ _ _ _ _ _ H). now rewrite Hsnd.
  - rewrite (detokenize_data_loads _ _ _ _ _ H). now rewrite Hsnd.
  - exact Hfst.
  - intros pre token value post ->. unfold loaded.
    rewrite !load_token_map_app.
    destruct (load_token_map pre []) as [m1 w1] eqn:E1. simpl.
    destruct (load_token_map post (dict_set token (PyStr value) m1))
      as [m2 w2] eqn:E2. simpl.
    assert (Hm2 : m2 = fst (load_token_map post
                                           (dict_set token (PyStr value) m1)))
      by now rewrite E2.
    split; [apply dict_get_set_same|]. split.
    + rewrite Hm2. apply load_token_map_keeps_key.
      rewrite dict_mem_set, String.eqb_refl. reflexivity.
    + intro Hno. rewrite Hm2. apply load_token_map_keeps_entry;
        [assumption | apply dict_get_set_same].
  - intros pre row post -> Hbad. split.
    + unfold loaded. rewrite !load_token_map_app.
      destruct (load_token_map pre []) as [m1 w1].
      rewrite (load_token_map_malformed row post m1 Hbad).
      now destruct (load_token_map post m1).
    + unfold warned. apply in_map. apply filter_In. split.
      * apply in_or_app. right. now left.
      * now rewrite Hbad.
  - intros token v Hget. apply load_token_map_origin in Hget
      as [Hget|Hget]; [discriminate | assumption].
Qed.

Lemma mapping_rows_loaded_witness :
  read_token_map "map.csv" mapping_world =
  (Ok [("1", PyStr "alice"); ("3", PyStr "carol")],
   logged mapping_world
          [EvOpenRead "map.csv";
           EvWarning (MalformedRow ["2"; "bob"; "extra"])]).
Proof.
  exact (proj1 (mapping_rows_loaded
                  "map.csv" mapping_world
                  [["1"; "alice"]; ["2"; "bob"; "extra"]; ["3"; "carol"]]
                  "in.csv" "out.csv" [] "uuid" eq_refl)).
Defined.

(* ================================================================== *)
(** * Properties of the detokenizer *)

(** C9 (as amended): when the names in [fieldnames] are pairwise distinct,
    the column loop of the detokenizer looks every cell up exactly once: the
    cell of a listed column becomes the mapping's value for it if the cell is
    a key, and stays as it is otherwise; the value written is not looked up
    again; other cells and the column names are untouched. *)
Theorem detokenize_single_lookup
        (M : token_map_t) (fieldnames : list string) (row : dict pyval) :
  NoDup fieldnames ->
  (forall c, In c fieldnames -> dict_mem c row = true) ->
  exists row',
    detokenize_row M fieldnames row = Ok row' /\
    keys row' = keys row /\
    (forall c, In c fieldnames ->
               dict_get row' c = option_map (lookup_once M) (dict_get row c)) /\
    (forall c, ~ In c fieldnames -> dict_get row' c = dict_get row c).
Proof.
  intros ND Hall.
  destruct (detokenize_row_spec M fieldnames row Hall)
    as (row' & Hrun & Hkeys & Hcells).
  exists row'. repeat split; try assumption.
  - intros c Hc. rewrite Hcells.
    rewrite (proj1 (NoDup_count_occ' string_dec fieldnames) ND c Hc).
    reflexivity.
  - intros c Hc. rewrite Hcells.
    rewrite (proj1 (count_occ_not_In string_dec fieldnames c) Hc).
    simpl. now destruct (dict_get row c).
Qed.

Lemma detokenize_single_lookup_witness :
  exists row',
    detokenize_row [("1", PyStr "2"); ("2", PyStr "secret")] ["a"; "b"]
                   [("a", PyStr "1"); ("b", PyStr "9")] = Ok row' /\
    dict_get row' "a" = Some (PyStr "2").
Proof.
  destruct (detokenize_single_lookup
              [("1", PyStr "2"); ("2", PyStr "secret")] ["a"; "b"]
              [("a", PyStr "1"); ("b", PyStr "9")])
    as (row' & Hrun & _ & Hin & _).
  - repeat constructor; simpl; intuition discriminate.
  - intros c [<-|[<-|[]]]; reflexivity.
  - exists row'. split; [exact Hrun|].
    exact (Hin "a" (or_introl eq_refl)).
Defined.

(** A header that names a column twice makes the loop visit the cell of that
    column twice: the value that replaced the token ["1"] is looked up again
    and replaced in turn. *)
Lemma detokenize_follows_chain :
  fst (detokenize_data "tokens.csv" "out.csv" "map.csv" chain_world) = Ok tt /\
  dict_get (files (snd (detokenize_data "tokens.csv" "out.csv" "map.csv"
                                        chain_world))) "out.csv"
    = Some [["a"; "a"]; ["secret"; "secret"]] /\
  lookup_once [("1", PyStr "2"); ("2", PyStr "secret")] (PyStr "1")
    = PyStr "2" /\
  ~ (forall M fieldnames row row' c,
        detokenize_row M fieldnames row = Ok row' ->
        dict_get row' c = dict_get row c \/
        dict_get row' c = option_map (lookup_once M) (dict_get row c)).
Proof.
  split; [reflexivity|]. split; [reflexivity|]. split; [reflexivity|].
  intro H.
  specialize (H [("1", PyStr "2"); ("2", PyStr "secret")] ["a"; "a"]
                (cells (DictReader_row ["a"; "a"] ["x"; "1"]))
                [("a", PyStr "secret")] "a" eq_refl).
  destruct H as [H|H]; discriminate H.
Qed.

(* ================================================================== *)
(** * Errors *)


Lemma tokenize_data_no_mapping (input_file output_file : string)
      (cols : list string) (token_method token_map_file : string) (w : world) :
  dict_get (files w) token_map_file = None ->
  tokenize_data input_file output_file cols token_method token_map_file w =
  tokenize_with [] input_file output_file cols token_method token_map_file
                (logged w [EvExists token_map_file false]).
Proof.
  intro H. unfold tokenize_data. unfold bind at 1. unfold path_exists.
  rewrite dict_get_mem, H. reflexivity.
Qed.






(* ================================================================== *)
(** * Rows between files and dictionaries *)

Lemma DictWriter_row_plain (fieldnames : list string) (row : dict pyval) :
  (forall k, In k (keys row) -> In k fieldnames) ->
  DictWriter_row fieldnames (mk_dict_row row None)
  = Ok (render fieldnames row).
Proof.
  intro H. unfold DictWriter_row. simpl.
  replace (forallb _ (keys row)) with true; [reflexivity|].
  symmetry. apply forallb_forall. intros k Hk. apply existsb_exists.
  exists k. split; [now apply H | apply String.eqb_refl].
Qed.

Lemma keys_dict_update_incl {V} (kvs : list (string * V)) :
  forall (d : dict V) k,
    In k (keys (dict_update d kvs)) -> In k (keys d) \/ In k (map fst kvs).
Proof.
  unfold dict_update.
  induction kvs as [|[k0 v0] kvs IH]; intros d k H; simpl in *; [now left|].
  apply IH in H as [H|H]; [|right; now right].
  rewrite keys_dict_set in H. destruct (dict_mem k0 d); [now left|].
  apply in_app_or in H as [H|[H|[]]]; [now left | right; now left].
Qed.

Lemma dict_mem_update_old {V} (kvs : list (string * V)) :
  forall (d : dict V) k,
    dict_mem k d = true -> dict_mem k (dict_update d kvs) = true.
Proof.
  unfold dict_update.
  induction kvs as [|[k0 v0] kvs IH]; intros d k H; simpl; [assumption|].
  apply IH. rewrite dict_mem_set, H. apply orb_true_r.
Qed.

Lemma dict_mem_update_new {V} (kvs : list (string * V)) :
  forall (d : dict V) k,
    In k (map fst kvs) -> dict_mem k (dict_update d kvs) = true.
Proof.
  unfold dict_update.
  induction kvs as [|[k0 v0] kvs IH]; intros d k H; simpl in *; [contradiction|].
  destruct H as [->|H]; [|now apply IH].
  apply (dict_mem_update_old kvs).
  rewrite dict_mem_set, String.eqb_refl. reflexivity.
Qed.

Lemma str_valued_update (kvs : list (string * string)) :
  forall d : dict pyval,
    str_valued d ->
    str_valued (dict_update d (map (fun kv => (fst kv, PyStr (snd kv))) kvs)).
Proof.
  unfold dict_update.
  induction kvs as [|[k0 v0] kvs IH]; intros d H; simpl; [assumption|].
  apply IH. now apply str_valued_set.
Qed.

Lemma combine_map_r {A B C} (f : B -> C) (a : list A) : forall b : list B,
  combine a (map f b) = map (fun p => (fst p, f (snd p))) (combine a b).
Proof.
  induction a as [|x a IH]; intros [|y b]; simpl; try reflexivity.
  now rewrite IH.
Qed.

Lemma map_fst_combine {A B} (a : list A) : forall b : list B,
  map fst (combine a b) = firstn (length b) a.
Proof.
  induction a as [|x a IH]; intros [|y b]; simpl; try reflexivity.
  now rewrite IH.
Qed.

Lemma In_firstn {A} (n : nat) (l : list A) (x : A) :
  In x (firstn n l) -> In x l.
Proof.
  intro H. rewrite <- (firstn_skipn n l). apply in_or_app. now left.
Qed.

Lemma In_skipn {A} (n : nat) (l : list A) (x : A) :
  In x (skipn n l) -> In x l.
Proof.
  intro H. rewrite <- (firstn_skipn n l). apply in_or_app. now right.
Qed.

Lemma DictReader_row_keys (fieldnames row : list string) (k : string) :
  In k (keys (cells (DictReader_row fieldnames row))) -> In k fieldnames.
Proof.
  unfold DictReader_row.
  assert (Hzip : forall k, In k (keys (dict_update
                    [] (combine fieldnames (map PyStr row)))) ->
                           In k fieldnames).
  { intros k0 H. apply keys_dict_update_incl in H as [[]|H].
    rewrite map_fst_combine in H. eapply In_firstn; eassumption. }
  destruct (Nat.ltb (length fieldnames) (length row)); simpl; [apply Hzip|].
  destruct (Nat.ltb (length row) (length fieldnames)); simpl; [|apply Hzip].
  intro H. apply keys_dict_update_incl in H as [H|H]; [now apply Hzip|].
  rewrite map_map in H. simpl in H. rewrite map_id in H.
  eapply In_skipn; eassumption.
Qed.

Lemma DictReader_row_covers (fieldnames row : list string) (k : string) :
  In k fieldnames ->
  dict_mem k (cells (DictReader_row fieldnames row)) = true.
Proof.
  intro Hk. unfold DictReader_row.
  assert (Hzip : length fieldnames <= length row ->
                 dict_mem k (dict_update [] (combine fieldnames
                                                     (map PyStr row))) = true).
  { intro Hle. apply dict_mem_update_new. rewrite map_fst_combine.
    rewrite length_map, firstn_all2 by assumption. assumption. }
  destruct (Nat.ltb (length fieldnames) (length row)) eqn:L1; simpl.
  - apply Nat.ltb_lt in L1. apply Hzip. lia.
  - apply Nat.ltb_ge in L1.
    destruct (Nat.ltb (length row) (length fieldnames)) eqn:L2; simpl.
    + rewrite <- (firstn_skipn (length row) fieldnames) in Hk.
      apply in_app_or in Hk as [Hk|Hk].
      * apply dict_mem_update_old. apply dict_mem_update_new.
        now rewrite map_fst_combine, length_map.
      * apply dict_mem_update_new. rewrite map_map. simpl.
        now rewrite map_id.
    + apply Nat.ltb_ge in L2. apply Hzip. lia.
Qed.

Lemma DictReader_row_restkey (fieldnames row : list string) :
  length row <= length fieldnames ->
  restkey (DictReader_row fieldnames row) = None.
Proof.
  intro H. unfold DictReader_row.
  destruct (Nat.ltb (length fieldnames) (length row)) eqn:L1;
    [apply Nat.ltb_lt in L1; lia|].
  now destruct (Nat.ltb (length row) (length fieldnames)).
Qed.

Lemma DictReader_row_str_valued (fieldnames row : list string) :
  length row = length fieldnames ->
  str_valued (cells (DictReader_row fieldnames row)).
Proof.
  intro H. unfold DictReader_row. rewrite H, Nat.ltb_irrefl. simpl.
  rewrite combine_map_r. apply str_valued_update. constructor.
Qed.

Lemma rectangular_no_long_line (fieldnames : list string) (lines : csv_file) :
  rectangular fieldnames lines -> no_long_line fieldnames lines.
Proof.
  apply Forall_impl. intros line [->|H]; simpl; lia.
Qed.

Lemma DictReader_rows_plain (fieldnames : list string) (lines : csv_file) :
  no_long_line fieldnames lines ->
  Forall (plain fieldnames) (DictReader_rows fieldnames lines).
Proof.
  intro H. unfold DictReader_rows. apply Forall_map.
  induction H as [|line lines Hl H IH]; simpl; [constructor|].
  destruct (is_blank line); simpl; [assumption|].
  constructor; [|assumption]. split.
  - now apply DictReader_row_restkey.
  - intro k. apply DictReader_row_keys.
Qed.

Lemma DictReader_rows_str_valued (fieldnames : list string) (lines : csv_file) :
  rectangular fieldnames lines ->
  Forall str_valued (map cells (DictReader_rows fieldnames lines)).
Proof.
  intro H. unfold DictReader_rows. rewrite map_map. apply Forall_map.
  induction H as [|line lines Hl H IH]; simpl; [constructor|].
  destruct line as [|x line]; simpl; [assumption|].
  constructor; [|assumption].
  destruct Hl as [Hl|Hl]; [discriminate|].
  now apply DictReader_row_str_valued.
Qed.

Lemma DictReader_rows_covered (fieldnames : list string) (lines : csv_file) :
  Forall (fun r => forall c, In c fieldnames -> dict_mem c (cells r) = true)
         (DictReader_rows fieldnames lines).
Proof.
  unfold DictReader_rows. apply Forall_map, Forall_forall.
  intros line _ c. apply DictReader_row_covers.
Qed.

(* ================================================================== *)
(** * Running [tokenize_data] *)

Lemma tokenize_column_prefix gen c row ws s :
  tokenize_column gen c row (add_warnings ws s)
  = with_warnings ws (tokenize_column gen c row s).
Proof.
  unfold tokenize_column, add_warnings, with_warnings. simpl.
  destruct (dict_get row c) as [v|].
  - now destruct (tokenize_value gen v (token_map s) (entropy s))
      as [[[t m] d]|].
  - now rewrite <- app_assoc.
Qed.

Lemma tokenize_row_prefix gen cols ws : forall row s,
  tokenize_row gen cols row (add_warnings ws s)
  = with_warnings ws (tokenize_row gen cols row s).
Proof.
  induction cols as [|c cols IH]; intros row s; simpl; [reflexivity|].
  rewrite tokenize_column_prefix.
  destruct (tokenize_column gen c row s) as [[r1 s1]|]; simpl; [|reflexivity].
  apply IH.
Qed.

Lemma tokenize_rows_prefix gen cols rows ws : forall s,
  tokenize_rows gen cols rows (add_warnings ws s)
  = with_warnings ws (tokenize_rows gen cols rows s).
Proof.
  induction rows as [|r rows IH]; intro s; simpl.
  - reflexivity.
  - rewrite tokenize_row_prefix.
    destruct (tokenize_row gen cols r s) as [[r1 s1]|]; simpl; [|reflexivity].
    rewrite IH.
    now destruct (tokenize_rows gen cols rows s1) as [[out s2]|].
Qed.

Lemma add_warnings_fresh (s : tok_state) :
  s = add_warnings (warnings s) (mk_tok_state (token_map s) (entropy s) []).
Proof. destruct s. unfold add_warnings. simpl. now rewrite app_nil_r. Qed.

Lemma run_tokenize_row_Some gen cols row tm w row' s :
  tokenize_row gen cols row (mk_tok_state tm (uuid_draws w) [])
  = Some (row', s) ->
  run_tokenize_row gen cols row tm w =
  (Ok (row', token_map s),
   mk_world (files w) (entropy s) (trace w ++ map EvWarning (warnings s))).
Proof.
  intro H. unfold run_tokenize_row. rewrite H. unfold bind.
  rewrite emit_warnings_run. reflexivity.
Qed.

Lemma run_tokenize_row_None gen cols row tm w :
  tokenize_row gen cols row (mk_tok_state tm (uuid_draws w) []) = None ->
  run_tokenize_row gen cols row tm w = (Diverge, w).
Proof. intro H. unfold run_tokenize_row. now rewrite H. Qed.

Section TokenizeLoop.
Variable gen : token_generator_t.
Variable cols : list string.
Variable output_file : string.
Variable fieldnames : list string.

(** The loop over the rows of a file whose lines are not longer than the
    header writes the rows of [tokenize_rows], and stops only where
    [tokenize_rows] does. *)
Lemma tokenize_loop_run (rows : list dict_row) :
  Forall (plain fieldnames) rows ->
  forall tm w old,
    dict_get (files w) output_file = Some old ->
    match tokenize_rows gen cols (map cells rows)
                        (mk_tok_state tm (uuid_draws w) []) with
    | Some (rows', st') =>
        tokenize_loop gen cols output_file fieldnames rows tm w =
        (Ok (token_map st'),
         mk_world (dict_set output_file
                            (old ++ map (render fieldnames) rows') (files w))
                  (entropy st')
                  (trace w ++ map EvWarning (warnings st')))
    | None =>
        fst (tokenize_loop gen cols output_file fieldnames rows tm w)
        = Diverge
    end.
Proof.
  induction 1 as [|r rows Hr Hrows IH]; intros tm w old Hold.
  - simpl. unfold ret. rewrite !app_nil_r, dict_set_same_value by assumption.
    now destruct w.
  - cbn [map tokenize_rows].
    destruct (tokenize_row gen cols (cells r)
                           (mk_tok_state tm (uuid_draws w) []))
      as [[r1 s1]|] eqn:R.
    + set (w2 := mk_world (dict_set output_file
                                    (old ++ [render fieldnames r1]) (files w))
                          (entropy s1)
                          (trace w ++ map EvWarning (warnings s1))).
      assert (Hstep :
                tokenize_loop gen cols output_file fieldnames (r :: rows) tm w
                = tokenize_loop gen cols output_file fieldnames rows
                                (token_map s1) w2).
      { simpl. unfold bind at 1.
        rewrite (run_tokenize_row_Some _ _ _ _ _ _ _ R).
        destruct Hr as [Hrest Hkeys]. rewrite Hrest.
        rewrite DictWriter_row_plain.
        - unfold bind, write_row. simpl. now rewrite Hold.
        - intros k Hk. apply Hkeys.
          now rewrite <- (tokenize_row_keys _ _ _ _ _ _ R). }
      rewrite Hstep.
      assert (Hold2 : dict_get (files w2) output_file
                      = Some (old ++ [render fieldnames r1]))
        by apply dict_get_set_same.
      specialize (IH (token_map s1) w2 _ Hold2).
      rewrite (add_warnings_fresh s1), tokenize_rows_prefix.
      change (uuid_draws w2) with (entropy s1) in IH.
      destruct (tokenize_rows gen cols (map cells rows)
                              (mk_tok_state (token_map s1) (entropy s1) []))
        as [[out s2]|]; simpl.
      * rewrite IH. unfold w2. simpl.
        rewrite dict_set_set, <- !app_assoc, map_app. reflexivity.
      * exact IH.
    + simpl. unfold bind. now rewrite (run_tokenize_row_None _ _ _ _ _ R).
Qed.
End TokenizeLoop.

Lemma generator_named_known (token_method : string) (gen : token_generator_t) :
  generator_named token_method gen -> known_generator gen.
Proof. intros [[_ ->]|[_ ->]]; [now left | now right]. Qed.

Lemma select_generator_named (token_method : string) (gen : token_generator_t)
      (w : world) :
  generator_named token_method gen ->
  select_generator token_method w = (Ok gen, w).
Proof. intros [[-> ->]|[-> ->]]; reflexivity. Qed.

Lemma log_and_reraise_Diverge {A} (nf other : string) (m : M A) (w : world) :
  fst (m w) = Diverge -> fst (log_and_reraise nf other m w) = Diverge.
Proof.
  unfold log_and_reraise. destruct (m w) as [[a|e|] w']; simpl;
    intro H; try discriminate; reflexivity.
Qed.

Lemma bind_Diverge {A B} (m : M A) (f : A -> M B) (w : world) :
  fst (m w) = Diverge -> fst (bind m f w) = Diverge.
Proof.
  unfold bind. destruct (m w) as [[a|e|] w']; simpl;
    intro H; try discriminate; reflexivity.
Qed.

Lemma write_token_map_run (token_map_file : string) (tm : token_map_t)
      (w : world) :
  write_token_map token_map_file tm w =
  (Ok tt, mk_world (dict_set token_map_file (save_token_map tm) (files w))
                   (uuid_draws w) (trace w ++ [EvOpenWrite token_map_file])).
Proof.
  unfold write_token_map. apply log_and_reraise_Ok.
  unfold bind, open_write.
  rewrite (write_rows_run _ _ _ []); simpl.
  - now rewrite dict_set_set.
  - apply dict_get_set_same.
Qed.

Section TokenizeRun.
Variable gen : token_generator_t.
Variables input_file output_file : string.
Variable cols : list string.
Variable header : list string.
Variable lines : csv_file.
Hypothesis paths_differ : input_file <> output_file.
Hypothesis lines_fit : no_long_line header lines.

Lemma tokenize_body_run (tm : token_map_t) (w : world) :
  dict_get (files w) input_file = Some (header :: lines) ->
  match tokenize_rows gen cols (map cells (DictReader_rows header lines))
                      (mk_tok_state tm (uuid_draws w) []) with
  | Some (rows', st') =>
      tokenize_body gen input_file output_file cols tm w =
      (Ok (token_map st'),
       mk_world (dict_set output_file (header :: map (render header) rows')
                          (files w))
                (entropy st')
                (trace w ++ [EvOpenRead input_file; EvOpenWrite output_file]
                         ++ map EvWarning (warnings st')))
  | None =>
      fst (tokenize_body gen input_file output_file cols tm w) = Diverge
  end.
Proof.
  intro Hin.
  set (w2 := mk_world (dict_set output_file [header]
                                (dict_set output_file [] (files w)))
                      (uuid_draws w)
                      (trace w ++ [EvOpenRead input_file;
                                   EvOpenWrite output_file])).
  assert (Hstart :
              (open_read input_file ;;;
               open_write output_file ;;;
               lines0 <- read_rows input_file ;;
               let (hd, rest) := split_header lines0 in
               fieldnames <- writeheader output_file hd ;;
               tokenize_loop gen cols output_file fieldnames
                             (DictReader_rows fieldnames rest) tm) w
              = tokenize_loop gen cols output_file header
                              (DictReader_rows header lines) tm w2).
  { unfold bind, open_read, open_write, read_rows. simpl.
    rewrite dict_get_mem, Hin. simpl.
    rewrite dict_get_set_other by assumption. rewrite Hin. simpl.
    unfold bind, write_row, ret. simpl.
    rewrite dict_get_set_same. simpl.
    unfold w2. now rewrite <- app_assoc. }
  assert (Hold : dict_get (files w2) output_file = Some [header])
    by apply dict_get_set_same.
  pose proof (tokenize_loop_run gen cols output_file header _
                (DictReader_rows_plain _ _ lines_fit) tm w2 _ Hold) as Hloop.
  change (uuid_draws w2) with (uuid_draws w) in Hloop.
  destruct (tokenize_rows gen cols (map cells (DictReader_rows header lines))
                          (mk_tok_state tm (uuid_draws w) []))
    as [[rows' st']|].
  - unfold tokenize_body. apply log_and_reraise_Ok.
    rewrite Hstart, Hloop. unfold w2. simpl.
    now rewrite !dict_set_set, <- app_assoc.
  - unfold tokenize_body. apply log_and_reraise_Diverge.
    now rewrite Hstart.
Qed.

Lemma tokenize_with_run (token_method token_map_file : string)
      (tm : token_map_t) (w : world) :
  generator_named token_method gen ->
  dict_get (files w) input_file = Some (header :: lines) ->
  match tokenize_rows gen cols (map cells (DictReader_rows header lines))
                      (mk_tok_state tm (uuid_draws w) []) with
  | Some (rows', st') =>
      tokenize_with tm input_file output_file cols token_method
                    token_map_file w =
      (Ok tt, tokenized_world w input_file output_file token_map_file
                              header rows' st')
  | None =>
      fst (tokenize_with tm input_file output_file cols token_method
                         token_map_file w) = Diverge
  end.
Proof.
  intros Hgen Hin. pose proof (tokenize_body_run tm w Hin) as Hbody.
  destruct (tokenize_rows gen cols (map cells (DictReader_rows header lines))
                          (mk_tok_state tm (uuid_draws w) []))
    as [[rows' st']|].
  - unfold tokenize_with.
    rewrite (bind_Ok _ _ _ _ _ (select_generator_named _ _ w Hgen)).
    rewrite (bind_Ok _ _ _ _ _ Hbody).
    rewrite write_token_map_run. unfold tokenized_world. simpl.
    now rewrite <- !app_assoc.
  - unfold tokenize_with.
    rewrite (bind_Ok _ _ _ _ _ (select_generator_named _ _ w Hgen)).
    now apply bind_Diverge.
Qed.
End TokenizeRun.

Lemma tokenize_data_start (input_file output_file : string)
      (cols : list string) (token_method token_map_file : string) (w : world) :
  tokenize_data input_file output_file cols token_method token_map_file w =
  tokenize_with (fst (load_token_map (content w token_map_file) []))
                input_file output_file cols token_method token_map_file
                (logged w (load_events w token_map_file)).
Proof.
  unfold content, load_events.
  destruct (dict_get (files w) token_map_file) as [rows|] eqn:G.
  - now apply tokenize_data_loads.
  - now apply tokenize_data_no_mapping.
Qed.

Lemma tokenize_rows_total (gen : token_generator_t) (cols : list string)
      (rows : list (dict pyval)) (tm : token_map_t) (d : list string) :
  gen = generate_sequential_token \/
  (gen = generate_uuid_token /\ fresh_draws tm d /\
   length rows * length cols <= length d) ->
  exists rows' st',
    tokenize_rows gen cols rows (mk_tok_state tm d []) = Some (rows', st').
Proof.
  intros [->|(-> & Hf & Hl)].
  - destruct (tokenize_rows_sequential_total cols rows (mk_tok_state tm d []))
      as (rows' & st' & H & _).
    now exists rows', st'.
  - now apply tokenize_rows_uuid_total.
Qed.

(** C6: without a mapping file, [detokenize_data] raises the not-found error
    for it and touches nothing, while [tokenize_data] goes on exactly as with
    an empty mapping; on an input whose lines fit its header it then
    completes, with the sequential strategy always and with the random one
    whenever the identifiers to come are pairwise distinct and as many as the
    cells to replace. *)
Theorem missing_mapping_file
        (input_file output_file : string) (cols : list string)
        (token_method token_map_file : string) (w : world)
        (gen : token_generator_t) (header : list string) (lines : csv_file) :
  dict_get (files w) token_map_file = None ->
  detokenize_data input_file output_file token_map_file w
  = (Raise (FileNotFoundError token_map_file),
     logged w [EvError "Token map file not found"]) /\
  tokenize_data input_file output_file cols token_method token_map_file w
  = tokenize_with [] input_file output_file cols token_method token_map_file
                  (logged w [EvExists token_map_file false]) /\
  (generator_named token_method gen ->
   dict_get (files w) input_file = Some (header :: lines) ->
   input_file <> output_file ->
   no_long_line header lines ->
   gen = generate_sequential_token \/
   (NoDup (uuid_draws w) /\
    length (DictReader_rows header lines) * length cols
    <= length (uuid_draws w)) ->
   exists rows' st',
     tokenize_rows gen cols (map cells (DictReader_rows header lines))
                   (mk_tok_state [] (uuid_draws w) []) = Some (rows', st') /\
     tokenize_data input_file output_file cols token_method token_map_file w
     = (Ok tt, tokenized_world (logged w [EvExists token_map_file false])
                               input_file output_file token_map_file
                               header rows' st')).
Proof.
  intro Hmiss. split; [|split].
  - unfold detokenize_data, bind, log_and_reraise.
    now rewrite (read_token_map_missing _ _ Hmiss).
  - now apply tokenize_data_no_mapping.
  - intros Hgen Hin Hdiff Hfit Hdraws.
    destruct (tokenize_rows_total gen cols
                (map cells (DictReader_rows header lines)) [] (uuid_draws w))
      as (rows' & st' & Hrows).
    { destruct Hdraws as [->|[ND Hl]]; [now left|].
      destruct Hgen as [[_ ->]|[_ ->]]; [right | now left].
      split; [reflexivity|]. split; [|now rewrite length_map].
      split; [assumption | reflexivity]. }
    exists rows', st'. split; [assumption|].
    rewrite (tokenize_data_no_mapping _ _ _ _ _ _ Hmiss).
    pose proof (tokenize_with_run gen input_file output_file cols header lines
                  Hdiff Hfit token_method token_map_file []
                  (logged w [EvExists token_map_file false]) Hgen Hin) as Hrun.
    simpl in Hrun. now rewrite Hrows in Hrun.
Qed.

Lemma missing_mapping_file_witness :
  detokenize_data "in.csv" "out.csv" "token_map.csv" people_world
  = (Raise (FileNotFoundError "token_map.csv"),
     logged people_world [EvError "Token map file not found"]) /\
  fst (tokenize_data "in.csv" "out.csv" ["ssn"] "sequential" "token_map.csv"
                     people_world) = Ok tt.
Proof.
  destruct (missing_mapping_file
              "in.csv" "out.csv" ["ssn"] "sequential" "token_map.csv"
              people_world generate_sequential_token
              ["id"; "name"; "ssn"]
              [["1"; "Alice"; "111-22-3333"];
               ["2"; "Bob"; "444-55-6666"];
               ["3"; "Alice"; "777-88-9999"]] eq_refl)
    as (Hdetok & _ & Htok).
  split; [exact Hdetok|].
  destruct Htok as (rows' & st' & _ & Hrun).
  - right. split; reflexivity.
  - reflexivity.
  - discriminate.
  - repeat constructor.
  - now left.
  - rewrite Hrun. reflexivity.
Defined.

(* ================================================================== *)
(** * What a completed run has done to the mapping *)

Lemma run_tokenize_row_inv gen cols row tm w row' tm' w' :
  run_tokenize_row gen cols row tm w = (Ok (row', tm'), w') ->
  exists s,
    tokenize_row gen cols row (mk_tok_state tm (uuid_draws w) [])
    = Some (row', s) /\ tm' = token_map s.
Proof.
  unfold run_tokenize_row.
  destruct (tokenize_row gen cols row (mk_tok_state tm (uuid_draws w) []))
    as [[r1 s]|]; [|discriminate].
  unfold bind. rewrite emit_warnings_run. unfold ret.
  intros [= <- <- _]. now exists s.
Qed.

Lemma select_generator_inv (token_method : string) (gen : token_generator_t)
      (w w' : world) :
  select_generator token_method w = (Ok gen, w') ->
  generator_named token_method gen /\ w' = w.
Proof.
  unfold select_generator, generator_named.
  destruct (String.eqb token_method "uuid") eqn:E1.
  - apply String.eqb_eq in E1. intros [= <- <-]. auto.
  - destruct (String.eqb token_method "sequential") eqn:E2.
    + apply String.eqb_eq in E2. intros [= <- <-]. auto.
    + discriminate.
Qed.

Section CompletedRun.
Variable gen : token_generator_t.
Hypothesis gen_known : known_generator gen.

Lemma tokenize_loop_inv cols output_file fieldnames rows :
  forall tm w tm' w',
    tokenize_loop gen cols output_file fieldnames rows tm w = (Ok tm', w') ->
    grows tm tm' /\ (NoDup (keys tm) -> NoDup (keys tm')).
Proof.
  pose proof (known_generator_fresh gen gen_known) as Hfresh.
  induction rows as [|r rows IH]; intros tm w tm' w'; simpl.
  - intros [= <- _]. split; [apply grows_refl | auto].
  - intro H. apply bind_inv_Ok in H as ([r1 tm1] & w1 & Hrow & H).
    apply run_tokenize_row_inv in Hrow as (s & Hrow & ->).
    destruct (DictWriter_row fieldnames (mk_dict_row r1 (restkey r)))
      as [fields|e|]; try discriminate.
    apply bind_inv_Ok in H as ([] & w2 & _ & H).
    apply IH in H as [G ND]. split.
    + eapply grows_trans; [|eassumption].
      apply (tokenize_row_grows _ Hfresh _ _ _ _ _ Hrow).
    + intro ND0. apply ND.
      apply (tokenize_row_NoDup_keys _ Hfresh _ _ _ _ _ Hrow ND0).
Qed.

Lemma tokenize_body_inv input_file output_file cols tm w tm' w' :
  tokenize_body gen input_file output_file cols tm w = (Ok tm', w') ->
  grows tm tm' /\ (NoDup (keys tm) -> NoDup (keys tm')).
Proof.
  unfold tokenize_body. intro H. apply log_and_reraise_inv_Ok in H.
  apply bind_inv_Ok in H as ([] & w1 & _ & H).
  apply bind_inv_Ok in H as ([] & w2 & _ & H).
  apply bind_inv_Ok in H as (lines & w3 & _ & H).
  destruct (split_header lines) as [header rest].
  apply bind_inv_Ok in H as (fieldnames & w4 & _ & H).
  eapply tokenize_loop_inv; eassumption.
Qed.
End CompletedRun.

Lemma tokenize_with_inv tm input_file output_file cols token_method
      token_map_file w w' :
  tokenize_with tm input_file output_file cols token_method token_map_file w
  = (Ok tt, w') ->
  exists tm',
    grows tm tm' /\ (NoDup (keys tm) -> NoDup (keys tm')) /\
    dict_get (files w') token_map_file = Some (save_token_map tm').
Proof.
  unfold tokenize_with. intro H.
  apply bind_inv_Ok in H as (gen & w1 & Hsel & H).
  apply select_generator_inv in Hsel as [Hgen ->].
  apply bind_inv_Ok in H as (tm' & w2 & Hbody & H).
  apply (tokenize_body_inv gen (generator_named_known _ _ Hgen)) in Hbody
    as [G ND].
  rewrite write_token_map_run in H. injection H as <-.
  exists tm'. repeat split; try assumption. simpl. apply dict_get_set_same.
Qed.

(* ================================================================== *)
(** * Running [detokenize_data] *)

Section DetokenizeRun.
Variable M : token_map_t.
Variable output_file : string.
Variable fieldnames : list string.

Lemma detokenize_loop_run (rows : list dict_row) :
  Forall (plain fieldnames) rows ->
  Forall (fun r => forall c, In c fieldnames -> dict_mem c (cells r) = true)
         rows ->
  forall w old,
    dict_get (files w) output_file = Some old ->
    detokenize_loop M output_file fieldnames rows w =
    (Ok tt,
     mk_world (dict_set output_file
                 (old ++ map (fun r => render fieldnames
                                         (detokenized M fieldnames (cells r)))
                             rows)
                 (files w))
              (uuid_draws w) (trace w)).
Proof.
  induction 1 as [|r rows Hr Hrows IH]; intros Hcov w old Hold.
  - simpl. unfold ret. rewrite app_nil_r, dict_set_same_value by assumption.
    now destruct w.
  - inversion Hcov as [|? ? Hc Hcov']; subst. simpl.
    destruct (detokenize_row_spec M fieldnames (cells r) Hc)
      as (row' & Hrun & Hkeys & _).
    unfold detokenized at 1. rewrite Hrun.
    destruct Hr as [Hrest Hk]. rewrite Hrest.
    rewrite DictWriter_row_plain
      by (intros k Hin; apply Hk; now rewrite <- Hkeys).
    unfold bind, write_row. rewrite Hold.
    rewrite (IH Hcov' _ (old ++ [render fieldnames row'])); simpl.
    + now rewrite dict_set_set, <- app_assoc.
    + apply dict_get_set_same.
Qed.
End DetokenizeRun.

Lemma detokenize_with_run (M : token_map_t) (input_file output_file : string)
      (header : list string) (lines : csv_file) (w : world) :
  input_file <> output_file ->
  no_long_line header lines ->
  dict_get (files w) input_file = Some (header :: lines) ->
  detokenize_with M input_file output_file w =
  (Ok tt,
   mk_world (dict_set output_file
               (header :: map (fun r => render header
                                          (detokenized M header (cells r)))
                              (DictReader_rows header lines))
               (files w))
            (uuid_draws w)
            (trace w ++ [EvOpenRead input_file; EvOpenWrite output_file])).
Proof.
  intros Hdiff Hfit Hin. unfold detokenize_with. apply log_and_reraise_Ok.
  unfold bind at 1. unfold open_read. rewrite dict_get_mem, Hin.
  unfold bind at 1. unfold open_write. simpl.
  unfold bind at 1. unfold read_rows. simpl.
  rewrite dict_get_set_other by assumption. rewrite Hin. simpl.
  unfold bind at 1. unfold bind at 1. unfold write_row, ret. simpl.
  rewrite dict_get_set_same. simpl.
  rewrite (detokenize_loop_run M output_file header _
             (DictReader_rows_plain _ _ Hfit)
             (DictReader_rows_covered _ _) _ [header]); simpl.
  - now rewrite !dict_set_set, <- app_assoc.
  - apply dict_get_set_same.
Qed.

(* ================================================================== *)
(** * Reading back what was written *)

Lemma dict_ext {V} (d1 : dict V) : forall d2 : dict V,
  keys d1 = keys d2 ->
  NoDup (keys d1) ->
  (forall k, In k (keys d1) -> dict_get d1 k = dict_get d2 k) ->
  d1 = d2.
Proof.
  induction d1 as [|[k v] d1 IH]; intros [|[k' v'] d2] Hk ND Hget;
    try discriminate; [reflexivity|].
  simpl in Hk. injection Hk as <- Hk.
  inversion ND as [|? ? Hnin ND']; subst.
  pose proof (Hget k (or_introl eq_refl)) as H0. simpl in H0.
  rewrite String.eqb_refl in H0. injection H0 as <-.
  f_equal. apply IH; try assumption.
  intros k0 Hk0. specialize (Hget k0 (or_intror Hk0)). simpl in Hget.
  destruct (String.eqb k0 k) eqn:E; [|assumption].
  apply String.eqb_eq in E. subst. contradiction.
Qed.

Lemma keys_dict_update_fst {V W} (kvs1 : list (string * V)) :
  forall (kvs2 : list (string * W)) (d1 : dict V) (d2 : dict W),
    map fst kvs1 = map fst kvs2 -> keys d1 = keys d2 ->
    keys (dict_update d1 kvs1) = keys (dict_update d2 kvs2).
Proof.
  unfold dict_update.
  induction kvs1 as [|[k v] kvs1 IH]; intros [|[k' v'] kvs2] d1 d2 Hf Hk;
    try discriminate; simpl; [assumption|].
  simpl in Hf. injection Hf as <- Hf. apply IH; [assumption|].
  rewrite !keys_dict_set.
  assert (Hm : dict_mem k d1 = dict_mem k d2).
  { destruct (dict_mem k d1) eqn:E1, (dict_mem k d2) eqn:E2; try reflexivity.
    - apply dict_mem_In in E1. rewrite Hk in E1. apply dict_mem_In in E1.
      congruence.
    - apply dict_mem_In in E2. rewrite <- Hk in E2. apply dict_mem_In in E2.
      congruence. }
  rewrite Hm, Hk. reflexivity.
Qed.

(** Assigning, for each name of a list, a value computed from the name. *)
Lemma dict_get_update_fun {V} (f : string -> V) (names : list string) :
  forall (d : dict V) k,
    dict_get (dict_update d (map (fun key => (key, f key)) names)) k =
    if in_dec string_dec k names then Some (f k) else dict_get d k.
Proof.
  unfold dict_update.
  induction names as [|n names IH]; intros d k; simpl; [reflexivity|].
  rewrite IH. destruct (in_dec string_dec k names) as [Hin|Hnin].
  - destruct (string_dec n k); reflexivity.
  - rewrite dict_get_set. destruct (string_dec n k) as [->|Hne].
    + now rewrite String.eqb_refl.
    + destruct (String.eqb k n) eqn:E; [|reflexivity].
      apply String.eqb_eq in E. congruence.
Qed.

Lemma combine_map_self {A B} (f : A -> B) (l : list A) :
  combine l (map f l) = map (fun x => (x, f x)) l.
Proof. induction l as [|x l IH]; simpl; [reflexivity | now rewrite IH]. Qed.

Lemma render_length (fieldnames : list string) (row : dict pyval) :
  length (render fieldnames row) = length fieldnames.
Proof. unfold render. apply length_map. Qed.

(** The cells of the record read from a printed record. *)
Lemma reread_get (fieldnames : list string) (row : dict pyval) (k : string) :
  dict_get (cells (DictReader_row fieldnames (render fieldnames row))) k =
  if in_dec string_dec k fieldnames
  then Some (PyStr (match dict_get row k with
                    | Some v => csv_field v
                    | None => ""
                    end))
  else None.
Proof.
  unfold DictReader_row. rewrite render_length, Nat.ltb_irrefl. simpl.
  unfold render. rewrite map_map, combine_map_self.
  now rewrite (dict_get_update_fun
                 (fun key => PyStr match dict_get row key with
                                   | Some v => csv_field v
                                   | None => ""
                                   end)).
Qed.

Lemma DictReader_row_keys_eq (fieldnames l1 l2 : list string) :
  length l1 = length fieldnames -> length l2 = length fieldnames ->
  keys (cells (DictReader_row fieldnames l1)) =
  keys (cells (DictReader_row fieldnames l2)).
Proof.
  intros H1 H2. unfold DictReader_row.
  rewrite H1, H2, Nat.ltb_irrefl. simpl.
  apply keys_dict_update_fst; [|reflexivity].
  rewrite !map_fst_combine, !length_map, H1, H2. reflexivity.
Qed.

Lemma DictReader_row_NoDup (fieldnames line : list string) :
  NoDup (keys (cells (DictReader_row fieldnames line))).
Proof.
  unfold DictReader_row.
  destruct (Nat.ltb (length fieldnames) (length line)); simpl;
    [apply NoDup_keys_update; constructor|].
  destruct (Nat.ltb (length line) (length fieldnames)); simpl;
    repeat apply NoDup_keys_update; constructor.
Qed.

Lemma str_valued_get (row : dict pyval) (k : string) (v : pyval) :
  str_valued row -> dict_get row k = Some v -> PyStr (csv_field v) = v.
Proof.
  intros Hs Hget. apply dict_get_In in Hget.
  unfold str_valued in Hs. rewrite Forall_forall in Hs.
  assert (Hv : is_str v).
  { apply Hs. change v with (snd (k, v)). now apply in_map. }
  now destruct v.
Qed.

(** A record with string cells and the keys of a record of the file is read
    back from its printed form as it was. *)
Lemma reread_row (fieldnames line : list string) (row : dict pyval) :
  length line = length fieldnames ->
  keys row = keys (cells (DictReader_row fieldnames line)) ->
  str_valued row ->
  DictReader_row fieldnames (render fieldnames row) = mk_dict_row row None.
Proof.
  intros Hlen Hkeys Hstr.
  assert (Hrest : restkey (DictReader_row fieldnames (render fieldnames row))
                  = None).
  { apply DictReader_row_restkey. rewrite render_length. lia. }
  assert (Hcells : cells (DictReader_row fieldnames (render fieldnames row))
                   = row).
  { apply dict_ext.
    - rewrite Hkeys. apply DictReader_row_keys_eq; [|assumption].
      apply render_length.
    - apply DictReader_row_NoDup.
    - intros k Hk. rewrite reread_get.
      apply DictReader_row_keys in Hk.
      destruct (in_dec string_dec k fieldnames) as [_|Hn]; [|contradiction].
      assert (Hm : dict_mem k row = true).
      { apply dict_mem_In. rewrite Hkeys. apply dict_mem_In.
        now apply DictReader_row_covers. }
      rewrite dict_get_mem in Hm.
      destruct (dict_get row k) as [v|] eqn:G; [|discriminate].
      f_equal. eapply str_valued_get; eassumption. }
  destruct (DictReader_row fieldnames (render fieldnames row)) as [c r].
  simpl in *. now subst.
Qed.

(* ================================================================== *)
(** * Tokenize, then detokenize *)

Lemma str_valued_dict_set (k : string) (v : pyval) (d : dict pyval) :
  is_str v -> str_valued d -> str_valued (dict_set k v d).
Proof. destruct v as [s|]; [intros _ | contradiction]. apply str_valued_set. Qed.

Lemma str_valued_lookup (M : token_map_t) (x : pyval) :
  str_valued M -> is_str x -> is_str (lookup_once M x).
Proof.
  intros HM Hx. destruct x as [s|]; [|contradiction]. simpl.
  destruct (dict_get M s) as [v|] eqn:G; [|exact I].
  apply dict_get_In in G. unfold str_valued in HM.
  rewrite Forall_forall in HM. apply HM.
  change v with (snd (s, v)). now apply in_map.
Qed.

Lemma str_valued_is_str (row : dict pyval) (k : string) (v : pyval) :
  str_valued row -> dict_get row k = Some v -> is_str v.
Proof.
  intros Hs G. apply dict_get_In in G. unfold str_valued in Hs.
  rewrite Forall_forall in Hs. apply Hs.
  change v with (snd (k, v)). now apply in_map.
Qed.

Lemma detokenize_row_str_valued (M : token_map_t) (fieldnames : list string) :
  str_valued M ->
  forall row row',
    str_valued row -> detokenize_row M fieldnames row = Ok row' ->
    str_valued row'.
Proof.
  intro HM.
  induction fieldnames as [|c fns IH]; intros row row' Hrow; simpl.
  - now intros [= <-].
  - unfold detokenize_column.
    destruct (dict_get row c) as [[s|]|] eqn:G; try discriminate.
    + destruct (dict_get M s) as [v|] eqn:GM.
      * apply IH. apply str_valued_dict_set; [|assumption].
        exact (str_valued_is_str M s v HM GM).
      * now apply IH.
    + now apply IH.
Qed.

Lemma detokenized_str_valued (M : token_map_t) (fieldnames : list string)
      (row : dict pyval) :
  str_valued M -> str_valued row ->
  str_valued (detokenized M fieldnames row).
Proof.
  intros HM Hrow. unfold detokenized.
  destruct (detokenize_row M fieldnames row) as [row'| |] eqn:E;
    try assumption.
  exact (detokenize_row_str_valued M fieldnames HM row row' Hrow E).
Qed.

Lemma detokenized_spec (M : token_map_t) (fieldnames : list string)
      (row : dict pyval) :
  (forall c, In c fieldnames -> dict_mem c row = true) ->
  keys (detokenized M fieldnames row) = keys row /\
  forall c, dict_get (detokenized M fieldnames row) c =
            option_map (Nat.iter (count_occ string_dec fieldnames c)
                                 (lookup_once M))
                       (dict_get row c).
Proof.
  intro H. destruct (detokenize_row_spec M fieldnames row H)
    as (row' & Hrun & Hk & Hc).
  unfold detokenized. rewrite Hrun. auto.
Qed.

Lemma iter_fixed {A} (f : A -> A) (x : A) (n : nat) :
  f x = x -> Nat.iter n f x = x.
Proof. intro H. induction n as [|n IH]; simpl; [reflexivity | congruence]. Qed.

Lemma dict_update_origin (kvs : list (string * string)) :
  forall (d : dict pyval) k v,
    dict_get (dict_update d (map (fun kv => (fst kv, PyStr (snd kv))) kvs)) k
    = Some v ->
    dict_get d k = Some v \/ exists s, v = PyStr s /\ In s (map snd kvs).
Proof.
  unfold dict_update.
  induction kvs as [|[k0 s0] kvs IH]; intros d k v H; simpl in *; [now left|].
  apply IH in H as [H|(s & ? & ?)]; [|right; exists s; auto].
  rewrite dict_get_set in H. destruct (String.eqb k k0); [|now left].
  injection H as <-. right. exists s0. auto.
Qed.

Lemma DictReader_row_origin (fieldnames line : list string) (c : string)
      (v : pyval) :
  length line = length fieldnames ->
  dict_get (cells (DictReader_row fieldnames line)) c = Some v ->
  exists s, v = PyStr s /\ In s line.
Proof.
  intros Hlen H. unfold DictReader_row in H.
  rewrite Hlen, Nat.ltb_irrefl in H. simpl in H.
  rewrite combine_map_r in H.
  apply dict_update_origin in H as [H|(s & -> & Hs)]; [discriminate|].
  exists s. split; [reflexivity|].
  apply in_map_iff in Hs as ([a b] & <- & Hin). simpl.
  eapply in_combine_r; eassumption.
Qed.

Section Roundtrip.
Variable M : token_map_t.
Variable header : list string.
Variable cols : list string.
Hypothesis M_keys : NoDup (keys M).
Hypothesis M_str : str_valued M.

(** The printed records of a pass are read back as they were. *)
Lemma reread_rows (lines : csv_file) : forall rows',
  rectangular header lines ->
  Forall2 (fun r0 r' => keys r' = keys r0)
          (map cells (DictReader_rows header lines)) rows' ->
  Forall str_valued rows' ->
  DictReader_rows header (map (render header) rows')
  = map (fun row' => mk_dict_row row' None) rows'.
Proof.
  unfold DictReader_rows.
  induction lines as [|line lines IH]; intros rows' Hrect HF Hstr.
  - simpl in HF. inversion HF. reflexivity.
  - inversion Hrect as [|? ? Hl Hrect']; subst.
    destruct line as [|x line]; simpl in HF; [now apply IH|].
    destruct Hl as [Hl|Hl]; [discriminate|].
    inversion HF as [|r0 r' rs0 rs' Hk HF']; subst.
    inversion Hstr as [|? ? Hs Hstr']; subst.
    simpl.
    assert (Hnb : is_blank (render header r') = false).
    { pose proof (render_length header r') as Hr.
      destruct (render header r'); [|reflexivity].
      simpl in Hr, Hl. rewrite <- Hr in Hl. discriminate. }
    rewrite Hnb. simpl. f_equal.
    + now apply (reread_row header (x :: line)).
    + now apply IH.
Qed.

(** Detokenizing the records of a pass restores the configured cells. *)
Lemma detokenize_restores (lines : csv_file) : forall rows',
  rectangular header lines ->
  collision_free M lines ->
  Forall2 (tokenized_as cols M)
          (map cells (DictReader_rows header lines)) rows' ->
  agree_on cols (DictReader_rows header lines)
           (map (fun row' => mk_dict_row (detokenized M header row') None)
                rows').
Proof.
  unfold DictReader_rows, agree_on.
  induction lines as [|line lines IH]; intros rows' Hrect Hcf HF.
  - simpl in HF. inversion HF. constructor.
  - inversion Hrect as [|? ? Hl Hrect']; subst.
    assert (Hcf' : collision_free M lines).
    { intros l v u Hin. apply Hcf. now right. }
    destruct line as [|x line]; simpl in HF; [now apply IH|].
    destruct Hl as [Hl|Hl]; [discriminate|].
    inversion HF as [|r0 r' rs0 rs' Htok HF']; subst.
    simpl. constructor; [|now apply IH].
    intros c Hc. simpl.
    destruct Htok as (Hkeys & _ & Hcells). specialize (Hcells c Hc).
    assert (Hcov : forall c0, In c0 header -> dict_mem c0 r' = true).
    { intros c0 Hc0. apply dict_mem_In. rewrite Hkeys. apply dict_mem_In.
      now apply DictReader_row_covers. }
    destruct (detokenized_spec M header r' Hcov) as [_ Hget].
    rewrite Hget.
    destruct (dict_get (cells (DictReader_row header (x :: line))) c)
      as [v|] eqn:G.
    + destruct Hcells as (t & Ht & Hfind). rewrite Ht. simpl. f_equal.
      assert (Hin : In c header).
      { apply (DictReader_row_keys header (x :: line)).
        apply dict_mem_In. rewrite dict_get_mem. now rewrite G. }
      destruct (count_occ string_dec header c) as [|n] eqn:Hn.
      { apply count_occ_not_In in Hn. contradiction. }
      rewrite Nat.iter_succ_r.
      assert (Hback : lookup_once M (PyStr t) = v).
      { simpl. now rewrite (find_token_get M v t M_keys Hfind). }
      rewrite Hback. apply iter_fixed.
      destruct (DictReader_row_origin _ _ _ _ Hl G) as (s & -> & Hs).
      simpl. destruct (dict_get M s) as [u|] eqn:GM; [|reflexivity].
      apply (Hcf (x :: line) s u); auto. now left.
    + now rewrite Hcells.
Qed.
End Roundtrip.

Lemma detokenized_keys_rows (M : token_map_t) (header : list string)
      (rs : list dict_row) :
  Forall (fun r => forall c, In c header -> dict_mem c (cells r) = true) rs ->
  forall rows',
    Forall2 (fun r0 r' => keys r' = keys r0) (map cells rs) rows' ->
    Forall2 (fun r0 r' => keys r' = keys r0) (map cells rs)
            (map (detokenized M header) rows').
Proof.
  induction 1 as [|r rs Hc Hcov IH]; intros rows' HF; simpl in *.
  - inversion HF. constructor.
  - inversion HF as [|r0 r' rs0 rs' Hk HF']; subst. simpl.
    constructor; [|now apply IH].
    destruct (detokenized_spec M header r') as [Hk2 _]; [|congruence].
    intros c Hin. apply dict_mem_In. rewrite Hk. apply dict_mem_In.
    now apply Hc.
Qed.

Lemma tokenize_with_generator tm input_file output_file cols token_method
      token_map_file w w' :
  tokenize_with tm input_file output_file cols token_method token_map_file w
  = (Ok tt, w') ->
  exists gen, generator_named token_method gen.
Proof.
  unfold tokenize_with. intro H.
  apply bind_inv_Ok in H as (gen & w1 & Hsel & _).
  apply select_generator_inv in Hsel as [Hgen _]. now exists gen.
Qed.

Lemma render_rows_fit (header : list string) (rows : list (dict pyval)) :
  no_long_line header (map (render header) rows).
Proof.
  unfold no_long_line. apply Forall_map, Forall_forall.
  intros row _. now rewrite render_length.
Qed.

Lemma render_rows_rectangular (header : list string)
      (rows : list (dict pyval)) :
  rectangular header (map (render header) rows).
Proof.
  unfold rectangular. apply Forall_map, Forall_forall.
  intros row _. right. apply render_length.
Qed.

Lemma Forall2_keys_tokenized (cols : list string) (M : token_map_t)
      (rows rows' : list (dict pyval)) :
  Forall2 (tokenized_as cols M) rows rows' ->
  Forall2 (fun r0 r' => keys r' = keys r0) rows rows'.
Proof.
  induction 1 as [|r r' rs rs' H HF IH]; constructor; [apply H | assumption].
Qed.

(** C1: let [tokenize_data] complete on an input whose lines have one field
    per column, for a list of configured columns without repetition, and let
    no key of the saved mapping be equal to a field of the input that it does
    not stand for.  Then [detokenize_data], run on the output with the same
    mapping file, completes, and the records of the file it writes agree with
    the records of the input on every configured column. *)
Theorem detokenize_tokenize_roundtrip
        (input_file output_file restored_file token_map_file : string)
        (cols : list string) (token_method : string)
        (header : list string) (lines : csv_file) (w w1 : world) :
  dict_get (files w) input_file = Some (header :: lines) ->
  rectangular header lines ->
  NoDup cols ->
  input_file <> output_file ->
  output_file <> token_map_file ->
  output_file <> restored_file ->
  tokenize_data input_file output_file cols token_method token_map_file w
  = (Ok tt, w1) ->
  collision_free (fst (load_token_map (content w1 token_map_file) [])) lines ->
  exists w2 restored,
    detokenize_data output_file restored_file token_map_file w1 = (Ok tt, w2) /\
    dict_get (files w2) restored_file = Some (header :: restored) /\
    agree_on cols (DictReader_rows header lines)
             (DictReader_rows header restored).
Proof.
  intros Hin Hrect NDc Hio Hof Hor Hrun Hcf.
  rewrite tokenize_data_start in Hrun.
  set (tm0 := fst (load_token_map (content w token_map_file) [])) in *.
  set (w0 := logged w (load_events w token_map_file)) in *.
  destruct (tokenize_with_generator _ _ _ _ _ _ _ _ Hrun) as [gen Hgen].
  pose proof (known_generator_fresh gen (generator_named_known _ _ Hgen))
    as Hfresh.
  pose proof (tokenize_with_run gen input_file output_file cols header lines
                Hio (rectangular_no_long_line _ _ Hrect)
                token_method token_map_file tm0 w0 Hgen Hin) as Hfwd.
  destruct (tokenize_rows gen cols (map cells (DictReader_rows header lines))
                          (mk_tok_state tm0 (uuid_draws w0) []))
    as [[rows' st']|] eqn:Hrows.
  2:{ rewrite Hrun in Hfwd. discriminate. }
  rewrite Hfwd in Hrun. injection Hrun as <-.
  set (M := token_map st') in *.
  (* the mapping and the records that the pass leaves *)
  assert (HMk : NoDup (keys M)).
  { apply (tokenize_rows_NoDup_keys _ Hfresh _ _ _ _ _ Hrows). simpl.
    apply load_token_map_NoDup. constructor. }
  assert (Hstr : Forall str_valued rows' /\ str_valued M).
  { apply (tokenize_rows_str_valued _ Hfresh _ _ _ _ _ Hrows).
    - now apply DictReader_rows_str_valued.
    - simpl. apply load_token_map_str_valued. constructor. }
  destruct Hstr as [Hrs HMs].
  pose proof (tokenize_rows_tokenized_as _ Hfresh _ _ _ _ _ NDc Hrows) as Htok.
  fold M in Htok.
  (* the files that the pass leaves *)
  set (w1 := tokenized_world w0 input_file output_file token_map_file header
                             rows' st') in *.
  assert (Hmapfile : dict_get (files w1) token_map_file
                     = Some (save_token_map M)) by apply dict_get_set_same.
  assert (Hout : dict_get (files w1) output_file
                 = Some (header :: map (render header) rows')).
  { unfold w1, tokenized_world. simpl.
    rewrite dict_get_set_other by assumption. apply dict_get_set_same. }
  assert (Hload : load_token_map (save_token_map M) [] = (M, []))
    by now apply load_save.
  unfold content in Hcf. rewrite Hmapfile, Hload in Hcf. simpl in Hcf.
  (* the run of the detokenizer *)
  rewrite (detokenize_data_loads _ _ _ _ _ Hmapfile). rewrite Hload. simpl.
  rewrite (detokenize_with_run M output_file restored_file header
             (map (render header) rows')
             (logged w1 [EvOpenRead token_map_file]) Hor
             (render_rows_fit header rows') Hout).
  rewrite (reread_rows header lines rows' Hrect
             (Forall2_keys_tokenized _ _ _ _ Htok) Hrs).
  rewrite map_map. simpl.
  eexists. eexists. split; [reflexivity|]. split.
  - simpl. apply dict_get_set_same.
  - rewrite <- (map_map (detokenized M header) (render header)).
    rewrite (reread_rows header lines (map (detokenized M header) rows') Hrect).
    + rewrite map_map. unfold agree_on.
      now apply (detokenize_restores M header cols HMk lines rows').
    + apply detokenized_keys_rows; [apply DictReader_rows_covered|].
      apply (Forall2_keys_tokenized _ _ _ _ Htok).
    + apply Forall_map. revert Hrs. apply Forall_impl.
      intros row Hrow. now apply detokenized_str_valued.
Qed.

Lemma detokenize_tokenize_roundtrip_witness :
  exists w2 restored,
    detokenize_data "out.csv" "back.csv" "map.csv"
      (snd (tokenize_data "in.csv" "out.csv" ["ssn"; "name"] "uuid" "map.csv"
                          uuid_world)) = (Ok tt, w2) /\
    dict_get (files w2) "back.csv"
    = Some (["id"; "name"; "ssn"] :: restored) /\
    agree_on ["ssn"; "name"]
             (DictReader_rows ["id"; "name"; "ssn"]
                              [["1"; "Alice"; "111-22-3333"];
                               ["2"; "Bob"; "444-55-6666"];
                               ["3"; "Alice"; "111-22-3333"]])
             (DictReader_rows ["id"; "name"; "ssn"] restored).
Proof.
  apply (detokenize_tokenize_roundtrip
           "in.csv" "out.csv" "back.csv" "map.csv" ["ssn"; "name"] "uuid"
           ["id"; "name"; "ssn"]
           [["1"; "Alice"; "111-22-3333"];
            ["2"; "Bob"; "444-55-6666"];
            ["3"; "Alice"; "111-22-3333"]]
           uuid_world).
  - reflexivity.
  - repeat constructor; right; reflexivity.
  - repeat constructor; simpl; intuition discriminate.
  - discriminate.
  - discriminate.
  - discriminate.
  - vm_compute. reflexivity.
  - intros line value u Hline Hvalue.
    vm_compute.
    destruct Hline as [<-|[<-|[<-|[]]]];
      repeat (destruct Hvalue as [<-|Hvalue]); try contradiction;
        discriminate.
Defined.

(* ================================================================== *)
(** * The scenarios of the specification *)

(** Columns [id,name,ssn], three rows, column [ssn] tokenized with the
    sequential strategy on an empty mapping. *)
Example scenario_sequential :
  let w := snd (tokenize_data "in.csv" "out.csv" ["ssn"] "sequential"
                              "token_map.csv" people_world) in
  dict_get (files w) "out.csv"
  = Some [["id"; "name"; "ssn"];
          ["1"; "Alice"; "1"]; ["2"; "Bob"; "2"]; ["3"; "Alice"; "3"]] /\
  dict_get (files w) "token_map.csv"
  = Some [["1"; "111-22-3333"]; ["2"; "444-55-6666"]; ["3"; "777-88-9999"]].
Proof. vm_compute. split; reflexivity. Qed.

(** A column that the header does not have: one warning per row, the rows
    unchanged, the run completes. *)
Example scenario_absent_column :
  tokenize_data "in.csv" "out.csv" ["zip"] "uuid" "token_map.csv" people_world
  = (Ok tt,
     mk_world
       [("in.csv", content people_world "in.csv");
        ("out.csv", content people_world "in.csv");
        ("token_map.csv", [])]
       []
       [EvExists "token_map.csv" false; EvOpenRead "in.csv";
        EvOpenWrite "out.csv";
        EvWarning (ColumnNotFound "zip"); EvWarning (ColumnNotFound "zip");
        EvWarning (ColumnNotFound "zip"); EvOpenWrite "token_map.csv"]).
Proof. vm_compute. reflexivity. Qed.

(* ================================================================== *)
(** * Further properties: the mapping file *)

Lemma as_saved_keys (m : token_map_t) : keys (as_saved m) = keys m.
Proof.
  unfold as_saved, keys. rewrite map_map. apply map_ext. now intros [k v].
Qed.

Lemma as_saved_str_valued (m : token_map_t) : str_valued (as_saved m).
Proof.
  unfold str_valued, values, as_saved. rewrite map_map.
  apply Forall_map, Forall_forall. intros [k v] _. exact I.
Qed.

Lemma save_as_saved (m : token_map_t) :
  save_token_map (as_saved m) = save_token_map m.
Proof.
  unfold save_token_map, as_saved. rewrite map_map. apply map_ext.
  now intros [k [s|]].
Qed.

Lemma as_saved_str (m : token_map_t) : str_valued m -> as_saved m = m.
Proof.
  unfold str_valued, values, as_saved.
  induction m as [|[k v] m IH]; simpl; intro H; [reflexivity|].
  inversion H as [|? ? Hv Hm]; subst. rewrite (IH Hm).
  now destruct v.
Qed.

(** X1: saving a mapping and loading the file again gives the same tokens in
    the same order, each with the value it had, except that a value [None]
    comes back as the empty string; a mapping whose values are strings comes
    back unchanged, and without a warning. *)
Theorem mapping_save_load (m : token_map_t) :
  NoDup (keys m) ->
  load_token_map (save_token_map m) [] = (as_saved m, []) /\
  (str_valued m -> load_token_map (save_token_map m) [] = (m, [])).
Proof.
  intro ND.
  assert (H : load_token_map (save_token_map m) [] = (as_saved m, [])).
  { rewrite <- save_as_saved. apply load_save.
    - now rewrite as_saved_keys.
    - apply as_saved_str_valued. }
  split; [exact H|]. intro Hs. now rewrite H, as_saved_str.
Qed.

Lemma mapping_save_load_witness :
  load_token_map
    (save_token_map [("1", PyStr "alice"); ("2", PyNone)]) []
  = ([("1", PyStr "alice"); ("2", PyStr "")], []).
Proof.
  refine (proj1 (mapping_save_load [("1", PyStr "alice"); ("2", PyNone)] _)).
  repeat constructor; simpl; intuition discriminate.
Defined.

Lemma load_rows_app (rows : csv_file) : forall acc,
  Forall (fun r => two_fields r = true) rows ->
  NoDup (keys acc ++ map token_of_row rows) ->
  load_token_map rows acc =
  (acc ++ fst (load_token_map rows []), []) /\
  save_token_map (fst (load_token_map rows [])) = rows.
Proof.
  induction rows as [|r rows IH]; intros acc Hall ND.
  - simpl. now rewrite app_nil_r.
  - inversion Hall as [|? ? Hr Hrows]; subst.
    destruct r as [|a [|b [|c r]]]; try discriminate. simpl in ND |- *.
    assert (Hfresh : dict_mem a acc = false).
    { apply dict_mem_false. intro Hin.
      apply NoDup_remove_2 in ND. apply ND. apply in_or_app. now left. }
    rewrite (dict_set_fresh a (PyStr b) acc Hfresh).
    destruct (IH (acc ++ [(a, PyStr b)]) Hrows) as [H1 H2].
    { unfold keys. rewrite map_app. simpl. rewrite <- app_assoc. exact ND. }
    destruct (IH [(a, PyStr b)] Hrows) as [H3 _].
    { simpl. apply NoDup_remove_1 in ND as ND1.
      apply NoDup_remove_2 in ND as ND2.
      constructor.
      - intro Hin. apply ND2. apply in_or_app. now right.
      - now apply NoDup_app_remove_l in ND1. }
    rewrite H1, H3. simpl. split.
    + now rewrite <- app_assoc.
    + now rewrite H2.
Qed.

(** X2: a mapping file in which every row has two fields and no token
    occurs twice is loaded without a warning, row by row in order, and saving
    the loaded mapping writes the same file again. *)
Theorem mapping_load_save (rows : csv_file) :
  Forall (fun r => two_fields r = true) rows ->
  NoDup (map token_of_row rows) ->
  snd (load_token_map rows []) = [] /\
  keys (fst (load_token_map rows [])) = map token_of_row rows /\
  save_token_map (fst (load_token_map rows [])) = rows.
Proof.
  intros Hall ND. destruct (load_rows_app rows [] Hall ND) as [H1 H2].
  split; [now rewrite H1|]. split; [|exact H2].
  rewrite <- H2 at 2. unfold save_token_map, keys. rewrite map_map.
  reflexivity.
Qed.

Lemma mapping_load_save_witness :
  save_token_map (fst (load_token_map [["1"; "alice"]; ["2"; "bob"]] []))
  = [["1"; "alice"]; ["2"; "bob"]].
Proof.
  refine (proj2 (proj2 (mapping_load_save [["1"; "alice"]; ["2"; "bob"]] _ _))).
  - repeat constructor.
  - repeat constructor; simpl; intuition discriminate.
Defined.

(* ================================================================== *)
(** * Further properties: the generators *)

(** X3: in a pass with either strategy that starts from a mapping with
    pairwise distinct keys, two values that are replaced by the same token
    are the same value: distinct values never share a token. *)
Theorem distinct_values_distinct_tokens
        (gen : token_generator_t) (cols : list string)
        (rows : list (dict pyval)) (st : tok_state)
        (rows' : list (dict pyval)) (st' : tok_state)
        (v1 v2 : pyval) (t : string) :
  known_generator gen ->
  NoDup cols ->
  NoDup (keys (token_map st)) ->
  tokenize_rows gen cols rows st = Some (rows', st') ->
  cell_token cols rows rows' v1 t ->
  cell_token cols rows rows' v2 t ->
  v1 = v2.
Proof.
  intros Hg NDc NDk Hrun H1 H2.
  pose proof (known_generator_fresh gen Hg) as Hfresh.
  pose proof (tokenize_rows_tokenized_as _ Hfresh _ _ _ _ _ NDc Hrun) as Htok.
  pose proof (tokenize_rows_NoDup_keys _ Hfresh _ _ _ _ _ Hrun NDk) as NDk'.
  apply (cell_token_find _ _ _ _ _ _ Htok) in H1, H2.
  apply (find_token_get _ _ _ NDk') in H1, H2. congruence.
Qed.

Lemma distinct_values_distinct_tokens_witness :
  PyStr "a" = PyStr "a".
Proof.
  apply (distinct_values_distinct_tokens
           generate_sequential_token ["c"]
           [[("c", PyStr "a")]; [("c", PyStr "b")]; [("c", PyStr "a")]]
           (mk_tok_state [] [] [])
           [[("c", PyStr "1")]; [("c", PyStr "2")]; [("c", PyStr "1")]]
           (mk_tok_state [("1", PyStr "a"); ("2", PyStr "b")] [] [])
           (PyStr "a") (PyStr "a") "1").
  - now right.
  - repeat constructor; simpl; tauto.
  - constructor.
  - reflexivity.
  - exists 0, [("c", PyStr "a")], [("c", PyStr "1")], "c". simpl. tauto.
  - exists 2, [("c", PyStr "a")], [("c", PyStr "1")], "c". simpl. tauto.
Defined.

(** X4: the lookup that [tokenize_data] makes before it calls the generator
    changes nothing: on a mapping with distinct keys, assigning a token to a
    value is the same as calling the generator and storing the token it
    returns under the value. *)
Theorem generator_then_store
        (gen : token_generator_t) (v : pyval) (m : token_map_t)
        (d : list string) :
  known_generator gen ->
  NoDup (keys m) ->
  tokenize_value gen v m d =
  match gen v m d with
  | Some (token, d') => Some (token, dict_set token v m, d')
  | None => None
  end.
Proof.
  intros Hg ND. unfold tokenize_value.
  destruct (find_token m v) as [t|] eqn:F; [|reflexivity].
  assert (Hgen : gen v m d = Some (t, d)).
  { destruct Hg as [->| ->];
      [unfold generate_uuid_token | unfold generate_sequential_token];
      now rewrite F. }
  rewrite Hgen. rewrite dict_set_same_value; [reflexivity|].
  now apply find_token_get.
Qed.

Lemma generator_then_store_witness :
  tokenize_value generate_uuid_token (PyStr "a")
                 [("u1", PyStr "a"); ("u2", PyStr "b")] ["u3"]
  = Some ("u1", [("u1", PyStr "a"); ("u2", PyStr "b")], ["u3"]).
Proof.
  rewrite (generator_then_store generate_uuid_token (PyStr "a")
             [("u1", PyStr "a"); ("u2", PyStr "b")] ["u3"]).
  - reflexivity.
  - now left.
  - repeat constructor; simpl; intuition discriminate.
Defined.

Lemma uuid_redraw_first (m : token_map_t) (draws : list string) :
  forall token,
    match uuid_redraw m token draws with
    | Some (token', rest) =>
        exists skipped,
          token :: draws = skipped ++ token' :: rest /\
          Forall (fun x => dict_mem x m = true) skipped /\
          dict_mem token' m = false
    | None => Forall (fun x => dict_mem x m = true) (token :: draws)
    end.
Proof.
  induction draws as [|x draws IH]; intro token; simpl;
    destruct (dict_mem token m) eqn:E.
  - repeat constructor. assumption.
  - exists []. repeat split; [constructor | assumption].
  - specialize (IH x).
    destruct (uuid_redraw m x draws) as [[t' rest]|].
    + destruct IH as (skipped & Heq & Hsk & Hfresh).
      exists (token :: skipped). simpl. rewrite Heq.
      repeat split; [constructor|]; assumption.
    + constructor; assumption.
  - exists []. repeat split; [constructor | assumption].
Qed.

(** X5: for a value without a token, the random generator returns the first
    of the identifiers to come that is not a key of the mapping, and leaves
    the identifiers after it; it keeps drawing for ever exactly when every
    identifier to come is a key. *)
Theorem uuid_token_is_first_unused
        (v : pyval) (m : token_map_t) (draws : list string) :
  find_token m v = None ->
  match generate_uuid_token v m draws with
  | Some (token, rest) =>
      exists skipped,
        draws = skipped ++ token :: rest /\
        Forall (fun x => dict_mem x m = true) skipped /\
        dict_mem token m = false
  | None => Forall (fun x => dict_mem x m = true) draws
  end.
Proof.
  intro F. unfold generate_uuid_token. rewrite F.
  destruct draws as [|x draws]; [constructor|].
  apply uuid_redraw_first.
Qed.

Lemma uuid_token_is_first_unused_witness :
  exists skipped,
    ["u1"; "u2"; "u3"; "u4"] = skipped ++ "u3" :: ["u4"] /\
    Forall (fun x => dict_mem x [("u1", PyStr "a"); ("u2", PyStr "b")] = true)
           skipped /\
    dict_mem "u3" [("u1", PyStr "a"); ("u2", PyStr "b")] = false.
Proof.
  exact (uuid_token_is_first_unused
           (PyStr "c") [("u1", PyStr "a"); ("u2", PyStr "b")]
           ["u1"; "u2"; "u3"; "u4"] eq_refl).
Defined.

Lemma next_id_loop_bound (m : token_map_t) (fuel : nat) :
  forall next_id n,
    next_id_loop fuel next_id m = Some n -> n < next_id + fuel.
Proof.
  induction fuel as [|fuel IH]; intros next_id n; simpl; [discriminate|].
  destruct (dict_mem (py_str next_id) m).
  - intro H. apply IH in H. lia.
  - intros [= <-]. lia.
Qed.

(** X6: for a value without a token, the sequential generator always
    returns, without touching the random source, the string of a number
    between 1 and one more than the number of entries of the mapping. *)
Theorem sequential_token_bound
        (v : pyval) (m : token_map_t) (draws : list string) :
  find_token m v = None ->
  exists n,
    generate_sequential_token v m draws = Some (py_str n, draws) /\
    1 <= n <= S (length m) /\
    dict_mem (py_str n) m = false.
Proof.
  intro F. unfold generate_sequential_token. rewrite F.
  destruct (next_id_loop_total m 1 (S (length m))) as [n E]; [lia|].
  rewrite E. exists n. split; [reflexivity|].
  pose proof (next_id_loop_bound _ _ _ _ E).
  apply next_id_loop_spec in E as (Hle & Hn & _).
  repeat split; try assumption. lia.
Qed.

Lemma sequential_token_bound_witness :
  exists n,
    generate_sequential_token (PyStr "c")
      [("1", PyStr "a"); ("7", PyStr "b")] []
    = Some (py_str n, []) /\
    1 <= n <= 3 /\
    dict_mem (py_str n) [("1", PyStr "a"); ("7", PyStr "b")] = false.
Proof.
  exact (sequential_token_bound
           (PyStr "c") [("1", PyStr "a"); ("7", PyStr "b")] [] eq_refl).
Defined.

(* ================================================================== *)
(** * Further properties: which files an operation can change *)

Section Frame.
Variable paths : list string.
Variable keep_draws : bool.

Lemma frame_refl (w : world) : frame paths keep_draws w w.
Proof. split; auto. Qed.

Lemma frame_trans (a b c : world) :
  frame paths keep_draws a b -> frame paths keep_draws b c ->
  frame paths keep_draws a c.
Proof.
  intros [F1 D1] [F2 D2]. split.
  - intros p Hp. now rewrite F2, F1.
  - intro Hk. now rewrite D2, D1.
Qed.

Lemma frame_trace (w : world) (tr : list event) :
  frame paths keep_draws w (mk_world (files w) (uuid_draws w) tr).
Proof. split; auto. Qed.

Lemma frame_write (w : world) (path : string) (rows : csv_file)
      (tr : list event) :
  In path paths ->
  frame paths keep_draws w
        (mk_world (dict_set path rows (files w)) (uuid_draws w) tr).
Proof.
  intro Hin. split; [|auto]. intros p Hp. simpl.
  apply dict_get_set_other. intros ->. contradiction.
Qed.

Lemma respects_ret {A} (a : A) : respects (frame paths keep_draws) (ret a).
Proof. intro w. apply frame_refl. Qed.

Lemma respects_raise {A} (e : exn) :
  respects (frame paths keep_draws) (@raise A e).
Proof. intro w. apply frame_refl. Qed.

Lemma respects_diverge {A} : respects (frame paths keep_draws) (@diverge A).
Proof. intro w. apply frame_refl. Qed.

Lemma respects_bind {A B} (m : M A) (f : A -> M B) :
  respects (frame paths keep_draws) m ->
  (forall a, respects (frame paths keep_draws) (f a)) ->
  respects (frame paths keep_draws) (bind m f).
Proof.
  intros Hm Hf w. unfold bind. specialize (Hm w).
  destruct (m w) as [[a|e|] w1]; simpl in *; try assumption.
  eapply frame_trans; [eassumption | apply Hf].
Qed.

Lemma respects_log_and_reraise {A} (nf other : string) (m : M A) :
  respects (frame paths keep_draws) m ->
  respects (frame paths keep_draws) (log_and_reraise nf other m).
Proof.
  intros Hm w. unfold log_and_reraise. specialize (Hm w).
  destruct (m w) as [[a|e|] w1]; exact Hm.
Qed.

Lemma respects_emit (ev : event) : respects (frame paths keep_draws) (emit ev).
Proof. intro w. apply frame_trace. Qed.

Lemma respects_emit_warnings (ws : list warning) :
  respects (frame paths keep_draws) (emit_warnings ws).
Proof.
  induction ws as [|x ws IH]; simpl; [apply respects_ret|].
  apply respects_bind; [apply respects_emit | intros _; exact IH].
Qed.

Lemma respects_path_exists (path : string) :
  respects (frame paths keep_draws) (path_exists path).
Proof. intro w. apply frame_trace. Qed.

Lemma respects_open_read (path : string) :
  respects (frame paths keep_draws) (open_read path).
Proof.
  intro w. unfold open_read. destruct (dict_mem path (files w));
    [apply frame_trace | apply frame_refl].
Qed.

Lemma respects_read_rows (path : string) :
  respects (frame paths keep_draws) (read_rows path).
Proof.
  intro w. unfold read_rows. destruct (dict_get (files w) path);
    apply frame_refl.
Qed.

Lemma respects_open_write (path : string) :
  In path paths -> respects (frame paths keep_draws) (open_write path).
Proof. intros Hin w. now apply frame_write. Qed.

Lemma respects_write_row (path : string) (row : list string) :
  In path paths -> respects (frame paths keep_draws) (write_row path row).
Proof. intros Hin w. now apply frame_write. Qed.

Lemma respects_write_rows (path : string) (rows : csv_file) :
  In path paths -> respects (frame paths keep_draws) (write_rows path rows).
Proof.
  intro Hin. induction rows as [|r rows IH]; simpl; [apply respects_ret|].
  apply respects_bind; [now apply respects_write_row | intros _; exact IH].
Qed.

Lemma respects_read_token_map (path : string) :
  respects (frame paths keep_draws) (read_token_map path).
Proof.
  unfold read_token_map.
  apply respects_bind; [apply respects_open_read | intros _].
  apply respects_bind; [apply respects_read_rows | intros rows].
  destruct (load_token_map rows []) as [tm ws].
  apply respects_bind; [apply respects_emit_warnings | intros _].
  apply respects_ret.
Qed.

Lemma respects_writeheader (path : string) (header : option (list string)) :
  In path paths -> respects (frame paths keep_draws) (writeheader path header).
Proof.
  intro Hin. destruct header as [names|]; simpl; [|apply respects_raise].
  apply respects_bind; [now apply respects_write_row | intros _].
  apply respects_ret.
Qed.

Lemma respects_detokenize_loop (tm : token_map_t) (output_file : string)
      (fieldnames : list string) (rows : list dict_row) :
  In output_file paths ->
  respects (frame paths keep_draws)
           (detokenize_loop tm output_file fieldnames rows).
Proof.
  intro Hin. induction rows as [|r rows IH]; simpl; [apply respects_ret|].
  destruct (detokenize_row tm fieldnames (cells r)) as [row'|e|];
    [|apply respects_raise | apply respects_diverge].
  destruct (DictWriter_row fieldnames (mk_dict_row row' (restkey r)))
    as [fields|e|]; [|apply respects_raise | apply respects_diverge].
  apply respects_bind; [now apply respects_write_row | intros _; exact IH].
Qed.

Lemma respects_detokenize_with (tm : token_map_t)
      (input_file output_file : string) :
  In output_file paths ->
  respects (frame paths keep_draws)
           (detokenize_with tm input_file output_file).
Proof.
  intro Hin. unfold detokenize_with. apply respects_log_and_reraise.
  apply respects_bind; [apply respects_open_read | intros _].
  apply respects_bind; [now apply respects_open_write | intros _].
  apply respects_bind; [apply respects_read_rows | intros lines].
  destruct (split_header lines) as [header rest].
  apply respects_bind; [now apply respects_writeheader | intros names].
  now apply respects_detokenize_loop.
Qed.

Lemma respects_detokenize_data (input_file output_file token_map_file : string) :
  In output_file paths ->
  respects (frame paths keep_draws)
           (detokenize_data input_file output_file token_map_file).
Proof.
  intro Hin. unfold detokenize_data.
  apply respects_bind.
  - apply respects_log_and_reraise, respects_read_token_map.
  - intro tm. now apply respects_detokenize_with.
Qed.

Lemma respects_write_token_map (token_map_file : string) (tm : token_map_t) :
  In token_map_file paths ->
  respects (frame paths keep_draws) (write_token_map token_map_file tm).
Proof.
  intro Hin. unfold write_token_map. apply respects_log_and_reraise.
  apply respects_bind; [now apply respects_open_write | intros _].
  now apply respects_write_rows.
Qed.
End Frame.

Lemma respects_run_tokenize_row (paths : list string) (keep_draws : bool)
      (gen : token_generator_t) (cols : list string) (row : dict pyval)
      (tm : token_map_t) :
  (keep_draws = true -> gen = generate_sequential_token) ->
  respects (frame paths keep_draws) (run_tokenize_row gen cols row tm).
Proof.
  intros Hseq w. unfold run_tokenize_row.
  destruct (tokenize_row gen cols row (mk_tok_state tm (uuid_draws w) []))
    as [[row' st]|] eqn:R; [|apply frame_refl].
  unfold bind. rewrite emit_warnings_run. simpl. split; [auto|].
  intro Hk. simpl. rewrite (Hseq Hk) in R.
  destruct (tokenize_row_sequential_total
              cols row (mk_tok_state tm (uuid_draws w) []))
    as (r2 & s2 & R2 & He).
  rewrite R2 in R. injection R as _ <-. exact He.
Qed.

Lemma respects_tokenize_loop (paths : list string) (keep_draws : bool)
      (gen : token_generator_t) (cols : list string) (output_file : string)
      (fieldnames : list string) (rows : list dict_row) :
  (keep_draws = true -> gen = generate_sequential_token) ->
  In output_file paths ->
  forall tm,
    respects (frame paths keep_draws)
             (tokenize_loop gen cols output_file fieldnames rows tm).
Proof.
  intros Hseq Hin. induction rows as [|r rows IH]; intro tm; simpl;
    [apply respects_ret|].
  apply respects_bind; [now apply respects_run_tokenize_row|].
  intros [row' tm'].
  destruct (DictWriter_row fieldnames (mk_dict_row row' (restkey r)))
    as [fields|e|]; [|apply respects_raise | apply respects_diverge].
  apply respects_bind; [now apply respects_write_row | intros _; apply IH].
Qed.

Lemma respects_tokenize_body (paths : list string) (keep_draws : bool)
      (gen : token_generator_t) (input_file output_file : string)
      (cols : list string) (tm : token_map_t) :
  (keep_draws = true -> gen = generate_sequential_token) ->
  In output_file paths ->
  respects (frame paths keep_draws)
           (tokenize_body gen input_file output_file cols tm).
Proof.
  intros Hseq Hin. unfold tokenize_body. apply respects_log_and_reraise.
  apply respects_bind; [apply respects_open_read | intros _].
  apply respects_bind; [now apply respects_open_write | intros _].
  apply respects_bind; [apply respects_read_rows | intros lines].
  destruct (split_header lines) as [header rest].
  apply respects_bind; [now apply respects_writeheader | intros names].
  now apply respects_tokenize_loop.
Qed.

Lemma respects_tokenize_with (keep_draws : bool) (tm : token_map_t)
      (input_file output_file : string) (cols : list string)
      (token_method token_map_file : string) :
  (keep_draws = true -> token_method <> "uuid") ->
  respects (frame [output_file; token_map_file] keep_draws)
           (tokenize_with tm input_file output_file cols token_method
                          token_map_file).
Proof.
  intros Hseq w. unfold tokenize_with. unfold bind at 1.
  destruct (select_generator token_method w) as [[gen|e|] w1] eqn:S;
    try (unfold select_generator in S;
         destruct (String.eqb token_method "uuid");
         [|destruct (String.eqb token_method "sequential")];
         injection S as _ <-; apply frame_refl).
  apply select_generator_inv in S as [Hgen ->].
  apply (respects_bind [output_file; token_map_file] keep_draws).
  - apply respects_tokenize_body; [|now left].
    intro Hk. destruct Hgen as [[Hm _]|[_ Hg]]; [|exact Hg].
    exfalso. now apply (Hseq Hk).
  - intro tm'. apply respects_write_token_map. right. now left.
Qed.

(** X7: whatever its outcome, [detokenize_data] leaves every file other than
    the output file as it was, the mapping file included, and draws no random
    identifier. *)
Theorem detokenize_changes_only_output
        (input_file output_file token_map_file : string) (w : world)
        (path : string) :
  path <> output_file ->
  dict_get (files (snd (detokenize_data input_file output_file
                                        token_map_file w))) path
  = dict_get (files w) path /\
  uuid_draws (snd (detokenize_data input_file output_file token_map_file w))
  = uuid_draws w.
Proof.
  intro Hne.
  destruct (respects_detokenize_data [output_file] true input_file output_file
              token_map_file (or_introl eq_refl) w) as [Hf Hd].
  split; [|now apply Hd]. apply Hf. intros [H|[]]. congruence.
Qed.

Lemma detokenize_changes_only_output_witness :
  dict_get (files (snd (detokenize_data "tokens.csv" "out.csv" "map.csv"
                                        chain_world))) "map.csv"
  = Some [["1"; "2"]; ["2"; "secret"]].
Proof.
  refine (proj1 (detokenize_changes_only_output
                   "tokens.csv" "out.csv" "map.csv" chain_world "map.csv" _)).
  discriminate.
Defined.

(** X8: whatever its outcome, [tokenize_data] leaves every file other than
    the output file and the mapping file as it was, and with a method other
    than ["uuid"] it draws no random identifier. *)
Theorem tokenize_changes_only_output_and_mapping
        (input_file output_file : string) (cols : list string)
        (token_method token_map_file : string) (w : world) (path : string) :
  path <> output_file -> path <> token_map_file ->
  dict_get (files (snd (tokenize_data input_file output_file cols
                                      token_method token_map_file w))) path
  = dict_get (files w) path /\
  (token_method <> "uuid" ->
   uuid_draws (snd (tokenize_data input_file output_file cols token_method
                                  token_map_file w))
   = uuid_draws w).
Proof.
  intros Ho Hf. rewrite tokenize_data_start.
  set (tm0 := fst (load_token_map (content w token_map_file) [])).
  split.
  - destruct (respects_tokenize_with false tm0 input_file output_file cols
                token_method token_map_file ltac:(discriminate)
                (logged w (load_events w token_map_file))) as [H _].
    rewrite H; [reflexivity|]. intros [E|[E|[]]]; congruence.
  - intro Hm.
    destruct (respects_tokenize_with true tm0 input_file output_file cols
                token_method token_map_file (fun _ => Hm)
                (logged w (load_events w token_map_file))) as [_ H].
    now apply H.
Qed.

Lemma tokenize_changes_only_output_and_mapping_witness :
  dict_get (files (snd (tokenize_data "in.csv" "out.csv" ["ssn"] "sequential"
                                      "token_map.csv" people_world))) "in.csv"
  = dict_get (files people_world) "in.csv".
Proof.
  refine (proj1 (tokenize_changes_only_output_and_mapping
                   "in.csv" "out.csv" ["ssn"] "sequential" "token_map.csv"
                   people_world "in.csv" _ _)); discriminate.
Defined.

(** X9: when [tokenize_data] does not complete, whether it raises or keeps
    drawing identifiers, a mapping file that is not also the output file is
    exactly as it was before the run: the mapping is only written after the
    last row. *)
Theorem failed_run_keeps_mapping_file
        (input_file output_file : string) (cols : list string)
        (token_method token_map_file : string) (w : world) :
  output_file <> token_map_file ->
  fst (tokenize_data input_file output_file cols token_method
                     token_map_file w) <> Ok tt ->
  dict_get (files (snd (tokenize_data input_file output_file cols
                                      token_method token_map_file w)))
           token_map_file
  = dict_get (files w) token_map_file.
Proof.
  intros Hne Hfail. rewrite tokenize_data_start in *.
  set (tm0 := fst (load_token_map (content w token_map_file) [])) in *.
  set (w0 := logged w (load_events w token_map_file)) in *.
  change (dict_get (files w) token_map_file)
    with (dict_get (files w0) token_map_file).
  unfold tokenize_with in *. unfold bind at 1 in Hfail. unfold bind at 1.
  destruct (select_generator token_method w0) as [[gen|e|] w1] eqn:S;
    try (unfold select_generator in S;
         destruct (String.eqb token_method "uuid");
         [|destruct (String.eqb token_method "sequential")];
         now injection S as _ <-).
  apply select_generator_inv in S as [Hgen ->].
  pose proof (respects_tokenize_body [output_file] false gen input_file
                output_file cols tm0 ltac:(discriminate) (or_introl eq_refl)
                w0) as [Hframe _].
  unfold bind in *.
  destruct (tokenize_body gen input_file output_file cols tm0 w0)
    as [[tm'|e|] w2]; simpl in *.
  - rewrite write_token_map_run in Hfail. now elim Hfail.
  - apply Hframe. intros [E|[]]. congruence.
  - apply Hframe. intros [E|[]]. congruence.
Qed.

Lemma failed_run_keeps_mapping_file_witness :
  dict_get (files (snd (tokenize_data "in.csv" "out.csv" ["ssn"] "sequential"
                                      "map.csv" long_line_world))) "map.csv"
  = Some [["9"; "999"]].
Proof.
  refine (failed_run_keeps_mapping_file
            "in.csv" "out.csv" ["ssn"] "sequential" "map.csv"
            long_line_world _ _).
  - discriminate.
  - vm_compute. discriminate.
Defined.

(* ================================================================== *)
(** * Further properties: inputs that make a run fail *)

Lemma tokenize_body_missing_input gen input_file output_file cols tm w :
  dict_get (files w) input_file = None ->
  tokenize_body gen input_file output_file cols tm w
  = (Raise (FileNotFoundError input_file),
     logged w [EvError "Input file not found"]).
Proof.
  intro H. unfold tokenize_body, log_and_reraise, bind, open_read.
  rewrite dict_get_mem, H. reflexivity.
Qed.

Lemma detokenize_with_missing_input tm input_file output_file w :
  dict_get (files w) input_file = None ->
  detokenize_with tm input_file output_file w
  = (Raise (FileNotFoundError input_file),
     logged w [EvError "Input file not found"]).
Proof.
  intro H. unfold detokenize_with, log_and_reraise, bind, open_read.
  rewrite dict_get_mem, H. reflexivity.
Qed.

Lemma tokenize_data_missing_input
      (input_file output_file : string) (cols : list string)
      (token_method token_map_file : string) (gen : token_generator_t)
      (w : world) :
  dict_get (files w) input_file = None ->
  generator_named token_method gen ->
  tokenize_data input_file output_file cols token_method token_map_file w
  = (Raise (FileNotFoundError input_file),
     logged w (load_events w token_map_file
               ++ [EvError "Input file not found"])).
Proof.
  intros Hmiss Hgen. rewrite tokenize_data_start. unfold tokenize_with.
  rewrite (bind_Ok _ _ _ _ _ (select_generator_named _ _ _ Hgen)).
  unfold bind. rewrite tokenize_body_missing_input by exact Hmiss.
  now rewrite logged_logged.
Qed.

Lemma detokenize_data_missing_input
      (input_file output_file token_map_file : string)
      (w : world) (mapping_rows : csv_file) :
  dict_get (files w) input_file = None ->
  dict_get (files w) token_map_file = Some mapping_rows ->
  detokenize_data input_file output_file token_map_file w
  = (Raise (FileNotFoundError input_file),
     logged w (EvOpenRead token_map_file
               :: map EvWarning (snd (load_token_map mapping_rows []))
               ++ [EvError "Input file not found"])).
Proof.
  intros Hmiss Hmap. rewrite (detokenize_data_loads _ _ _ _ _ Hmap).
  rewrite detokenize_with_missing_input by exact Hmiss.
  now rewrite logged_logged.
Qed.

(** X10: when the input file does not exist, [tokenize_data] (with a known
    method) and [detokenize_data] (with a mapping file in place) raise the
    not-found error for the input after the mapping has been loaded; the
    output file is neither created nor emptied and no file is changed. *)
Theorem missing_input_changes_nothing
        (input_file output_file : string) (cols : list string)
        (token_method token_map_file : string) (gen : token_generator_t)
        (w : world) (mapping_rows : csv_file) :
  dict_get (files w) input_file = None ->
  (generator_named token_method gen ->
   tokenize_data input_file output_file cols token_method token_map_file w
   = (Raise (FileNotFoundError input_file),
      logged w (load_events w token_map_file
                ++ [EvError "Input file not found"]))) /\
  (dict_get (files w) token_map_file = Some mapping_rows ->
   detokenize_data input_file output_file token_map_file w
   = (Raise (FileNotFoundError input_file),
      logged w (EvOpenRead token_map_file
                :: map EvWarning (snd (load_token_map mapping_rows []))
                ++ [EvError "Input file not found"]))).
Proof.
  intro Hmiss. split.
  - now apply tokenize_data_missing_input.
  - now apply detokenize_data_missing_input.
Qed.

Lemma missing_input_changes_nothing_witness :
  detokenize_data "absent.csv" "out.csv" "map.csv" mapping_world
  = (Raise (FileNotFoundError "absent.csv"),
     logged mapping_world
            [EvOpenRead "map.csv";
             EvWarning (MalformedRow ["2"; "bob"; "extra"]);
             EvError "Input file not found"]).
Proof.
  exact (proj2 (missing_input_changes_nothing
                  "absent.csv" "out.csv" [] "uuid" "map.csv"
                  generate_uuid_token mapping_world
                  [["1"; "alice"]; ["2"; "bob"; "extra"]; ["3"; "carol"]]
                  eq_refl) eq_refl).
Defined.

Lemma no_header_start {A} (k : list string -> list dict_row -> M A)
      (input_file output_file : string) (w : world) :
  dict_mem input_file (files w) = true ->
  input_file = output_file \/ dict_get (files w) input_file = Some [] ->
  (open_read input_file ;;;
   open_write output_file ;;;
   lines <- read_rows input_file ;;
   let (header, rest) := split_header lines in
   fieldnames <- writeheader output_file header ;;
   k fieldnames (DictReader_rows fieldnames rest)) w
  = (Raise (TypeError "'NoneType' object is not iterable"),
     mk_world (dict_set output_file [] (files w)) (uuid_draws w)
              (trace w ++ [EvOpenRead input_file; EvOpenWrite output_file])).
Proof.
  intros Hex Hcase. unfold bind, open_read, open_write, read_rows.
  rewrite Hex. simpl.
  match goal with
  | |- context [match ?g with Some _ => _ | None => _ end] =>
      assert (Hempty : g = Some [])
  end.
  { destruct Hcase as [->|Hcase]; [apply dict_get_set_same|].
    rewrite dict_get_set. now destruct (String.eqb input_file output_file). }
  rewrite Hempty. simpl. unfold raise. now rewrite <- app_assoc.
Qed.

(** X11: if the input file is empty, or if the output path is the input
    path, [tokenize_data] (with a known method) and [detokenize_data] (with a
    mapping already loaded) fail on the missing header after the output file
    has been opened for writing: the output file is left empty, so an input
    that is its own output loses its content. *)
Theorem no_header_leaves_empty_output
        (input_file output_file : string) (cols : list string)
        (token_method token_map_file : string) (gen : token_generator_t)
        (tm : token_map_t) (w : world) :
  dict_mem input_file (files w) = true ->
  input_file = output_file \/ dict_get (files w) input_file = Some [] ->
  (generator_named token_method gen ->
   tokenize_with tm input_file output_file cols token_method token_map_file w
   = (Raise (TypeError "'NoneType' object is not iterable"),
      mk_world (dict_set output_file [] (files w)) (uuid_draws w)
               (trace w ++ [EvOpenRead input_file; EvOpenWrite output_file;
                            EvError "An error occurred during tokenization"])))
  /\
  detokenize_with tm input_file output_file w
  = (Raise (TypeError "'NoneType' object is not iterable"),
     mk_world (dict_set output_file [] (files w)) (uuid_draws w)
              (trace w ++ [EvOpenRead input_file; EvOpenWrite output_file;
                           EvError "An error occurred during detokenization"])).
Proof.
  intros Hex Hcase. split.
  - intro Hgen. unfold tokenize_with.
    rewrite (bind_Ok _ _ _ _ _ (select_generator_named _ _ _ Hgen)).
    unfold bind at 1. unfold tokenize_body, log_and_reraise.
    rewrite (no_header_start
               (fun fieldnames rows =>
                  tokenize_loop gen cols output_file fieldnames rows tm)
               _ _ _ Hex Hcase).
    simpl. now rewrite <- app_assoc.
  - unfold detokenize_with, log_and_reraise.
    rewrite (no_header_start
               (fun fieldnames rows =>
                  detokenize_loop tm output_file fieldnames rows)
               _ _ _ Hex Hcase).
    simpl. now rewrite <- app_assoc.
Qed.

Lemma no_header_leaves_empty_output_witness :
  tokenize_with [] "in.csv" "in.csv" ["ssn"] "sequential" "token_map.csv"
                people_world
  = (Raise (TypeError "'NoneType' object is not iterable"),
     mk_world (dict_set "in.csv" [] (files people_world)) []
              [EvOpenRead "in.csv"; EvOpenWrite "in.csv";
               EvError "An error occurred during tokenization"]).
Proof.
  exact (proj1 (no_header_leaves_empty_output
                  "in.csv" "in.csv" ["ssn"] "sequential" "token_map.csv"
                  generate_sequential_token [] people_world eq_refl
                  (or_introl eq_refl))
               (or_intror (conj eq_refl eq_refl))).
Defined.

(* ================================================================== *)
(** * Further properties: what a completed run implies *)

Lemma header_start_inv {A} (k : list string -> list dict_row -> M A)
      (input_file output_file : string) (w w' : world) (a : A) :
  (open_read input_file ;;;
   open_write output_file ;;;
   lines <- read_rows input_file ;;
   let (header, rest) := split_header lines in
   fieldnames <- writeheader output_file header ;;
   k fieldnames (DictReader_rows fieldnames rest)) w = (Ok a, w') ->
  exists header lines,
    dict_get (files w) input_file = Some (header :: lines) /\
    input_file <> output_file /\
    k header (DictReader_rows header lines)
      (mk_world (dict_set output_file [header] (files w)) (uuid_draws w)
                (trace w ++ [EvOpenRead input_file; EvOpenWrite output_file]))
    = (Ok a, w').
Proof.
  intro H.
  destruct (dict_get (files w) input_file) as [lines0|] eqn:Hin.
  2:{ unfold bind, open_read in H. rewrite dict_get_mem, Hin in H.
      discriminate. }
  destruct (string_dec input_file output_file) as [->|Hne].
  { rewrite (no_header_start k output_file output_file w) in H;
      [discriminate | | now left].
    rewrite dict_get_mem. now rewrite Hin. }
  destruct lines0 as [|header lines].
  { rewrite (no_header_start k input_file output_file w) in H;
      [discriminate | | now right].
    rewrite dict_get_mem. now rewrite Hin. }
  exists header, lines. split; [reflexivity|]. split; [assumption|].
  rewrite <- H. unfold bind, open_read, open_write, read_rows. simpl.
  rewrite dict_get_mem, Hin. simpl.
  rewrite dict_get_set_other by assumption. rewrite Hin. simpl.
  unfold bind, write_row, ret. simpl.
  rewrite dict_get_set_same. simpl.
  now rewrite dict_set_set, <- app_assoc.
Qed.

Lemma DictWriter_row_Ok_restkey (fieldnames : list string) (r : dict_row)
      (fields : list string) :
  DictWriter_row fieldnames r = Ok fields -> restkey r = None.
Proof.
  unfold DictWriter_row. destruct (restkey r); [discriminate | reflexivity].
Qed.

Lemma tokenize_loop_restkey gen cols output_file fieldnames rows :
  forall tm w tm' w',
    tokenize_loop gen cols output_file fieldnames rows tm w = (Ok tm', w') ->
    Forall (fun r => restkey r = None) rows.
Proof.
  induction rows as [|r rows IH]; intros tm w tm' w' H; [constructor|].
  simpl in H. apply bind_inv_Ok in H as ([r1 tm1] & w1 & _ & H).
  destruct (DictWriter_row fieldnames (mk_dict_row r1 (restkey r)))
    as [fields|e|] eqn:W; try discriminate.
  apply DictWriter_row_Ok_restkey in W. simpl in W.
  apply bind_inv_Ok in H as ([] & w2 & _ & H).
  constructor; [assumption | eapply IH; eassumption].
Qed.

Lemma detokenize_loop_restkey tm output_file fieldnames rows :
  forall w w',
    detokenize_loop tm output_file fieldnames rows w = (Ok tt, w') ->
    Forall (fun r => restkey r = None) rows.
Proof.
  induction rows as [|r rows IH]; intros w w' H; [constructor|].
  simpl in H.
  destruct (detokenize_row tm fieldnames (cells r)) as [row'|e|];
    try discriminate.
  destruct (DictWriter_row fieldnames (mk_dict_row row' (restkey r)))
    as [fields|e|] eqn:W; try discriminate.
  apply DictWriter_row_Ok_restkey in W. simpl in W.
  apply bind_inv_Ok in H as ([] & w2 & _ & H).
  constructor; [assumption | eapply IH; eassumption].
Qed.

Lemma restkey_no_long_line (header : list string) (lines : csv_file) :
  Forall (fun r => restkey r = None) (DictReader_rows header lines) ->
  no_long_line header lines.
Proof.
  unfold DictReader_rows, no_long_line.
  induction lines as [|line lines IH]; simpl; intro H; [constructor|].
  destruct line as [|x line]; simpl in H.
  - constructor; [simpl; lia | now apply IH].
  - inversion H as [|? ? Hr Hrest]; subst.
    constructor; [|now apply IH].
    unfold DictReader_row in Hr.
    destruct (Nat.ltb (length header) (length (x :: line))) eqn:L;
      [discriminate|].
    now apply Nat.ltb_ge in L.
Qed.

(** What a run that completes implies, read back from its result. *)
Lemma tokenize_data_completed
        (input_file output_file : string) (cols : list string)
        (token_method token_map_file : string) (w w' : world) :
  tokenize_data input_file output_file cols token_method token_map_file w
  = (Ok tt, w') ->
  exists gen header lines rows' st',
    generator_named token_method gen /\
    dict_get (files w) input_file = Some (header :: lines) /\
    input_file <> output_file /\
    no_long_line header lines /\
    tokenize_rows gen cols (map cells (DictReader_rows header lines))
      (mk_tok_state (fst (load_token_map (content w token_map_file) []))
                    (uuid_draws w) [])
    = Some (rows', st') /\
    w' = tokenized_world (logged w (load_events w token_map_file))
                         input_file output_file token_map_file
                         header rows' st'.
Proof.
  intro Hrun. rewrite tokenize_data_start in Hrun.
  set (tm0 := fst (load_token_map (content w token_map_file) [])) in *.
  set (w0 := logged w (load_events w token_map_file)) in *.
  pose proof Hrun as Hinv. unfold tokenize_with in Hinv.
  apply bind_inv_Ok in Hinv as (gen & w1 & Hsel & Hinv).
  apply select_generator_inv in Hsel as [Hgen ->].
  apply bind_inv_Ok in Hinv as (tm' & w2 & Hbody & _).
  unfold tokenize_body in Hbody. apply log_and_reraise_inv_Ok in Hbody.
  apply (header_start_inv
           (fun fieldnames rows =>
              tokenize_loop gen cols output_file fieldnames rows tm0))
    in Hbody as (header & lines & Hin & Hne & Hloop).
  apply tokenize_loop_restkey, restkey_no_long_line in Hloop.
  exists gen, header, lines.
  pose proof (tokenize_with_run gen input_file output_file cols header lines
                Hne Hloop token_method token_map_file tm0 w0 Hgen Hin) as Hfwd.
  change (uuid_draws w0) with (uuid_draws w) in Hfwd.
  destruct (tokenize_rows gen cols (map cells (DictReader_rows header lines))
                          (mk_tok_state tm0 (uuid_draws w) []))
    as [[rows' st']|].
  - exists rows', st'. rewrite Hfwd in Hrun. injection Hrun as <-.
    repeat split; assumption.
  - rewrite Hrun in Hfwd. discriminate.
Qed.

(** X12: [tokenize_data] completes only on an input file that has a header
    line, is not the output file, and has no line with more fields than the
    header, and only with one of the two known methods; the world it leaves
    is then the one described by [tokenize_rows]: the output holds the header
    and the printed records, the mapping file the final mapping. *)
Theorem completed_tokenize_run
        (input_file output_file : string) (cols : list string)
        (token_method token_map_file : string) (w w' : world) :
  tokenize_data input_file output_file cols token_method token_map_file w
  = (Ok tt, w') ->
  exists gen header lines rows' st',
    generator_named token_method gen /\
    dict_get (files w) input_file = Some (header :: lines) /\
    input_file <> output_file /\
    no_long_line header lines /\
    tokenize_rows gen cols (map cells (DictReader_rows header lines))
      (mk_tok_state (fst (load_token_map (content w token_map_file) []))
                    (uuid_draws w) [])
    = Some (rows', st') /\
    w' = tokenized_world (logged w (load_events w token_map_file))
                         input_file output_file token_map_file
                         header rows' st'.
Proof. apply tokenize_data_completed. Qed.

Lemma completed_tokenize_run_witness :
  exists gen header lines rows' st',
    generator_named "sequential" gen /\
    dict_get (files people_world) "in.csv" = Some (header :: lines) /\
    "in.csv" <> "out.csv" /\
    no_long_line header lines /\
    tokenize_rows gen ["ssn"] (map cells (DictReader_rows header lines))
      (mk_tok_state
         (fst (load_token_map (content people_world "token_map.csv") []))
         (uuid_draws people_world) [])
    = Some (rows', st') /\
    snd (tokenize_data "in.csv" "out.csv" ["ssn"] "sequential"
                       "token_map.csv" people_world)
    = tokenized_world
        (logged people_world (load_events people_world "token_map.csv"))
        "in.csv" "out.csv" "token_map.csv" header rows' st'.
Proof.
  apply (completed_tokenize_run
           "in.csv" "out.csv" ["ssn"] "sequential" "token_map.csv"
           people_world).
  vm_compute. reflexivity.
Defined.

Lemma find_token_app_None (m ext : token_map_t) (v : pyval) :
  find_token (m ++ ext) v = None -> find_token m v = None.
Proof.
  destruct (find_token m v) as [t|] eqn:F; [|reflexivity].
  rewrite (find_token_app_l _ ext _ _ F). discriminate.
Qed.

Lemma NoDup_app_apart {A} (l1 l2 : list A) (x : A) :
  NoDup (l1 ++ l2) -> In x l2 -> ~ In x l1.
Proof.
  induction l1 as [|a l1 IH]; simpl; intros ND H2 H1; [assumption|].
  inversion ND as [|? ? Hnin ND']; subst.
  destruct H1 as [->|H1].
  - apply Hnin. apply in_or_app. now right.
  - now apply IH.
Qed.

(** The entries that a pass appends are for values that had no token when
    the pass began. *)
Lemma tokenize_rows_new_entries (gen : token_generator_t)
      (cols : list string) (rows : list (dict pyval))
      (st : tok_state) (rows' : list (dict pyval)) (st' : tok_state) :
  mints_fresh gen ->
  tokenize_rows gen cols rows st = Some (rows', st') ->
  exists ext,
    token_map st' = token_map st ++ ext /\
    forall t v, In (t, v) ext -> find_token (token_map st) v = None.
Proof.
  intros Hfresh H.
  apply (tokenize_rows_invariant
           gen
           (fun m => exists ext,
                m = token_map st ++ ext /\
                forall t v, In (t, v) ext ->
                            find_token (token_map st) v = None))
    with (cols := cols) (rows := rows) (st := st) (rows' := rows');
    [|assumption|].
  - intros v m d t m' d' (ext & -> & Hext) T.
    apply (tokenize_value_inv gen Hfresh) in T
      as [(_ & -> & _)|(F & _ & -> & _)].
    + now exists ext.
    + exists (ext ++ [(t, v)]). split; [now rewrite app_assoc|].
      intros t0 v0 Hin. apply in_app_or in Hin as [Hin|[Hin|[]]].
      * eapply Hext; eassumption.
      * injection Hin as <- <-. eapply find_token_app_None; eassumption.
  - exists []. split; [now rewrite app_nil_r | intros t v []].
Qed.

(** C10: when [tokenize_data] completes, the mapping file holds one row for
    every entry of the mapping that was loaded at the start, with the token
    and the value that were loaded and in the order in which they were
    loaded, followed by the rows of the entries made during the run.  These
    are the entries that the pass over the records of the input file has
    appended to the loaded mapping: each is for a value that had no token in
    the loaded mapping, under a token that the loaded mapping did not have,
    and when the configured columns are listed once their values are the
    values of the configured columns that had no token, each once, in the
    order in which the pass meets them. *)
Theorem saved_mapping_extends_loaded
        (input_file output_file : string) (cols : list string)
        (token_method token_map_file : string) (w w' : world) :
  tokenize_data input_file output_file cols token_method token_map_file w
  = (Ok tt, w') ->
  let loaded := fst (load_token_map (content w token_map_file) []) in
  exists gen header lines rows' st' new_entries,
    generator_named token_method gen /\
    dict_get (files w) input_file = Some (header :: lines) /\
    tokenize_rows gen cols (map cells (DictReader_rows header lines))
                  (mk_tok_state loaded (uuid_draws w) [])
    = Some (rows', st') /\
    token_map st' = loaded ++ new_entries /\
    dict_get (files w') token_map_file
    = Some (save_token_map loaded ++ save_token_map new_entries) /\
    NoDup (keys (loaded ++ new_entries)) /\
    (forall token value,
        dict_get loaded token = Some (PyStr value) ->
        dict_get (loaded ++ new_entries) token = Some (PyStr value) /\
        In [token; value] (content w' token_map_file)) /\
    (forall token v,
        In (token, v) new_entries ->
        dict_mem token loaded = false /\
        find_token loaded v = None /\
        In [token; csv_field v] (content w' token_map_file)) /\
    (NoDup cols ->
     values (loaded ++ new_entries)
     = distinct_from (values loaded)
                     (visited cols (map cells (DictReader_rows header lines)))).
Proof.
  intros Hrun loaded.
  destruct (tokenize_data_completed _ _ _ _ _ _ _ Hrun)
    as (gen & header & lines & rows' & st' & Hgen & Hin & _ & _ & Hrows & ->).
  fold loaded in Hrows.
  pose proof (known_generator_fresh gen (generator_named_known _ _ Hgen))
    as Hfresh.
  destruct (tokenize_rows_new_entries gen cols _ _ _ _ Hfresh Hrows)
    as (new_entries & Hmap & Hnew).
  simpl in Hmap, Hnew.
  assert (ND : NoDup (keys (loaded ++ new_entries))).
  { rewrite <- Hmap.
    apply (tokenize_rows_NoDup_keys gen Hfresh _ _ _ _ _ Hrows).
    simpl. apply load_token_map_NoDup. constructor. }
  assert (Hfile : dict_get
                    (files (tokenized_world
                              (logged w (load_events w token_map_file))
                              input_file output_file token_map_file
                              header rows' st'))
                    token_map_file
                  = Some (save_token_map loaded ++ save_token_map new_entries)).
  { unfold tokenized_world. simpl. rewrite dict_get_set_same, Hmap.
    unfold save_token_map. now rewrite map_app. }
  exists gen, header, lines, rows', st', new_entries.
  repeat (split; [assumption|]).
  split; [|split].
  - intros token value Hget. split.
    + apply (grows_get loaded); [now exists new_entries | assumption].
    + unfold content. rewrite Hfile. apply in_or_app. left.
      apply in_map_iff. exists (token, PyStr value). split; [reflexivity|].
      now apply dict_get_In.
  - intros token v Hin'. split; [|split].
    + apply dict_mem_false. unfold keys in ND. rewrite map_app in ND.
      apply (NoDup_app_apart _ _ _ ND).
      apply in_map_iff. now exists (token, v).
    + eapply Hnew; eassumption.
    + unfold content. rewrite Hfile. apply in_or_app. right.
      apply in_map_iff. now exists (token, v).
  - intro NDc. rewrite <- Hmap.
    apply (tokenize_rows_values gen Hfresh _ _ _ _ _ NDc Hrows).
Qed.

Lemma saved_mapping_extends_loaded_witness :
  exists new_entries,
    dict_get (files (snd (tokenize_data "in.csv" "out.csv" ["ssn"]
                                        "sequential" "map.csv" remap_world)))
             "map.csv"
    = Some (save_token_map [("1", PyStr "111"); ("7", PyStr "999")]
            ++ save_token_map new_entries) /\
    values ([("1", PyStr "111"); ("7", PyStr "999")] ++ new_entries)
    = [PyStr "111"; PyStr "999"; PyStr "222"].
Proof.
  assert (Hrun : tokenize_data "in.csv" "out.csv" ["ssn"] "sequential"
                               "map.csv" remap_world
                 = (Ok tt, snd (tokenize_data "in.csv" "out.csv" ["ssn"]
                                              "sequential" "map.csv"
                                              remap_world)))
    by (vm_compute; reflexivity).
  destruct (saved_mapping_extends_loaded
              "in.csv" "out.csv" ["ssn"] "sequential" "map.csv" remap_world
              _ Hrun)
    as (gen & header & lines & rows' & st' & new_entries & _ & Hin & _ & _
        & Hfile & _ & _ & _ & Hvalues).
  exists new_entries. split; [exact Hfile|].
  injection Hin as <- <-.
  apply Hvalues. repeat constructor. simpl. tauto.
Defined.

Lemma tokenize_rows_length gen cols rows : forall st rows' st',
  tokenize_rows gen cols rows st = Some (rows', st') ->
  length rows' = length rows.
Proof.
  induction rows as [|r rows IH]; simpl; intros st rows' st'.
  - now intros [= <- <-].
  - destruct (tokenize_row gen cols r st) as [[r1 s1]|]; [|discriminate].
    destruct (tokenize_rows gen cols rows s1) as [[out s2]|] eqn:Rs;
      [|discriminate].
    intros [= <- <-]. simpl. f_equal. eapply IH; eassumption.
Qed.

(** X13: when [tokenize_data] completes and the mapping file is not the
    output file, the output file starts with the header of the input and has
    one line for every line of the input that is not blank, each with exactly
    as many fields as the header (a shorter input line is padded). *)
Theorem completed_run_output_shape
        (input_file output_file : string) (cols : list string)
        (token_method token_map_file : string) (w w' : world) :
  tokenize_data input_file output_file cols token_method token_map_file w
  = (Ok tt, w') ->
  output_file <> token_map_file ->
  exists header lines out,
    dict_get (files w) input_file = Some (header :: lines) /\
    dict_get (files w') output_file = Some (header :: out) /\
    length out = length (filter (fun row => negb (is_blank row)) lines) /\
    Forall (fun line => length line = length header) out.
Proof.
  intros Hrun Hne.
  apply tokenize_data_completed in Hrun
    as (gen & header & lines & rows' & st' & _ & Hin & _ & _ & Hrows & ->).
  exists header, lines, (map (render header) rows').
  split; [assumption|]. split; [|split].
  - unfold tokenized_world. simpl.
    rewrite dict_get_set_other by assumption. apply dict_get_set_same.
  - rewrite length_map, (tokenize_rows_length _ _ _ _ _ _ Hrows).
    unfold DictReader_rows. now rewrite !length_map.
  - apply Forall_map, Forall_forall. intros row _. apply render_length.
Qed.

Lemma completed_run_output_shape_witness :
  exists header lines out,
    dict_get (files ragged_world) "in.csv" = Some (header :: lines) /\
    dict_get (files (snd (tokenize_data "in.csv" "out.csv" ["name"]
                                        "sequential" "map.csv" ragged_world)))
             "out.csv" = Some (header :: out) /\
    length out = length (filter (fun row => negb (is_blank row)) lines) /\
    Forall (fun line => length line = length header) out.
Proof.
  apply (completed_run_output_shape
           "in.csv" "out.csv" ["name"] "sequential" "map.csv" ragged_world).
  - vm_compute. reflexivity.
  - discriminate.
Defined.








(** X14: [detokenize_data] completes only if the mapping file exists and
    the input file has a header line, is not the output file and has no line
    with more fields than the header; the output is then the header followed
    by the printed detokenized records, the log has the mapping's warnings,
    and nothing else has changed. *)
Theorem completed_detokenize_run
        (input_file output_file token_map_file : string) (w w' : world) :
  detokenize_data input_file output_file token_map_file w = (Ok tt, w') ->
  exists mapping_rows header lines,
    dict_get (files w) token_map_file = Some mapping_rows /\
    dict_get (files w) input_file = Some (header :: lines) /\
    input_file <> output_file /\
    no_long_line header lines /\
    w' = mk_world
           (dict_set output_file
              (header ::
               map (fun r => render header
                               (detokenized (fst (load_token_map mapping_rows []))
                                            header (cells r)))
                   (DictReader_rows header lines))
              (files w))
           (uuid_draws w)
           (trace w ++ (EvOpenRead token_map_file
                        :: map EvWarning (snd (load_token_map mapping_rows [])))
                    ++ [EvOpenRead input_file; EvOpenWrite output_file]).
Proof.
  intro Hrun.
  destruct (dict_get (files w) token_map_file) as [mapping_rows|] eqn:Hmap.
  2:{ unfold detokenize_data, bind, log_and_reraise in Hrun.
      rewrite (read_token_map_missing _ _ Hmap) in Hrun. discriminate. }
  rewrite (detokenize_data_loads _ _ _ _ _ Hmap) in Hrun.
  set (M := fst (load_token_map mapping_rows [])) in *.
  pose proof Hrun as Hinv. unfold detokenize_with in Hinv.
  apply log_and_reraise_inv_Ok in Hinv.
  apply (header_start_inv
           (fun fieldnames rows =>
              detokenize_loop M output_file fieldnames rows))
    in Hinv as (header & lines & Hin & Hne & Hloop).
  apply detokenize_loop_restkey, restkey_no_long_line in Hloop.
  exists mapping_rows, header, lines.
  rewrite (detokenize_with_run M input_file output_file header lines
             (logged w (EvOpenRead token_map_file
                        :: map EvWarning (snd (load_token_map mapping_rows []))))
             Hne Hloop Hin) in Hrun.
  injection Hrun as <-. repeat split; try assumption.
  simpl. now rewrite <- app_assoc.
Qed.

Lemma completed_detokenize_run_witness :
  exists mapping_rows header lines,
    dict_get (files chain_world) "map.csv" = Some mapping_rows /\
    dict_get (files chain_world) "tokens.csv" = Some (header :: lines) /\
    "tokens.csv" <> "out.csv" /\
    no_long_line header lines /\
    snd (detokenize_data "tokens.csv" "out.csv" "map.csv" chain_world)
    = mk_world
        (dict_set "out.csv"
           (header ::
            map (fun r => render header
                            (detokenized (fst (load_token_map mapping_rows []))
                                         header (cells r)))
                (DictReader_rows header lines))
           (files chain_world))
        (uuid_draws chain_world)
        (trace chain_world
         ++ (EvOpenRead "map.csv"
             :: map EvWarning (snd (load_token_map mapping_rows [])))
         ++ [EvOpenRead "tokens.csv"; EvOpenWrite "out.csv"]).
Proof.
  apply (completed_detokenize_run "tokens.csv" "out.csv" "map.csv"
                                  chain_world).
  vm_compute. reflexivity.
Defined.



(* ================================================================== *)
(** * Further properties: passes that mint nothing *)





Lemma tokenize_row_known gen cols : forall row st,
  NoDup cols ->
  (forall c v, In c cols -> dict_get row c = Some v ->
               find_token (token_map st) v <> None) ->
  exists row' ws,
    tokenize_row gen cols row st
    = Some (row', mk_tok_state (token_map st) (entropy st) ws).
Proof.
  induction cols as [|c cols IH]; intros row st ND Hknown; simpl.
  - exists row, (warnings st). now destruct st.
  - inversion ND as [|? ? Hnin ND']; subst.
    unfold tokenize_column. destruct (dict_get row c) as [v|] eqn:G.
    + unfold tokenize_value.
      destruct (find_token (token_map st) v) as [t|] eqn:F.
      2:{ exfalso. apply (Hknown c v); auto. now left. }
      apply (IH (dict_set c (PyStr t) row)
                (mk_tok_state (token_map st) (entropy st) (warnings st)) ND').
      intros c' v' Hc' G'. simpl.
      rewrite dict_get_set_other in G' by (intros ->; contradiction).
      apply (Hknown c' v'); auto. now right.
    + apply (IH row (mk_tok_state (token_map st) (entropy st)
                                  (warnings st ++ [ColumnNotFound c])) ND').
      intros c' v' Hc' G'. simpl. apply (Hknown c' v'); auto. now right.
Qed.

Lemma tokenize_rows_known gen cols rows : forall st,
  NoDup cols ->
  Forall (fun row => forall c v, In c cols -> dict_get row c = Some v ->
                                 find_token (token_map st) v <> None) rows ->
  exists rows' ws,
    tokenize_rows gen cols rows st
    = Some (rows', mk_tok_state (token_map st) (entropy st) ws).
Proof.
  induction rows as [|r rows IH]; intros st ND Hknown; simpl.
  - exists [], (warnings st). now destruct st.
  - inversion Hknown as [|? ? Hr Hrows]; subst.
    destruct (tokenize_row_known gen cols r st ND Hr) as (r' & ws1 & ->).
    destruct (IH (mk_tok_state (token_map st) (entropy st) ws1) ND Hrows)
      as (rows' & ws2 & ->).
    now exists (r' :: rows'), ws2.
Qed.

Lemma tokenized_as_unique (cols : list string) (M : token_map_t)
      (row r1 r2 : dict pyval) :
  NoDup (keys row) ->
  tokenized_as cols M row r1 -> tokenized_as cols M row r2 -> r1 = r2.
Proof.
  intros ND (K1 & F1 & C1) (K2 & F2 & C2).
  apply dict_ext; [congruence | now rewrite K1 |].
  intros k _. destruct (in_dec string_dec k cols) as [Hin|Hnin].
  - specialize (C1 k Hin). specialize (C2 k Hin).
    destruct (dict_get row k) as [v|]; [|congruence].
    destruct C1 as (t1 & -> & T1), C2 as (t2 & -> & T2). congruence.
  - now rewrite F1, F2.
Qed.

Lemma tokenized_as_unique_rows (cols : list string) (M : token_map_t)
      (rows : list (dict pyval)) : forall rows1 rows2,
  Forall (fun row => NoDup (keys row)) rows ->
  Forall2 (tokenized_as cols M) rows rows1 ->
  Forall2 (tokenized_as cols M) rows rows2 ->
  rows1 = rows2.
Proof.
  induction rows as [|r rows IH]; intros rows1 rows2 ND H1 H2;
    inversion H1; inversion H2; subst; [reflexivity|].
  inversion ND; subst. f_equal.
  - eapply tokenized_as_unique; eassumption.
  - now apply IH.
Qed.

Lemma tokenized_as_known (cols : list string) (M : token_map_t)
      (rows rows' : list (dict pyval)) :
  Forall2 (tokenized_as cols M) rows rows' ->
  Forall (fun row => forall c v, In c cols -> dict_get row c = Some v ->
                                 find_token M v <> None) rows.
Proof.
  induction 1 as [|r r' rs rs' H HF IH]; constructor; [|assumption].
  intros c v Hc G. destruct H as (_ & _ & Hcells).
  specialize (Hcells c Hc). rewrite G in Hcells.
  destruct Hcells as (t & _ & F). congruence.
Qed.

(** X17: running [tokenize_data] a second time with the same arguments,
    right after a run that completed on an input whose lines have one field
    per column, completes again and changes no file: the same output, the
    same mapping file, and no identifier drawn, because every value already
    has its token. *)
Theorem second_run_changes_nothing
        (input_file output_file : string) (cols : list string)
        (token_method token_map_file : string) (w w1 : world)
        (header : list string) (lines : csv_file) :
  dict_get (files w) input_file = Some (header :: lines) ->
  rectangular header lines ->
  NoDup cols ->
  input_file <> token_map_file ->
  output_file <> token_map_file ->
  tokenize_data input_file output_file cols token_method token_map_file w
  = (Ok tt, w1) ->
  exists w2,
    tokenize_data input_file output_file cols token_method token_map_file w1
    = (Ok tt, w2) /\
    files w2 = files w1 /\ uuid_draws w2 = uuid_draws w1.
Proof.
  intros Hin Hrect NDc Hif Hof Hrun.
  apply tokenize_data_completed in Hrun
    as (gen & header' & lines' & rows' & st' & Hgen & Hin' & Hio & Hfit
        & Hrows & ->).
  rewrite Hin in Hin'. injection Hin' as <- <-.
  pose proof (known_generator_fresh gen (generator_named_known _ _ Hgen))
    as Hfresh.
  set (M := token_map st') in *.
  set (rows0 := map cells (DictReader_rows header lines)) in *.
  assert (HMk : NoDup (keys M)).
  { apply (tokenize_rows_NoDup_keys _ Hfresh _ _ _ _ _ Hrows). simpl.
    apply load_token_map_NoDup. constructor. }
  assert (HMs : str_valued M).
  { apply (tokenize_rows_str_valued _ Hfresh _ _ _ _ _ Hrows).
    - now apply DictReader_rows_str_valued.
    - simpl. apply load_token_map_str_valued. constructor. }
  pose proof (tokenize_rows_tokenized_as _ Hfresh _ _ _ _ _ NDc Hrows) as Htok.
  fold M in Htok.
  set (w1 := tokenized_world _ _ _ _ _ _ _).
  assert (Hmapfile : dict_get (files w1) token_map_file
                     = Some (save_token_map M)) by apply dict_get_set_same.
  assert (Hout : dict_get (files w1) output_file
                 = Some (header :: map (render header) rows')).
  { unfold w1, tokenized_world. simpl.
    rewrite dict_get_set_other by assumption. apply dict_get_set_same. }
  assert (Hin1 : dict_get (files w1) input_file = Some (header :: lines)).
  { unfold w1, tokenized_world. simpl.
    rewrite !dict_get_set_other by assumption. exact Hin. }
  rewrite tokenize_data_start.
  assert (Hload : fst (load_token_map (content w1 token_map_file) []) = M).
  { unfold content. rewrite Hmapfile. now rewrite load_save. }
  rewrite Hload.
  set (w1' := logged w1 (load_events w1 token_map_file)).
  pose proof (tokenize_with_run gen input_file output_file cols header lines
                Hio Hfit token_method token_map_file M w1' Hgen Hin1) as Hfwd.
  fold rows0 in Hfwd.
  destruct (tokenize_rows_known gen cols rows0
              (mk_tok_state M (uuid_draws w1') []) NDc
              (tokenized_as_known _ _ _ _ Htok))
    as (rows2 & ws & Hrows2).
  rewrite Hrows2 in Hfwd. simpl in Hfwd.
  pose proof (tokenize_rows_tokenized_as _ Hfresh _ _ _ _ _ NDc Hrows2)
    as Htok2.
  simpl in Htok2.
  assert (Heq : rows2 = rows').
  { apply (tokenized_as_unique_rows cols M rows0); try assumption.
    unfold rows0, DictReader_rows. rewrite map_map.
    apply Forall_map, Forall_forall. intros line _.
    apply DictReader_row_NoDup. }
  subst rows2. eexists. split; [exact Hfwd|]. split; [|reflexivity].
  change (dict_set token_map_file (save_token_map M)
            (dict_set output_file (header :: map (render header) rows')
                      (files w1)) = files w1).
  transitivity (dict_set token_map_file (save_token_map M) (files w1)).
  - f_equal. apply dict_set_same_value. exact Hout.
  - apply dict_set_same_value. exact Hmapfile.
Qed.

Lemma second_run_changes_nothing_witness :
  exists w2,
    tokenize_data "in.csv" "out.csv" ["ssn"; "name"] "uuid" "map.csv"
      (snd (tokenize_data "in.csv" "out.csv" ["ssn"; "name"] "uuid" "map.csv"
                          uuid_world))
    = (Ok tt, w2) /\
    files w2
    = files (snd (tokenize_data "in.csv" "out.csv" ["ssn"; "name"] "uuid"
                                "map.csv" uuid_world)) /\
    uuid_draws w2
    = uuid_draws (snd (tokenize_data "in.csv" "out.csv" ["ssn"; "name"]
                                     "uuid" "map.csv" uuid_world)).
Proof.
  apply (second_run_changes_nothing
           "in.csv" "out.csv" ["ssn"; "name"] "uuid" "map.csv" uuid_world _
           ["id"; "name"; "ssn"]
           [["1"; "Alice"; "111-22-3333"];
            ["2"; "Bob"; "444-55-6666"];
            ["3"; "Alice"; "111-22-3333"]]).
  - reflexivity.
  - repeat constructor; right; reflexivity.
  - repeat constructor; simpl; intuition discriminate.
  - discriminate.
  - discriminate.
  - vm_compute. reflexivity.
Defined.

(* ================================================================== *)
(** * Further properties: the whole file comes back *)




(* ================================================================== *)
(** * Further properties: the entry point *)

(** X19: [main] turns a missing input file into exit status 1: in tokenize
    mode with a known method, and in detokenize mode with a mapping file in
    place, no file is created or changed, nothing is logged at level INFO,
    and the error is logged twice, once by the operation and once by
    [main]. *)
Theorem main_missing_input
        (args : Namespace) (gen : token_generator_t) (w : world)
        (mapping_rows : csv_file) :
  dict_get (files w) (ns_input_file args) = None ->
  (if ns_detokenize args
   then dict_get (files w) (ns_token_map_file args) = Some mapping_rows
   else generator_named (ns_token_method args) gen) ->
  exists evs,
    main args w
    = (Ok (mk_main_result 1 []),
       logged w (evs ++ [EvError "Input file not found";
                         EvError "An error occurred"])) /\
    forall ev, In ev evs -> forall msg, ev <> EvError msg.
Proof.
  intros Hmiss Hmode. unfold main.
  pose proof (tokenize_data_missing_input
                (ns_input_file args) (ns_output_file args)
                (ns_tokenize_columns args) (ns_token_method args)
                (ns_token_map_file args) gen w Hmiss) as Htok.
  pose proof (detokenize_data_missing_input
                (ns_input_file args) (ns_output_file args)
                (ns_token_map_file args) w mapping_rows Hmiss) as Hdetok.
  destruct (ns_detokenize args).
  - rewrite (Hdetok Hmode).
    exists (EvOpenRead (ns_token_map_file args)
            :: map EvWarning (snd (load_token_map mapping_rows []))).
    split.
    + unfold logged. simpl. do 2 f_equal.
      repeat (rewrite <- app_assoc; simpl). reflexivity.
    + intros ev [<-|Hin] msg; [discriminate|].
      apply in_map_iff in Hin as (x & <- & _). discriminate.
  - rewrite (Htok Hmode).
    exists (load_events w (ns_token_map_file args)).
    split.
    + unfold logged. simpl. do 2 f_equal.
      repeat (rewrite <- app_assoc; simpl). reflexivity.
    + unfold load_events.
      destruct (dict_get (files w) (ns_token_map_file args)) as [rows|];
        intros ev Hin msg.
      * destruct Hin as [<-|[<-|Hin]]; try discriminate.
        apply in_map_iff in Hin as (x & <- & _). discriminate.
      * destruct Hin as [<-|[]]. discriminate.
Qed.

Lemma main_missing_input_witness :
  exists evs,
    main (mk_Namespace "absent.csv" "out.csv" ["ssn"] "uuid" "map.csv" false)
         mapping_world
    = (Ok (mk_main_result 1 []),
       logged mapping_world
              (evs ++ [EvError "Input file not found";
                       EvError "An error occurred"])) /\
    forall ev, In ev evs -> forall msg, ev <> EvError msg.
Proof.
  apply (main_missing_input
           (mk_Namespace "absent.csv" "out.csv" ["ssn"] "uuid" "map.csv" false)
           generate_uuid_token mapping_world []).
  - reflexivity.
  - left. split; reflexivity.
Defined.

(* ================================================================== *)
(** * Further properties: the lookup of the detokenizer *)

Section Raises.
Variable P : exn -> Prop.

Lemma raises_only_ret {A} (a : A) : raises_only P (ret a).
Proof. intros w e w' H. discriminate. Qed.

Lemma raises_only_raise {A} (e : exn) : P e -> raises_only P (@raise A e).
Proof. intros He w e' w' [= <- _]. exact He. Qed.

Lemma raises_only_diverge {A} : raises_only P (@diverge A).
Proof. intros w e w' H. discriminate. Qed.

Lemma raises_only_bind {A B} (m : M A) (f : A -> M B) :
  raises_only P m -> (forall a, raises_only P (f a)) ->
  raises_only P (bind m f).
Proof.
  intros Hm Hf w e w'. unfold bind.
  destruct (m w) as [[a|e0|] w1] eqn:E.
  - apply Hf.
  - intros [= <- _]. eapply Hm; eassumption.
  - discriminate.
Qed.

Lemma raises_only_log_and_reraise {A} (nf other : string) (m : M A) :
  raises_only P m -> raises_only P (log_and_reraise nf other m).
Proof.
  intros Hm w e w'. unfold log_and_reraise.
  destruct (m w) as [[a|e0|] w1] eqn:E; try discriminate.
  intros [= <- _]. eapply Hm; eassumption.
Qed.

Lemma raises_only_open_read (path : string) :
  P (FileNotFoundError path) -> raises_only P (open_read path).
Proof.
  intros HP w e w'. unfold open_read.
  destruct (dict_mem path (files w)); [discriminate|].
  now intros [= <- _].
Qed.

Lemma raises_only_read_rows (path : string) :
  P (FileNotFoundError path) -> raises_only P (read_rows path).
Proof.
  intros HP w e w'. unfold read_rows.
  destruct (dict_get (files w) path); [discriminate|].
  now intros [= <- _].
Qed.

Lemma raises_only_open_write (path : string) :
  raises_only P (open_write path).
Proof. intros w e w' H. discriminate. Qed.

Lemma raises_only_write_row (path : string) (row : list string) :
  raises_only P (write_row path row).
Proof. intros w e w' H. discriminate. Qed.

Lemma raises_only_writeheader (path : string) (header : option (list string)) :
  P (TypeError "'NoneType' object is not iterable") ->
  raises_only P (writeheader path header).
Proof.
  intro HP. destruct header as [names|]; simpl.
  - apply raises_only_bind; [apply raises_only_write_row | intros _].
    apply raises_only_ret.
  - now apply raises_only_raise.
Qed.

Lemma DictWriter_row_raises (fieldnames : list string) (r : dict_row)
      (e : exn) :
  DictWriter_row fieldnames r = Raise e ->
  e = ValueError "dict contains fields not in fieldnames".
Proof.
  unfold DictWriter_row. destruct (restkey r); [now intros [= <-]|].
  destruct (forallb _ _); [discriminate | now intros [= <-]].
Qed.

Lemma raises_only_detokenize_loop tm output_file fieldnames rows :
  P (ValueError "dict contains fields not in fieldnames") ->
  Forall (fun r => forall c, In c fieldnames -> dict_mem c (cells r) = true)
         rows ->
  raises_only P (detokenize_loop tm output_file fieldnames rows).
Proof.
  intros HP Hcov. induction Hcov as [|r rows Hc Hcov IH]; simpl;
    [apply raises_only_ret|].
  destruct (detokenize_row_spec tm fieldnames (cells r) Hc)
    as (row' & -> & _).
  destruct (DictWriter_row fieldnames (mk_dict_row row' (restkey r)))
    as [fields|e|] eqn:W.
  - apply raises_only_bind; [apply raises_only_write_row | intros _; apply IH].
  - apply raises_only_raise. now rewrite (DictWriter_row_raises _ _ _ W).
  - apply raises_only_diverge.
Qed.
End Raises.

(** The one exception of the column loop, [KeyError], is not among the
    exceptions of a run of the detokenizer over a data file. *)
Lemma detokenize_with_no_KeyError tm input_file output_file :
  raises_only (fun e => forall key, e <> KeyError key)
              (detokenize_with tm input_file output_file).
Proof.
  unfold detokenize_with.
  apply raises_only_log_and_reraise.
  apply raises_only_bind;
    [apply raises_only_open_read; intro; discriminate | intros _].
  apply raises_only_bind; [apply raises_only_open_write | intros _].
  apply raises_only_bind;
    [apply raises_only_read_rows; intro; discriminate | intros lines].
  destruct (split_header lines) as [header rest].
  apply raises_only_bind;
    [apply raises_only_writeheader; intro; discriminate | intros names].
  apply raises_only_detokenize_loop; [intro; discriminate|].
  apply DictReader_rows_covered.
Qed.

(** X20: the lookup [row[column]] of the column loop of [detokenize_data]
    never fails.  The records come from a [csv.DictReader] on the field
    names that the loop goes through, so every record has every column: for
    any mapping and any lines, the column loop returns a record for each
    record of the file, and no exception that [detokenize_data] raises is a
    [KeyError]. *)
Theorem detokenize_never_KeyError
        (tm : token_map_t) (fieldnames : list string) (lines : csv_file)
        (input_file output_file token_map_file : string) (w : world) :
  Forall (fun r => exists row',
              detokenize_row tm fieldnames (cells r) = Ok row')
         (DictReader_rows fieldnames lines) /\
  forall e w',
    detokenize_data input_file output_file token_map_file w = (Raise e, w') ->
    forall key, e <> KeyError key.
Proof.
  split.
  - pose proof (DictReader_rows_covered fieldnames lines) as Hcov.
    induction Hcov as [|r rows Hc _ IH]; constructor; [|assumption].
    destruct (detokenize_row_spec tm fieldnames (cells r) Hc)
      as (row' & Hrow & _).
    now exists row'.
  - intros e w'.
    destruct (dict_get (files w) token_map_file) as [rows|] eqn:G.
    + rewrite (detokenize_data_loads _ _ _ _ _ G). intro H.
      exact (detokenize_with_no_KeyError _ _ _ _ _ _ H).
    + unfold detokenize_data, bind, log_and_reraise.
      rewrite (read_token_map_missing _ _ G). intros [= <- _] key.
      discriminate.
Qed.

Lemma detokenize_never_KeyError_witness :
  Forall (fun r => exists row',
              detokenize_row [("t1", PyStr "x")] ["a"; "b"] (cells r)
              = Ok row')
         (DictReader_rows ["a"; "b"] [["t1"]; []; ["t1"; "2"; "3"]]) /\
  forall e w',
    detokenize_data "in.csv" "out.csv" "map.csv" long_line_world
    = (Raise e, w') ->
    forall key, e <> KeyError key.
Proof.
  exact (detokenize_never_KeyError
           [("t1", PyStr "x")] ["a"; "b"] [["t1"]; []; ["t1"; "2"; "3"]]
           "in.csv" "out.csv" "map.csv" long_line_world).
Defined.
